(** * HealthyBitesAI front end: a shallow embedding of its logic

    The development follows the TypeScript sources of the Next.js front end:

    - [Frontend/components/AnalysisDisplay.tsx]: [extractHealthRating] and
      [parseAnalysisText], two functions that read an AI answer with
      regular expressions;
    - [lib/config]: [API_CONFIG] and [getApiUrl];
    - the analysis page, the ingredients page and the home page: the
      effects that load data, the cache look-ups and the render functions.

    Strings are sequences of UTF-16 code units, regular expressions are
    run by a backtracking matcher written after the ECMAScript
    specification, JSON data is a tree of JavaScript values, and the
    asynchronous handlers are functions from the way the network answers
    to the final component state and the log of what was sent. *)

From Stdlib Require Import String Ascii NArith QArith List Bool Lia.
From Stdlib Require Import DecimalString DecimalNat Lqa.
From Stdlib Require Import Qabs.
From Stdlib Require Qcanon.
From stdpp Require Import base option list gmap.

Set Default Proof Using "Type".
Set Warnings "-register-all".

(* ===================================================================== *)
(** * Part I: definitions *)
(* ===================================================================== *)

(** ** JavaScript strings *)

(** A JavaScript string is a sequence of 16-bit code units. *)
Abbreviation code_unit := N (only parsing).
Abbreviation jsstring := (list N) (only parsing).

(** String literals of the sources are ASCII; [lit] turns a Rocq literal
    into code units. *)
Definition lit (s : string) : jsstring :=
  map N_of_ascii (list_ascii_of_string s).

Definition LF : code_unit := 10%N.

(** WhiteSpace and LineTerminator of ECMAScript: what [\s] matches and
    what [String.prototype.trim] strips. *)
Definition is_white_space (c : code_unit) : bool :=
  match c with
  | 9 | 10 | 11 | 12 | 13 | 32 | 160 | 5760
  | 8232 | 8233 | 8239 | 8287 | 12288 | 65279 => true
  | _ => (8192 <=? c) && (c <=? 8202)
  end%N.

Definition is_digit (c : code_unit) : bool := ((48 <=? c) && (c <=? 57))%N.

Fixpoint trimStart (s : jsstring) : jsstring :=
  match s with
  | c :: s' => if is_white_space c then trimStart s' else s
  | [] => []
  end.

Definition trimEnd (s : jsstring) : jsstring := rev (trimStart (rev s)).

(** [String.prototype.trim] *)
Definition trim (s : jsstring) : jsstring := trimEnd (trimStart s).

Fixpoint take_while (p : code_unit -> bool) (s : jsstring) : jsstring :=
  match s with
  | c :: s' => if p c then c :: take_while p s' else []
  | [] => []
  end.

Fixpoint drop_while (p : code_unit -> bool) (s : jsstring) : jsstring :=
  match s with
  | c :: s' => if p c then drop_while p s' else s
  | [] => []
  end.

(** In a condition a string is true when it is not empty. *)
Definition nonempty (s : jsstring) : bool :=
  match s with [] => false | _ :: _ => true end.

(** Upper case of an ASCII code unit; other code units are left alone. *)
Definition ascii_upper (c : code_unit) : code_unit :=
  if ((97 <=? c) && (c <=? 122))%N then (c - 32)%N else c.

(** ** Regular expressions

    The patterns of the sources use literals, character classes, greedy
    and lazy quantifiers, one capture group, alternation, a lookahead and
    the assertions [^] and [$], all without the [g], [m], [u] and [y]
    flags. *)
Module RegExp.

Inductive regex : Type :=
| Empty
| Class (p : code_unit -> bool)        (* one character of a class *)
| Seq (r1 r2 : regex)
| Alt (r1 r2 : regex)                  (* r1|r2 *)
| Star (greedy : bool) (r : regex)     (* r* and r*? *)
| Plus (greedy : bool) (r : regex)     (* r+ and r+? *)
| Opt (greedy : bool) (r : regex)      (* r? and r?? *)
| Group (i : nat) (r : regex)          (* capture group number i *)
| Lookahead (r : regex)                (* (?=r) *)
| StartOfInput                         (* ^ without the m flag *)
| EndOfInput.                          (* $ without the m flag *)

(** The state of a match: the input that is left, and the text of the
    groups captured so far (latest first). *)
Record mstate : Type := MState {
  rest : jsstring;
  captures : list (nat * jsstring)
}.

(** A continuation tells whether the rest of the pattern matches. *)
Definition cont : Type := mstate -> option mstate.

(** RepeatMatcher with min = 0 and max = infinity.  An iteration that
    consumes nothing is rejected, as in the specification; the matchers
    below only move forward, so "the position did not change" reads
    "the rest is not shorter".  [fuel] bounds the length of the rest. *)
Fixpoint repeat_matcher (m : cont -> cont) (greedy : bool) (k : cont)
    (fuel : nat) (x : mstate) {struct fuel} : option mstate :=
  let d : cont := fun y =>
    if length (rest y) <? length (rest x) then
      match fuel with
      | S fuel' => repeat_matcher m greedy k fuel' y
      | O => None
      end
    else None in
  if greedy then
    match m d x with Some z => Some z | None => k x end
  else
    match k x with Some z => Some z | None => m d x end.

(** The matcher of a pattern, in continuation-passing style: [input]
    is the whole subject string, of which [rest x] is a suffix. *)
Fixpoint matcher (input : jsstring) (r : regex) (k : cont) (x : mstate)
    {struct r} : option mstate :=
  match r with
  | Empty => k x
  | Class p =>
      match rest x with
      | c :: s => if p c then k (MState s (captures x)) else None
      | [] => None
      end
  | Seq r1 r2 => matcher input r1 (matcher input r2 k) x
  | Alt r1 r2 =>
      match matcher input r1 k x with
      | Some z => Some z
      | None => matcher input r2 k x
      end
  | Star greedy r' =>
      repeat_matcher (matcher input r') greedy k (length (rest x)) x
  | Plus greedy r' =>
      matcher input r'
        (fun y =>
           repeat_matcher (matcher input r') greedy k (length (rest y)) y) x
  | Opt greedy r' =>
      let d : cont := fun y =>
        if length (rest y) <? length (rest x) then k y else None in
      if greedy then
        match matcher input r' d x with Some z => Some z | None => k x end
      else
        match k x with Some z => Some z | None => matcher input r' d x end
  | Group i r' =>
      matcher input r'
        (fun y =>
           k (MState (rest y)
                ((i, take (length (rest x) - length (rest y)) (rest x))
                   :: captures y))) x
  | Lookahead r' =>
      match matcher input r' Some x with
      | Some y => k (MState (rest x) (captures y))
      | None => None
      end
  | StartOfInput =>
      if length (rest x) =? length input then k x else None
  | EndOfInput =>
      match rest x with
      | [] => k x
      | _ :: _ => None
      end
  end.

(** The array that [String.prototype.match] returns for a pattern
    without the [g] flag: where the match starts, element 0 (the whole
    match) and the groups. *)
Record match_result : Type := MatchResult {
  index : nat;
  matched : jsstring;
  groups : list (nat * jsstring)
}.

(** RegExpBuiltinExec from [lastIndex = 0]: the first start position,
    from the left, at which the pattern matches. *)
Fixpoint exec_from (input : jsstring) (r : regex) (i : nat) (s : jsstring)
    {struct s} : option match_result :=
  match matcher input r Some (MState s []) with
  | Some y =>
      Some (MatchResult i (take (length s - length (rest y)) s) (captures y))
  | None =>
      match s with
      | [] => None
      | _ :: s' => exec_from input r (S i) s'
      end
  end.

(** [text.match(pattern)]; [None] is [null]. *)
Definition regexp_match (r : regex) (text : jsstring) : option match_result :=
  exec_from text r 0 text.

(** [pattern.test(text)] *)
Definition regexp_test (r : regex) (text : jsstring) : bool :=
  match regexp_match r text with Some _ => true | None => false end.

(** [m[i]]; [None] is [undefined], a group that took no part. *)
Fixpoint assoc (i : nat) (l : list (nat * jsstring)) : option jsstring :=
  match l with
  | [] => None
  | (j, s) :: l' => if Nat.eqb i j then Some s else assoc i l'
  end.

Definition group (i : nat) (m : match_result) : option jsstring :=
  assoc i (groups m).

(** *** Pattern characters under the [i] flag

    Canonicalize compares upper cases, and never lets a code unit
    above 127 fold to one below 128: an ASCII pattern character
    matches its two ASCII cases only. *)
Definition chr_i (a : code_unit) : regex :=
  Class (fun c => (c <? 128)%N && (ascii_upper c =? ascii_upper a)%N).

Definition chr (a : code_unit) : regex := Class (N.eqb a).

Fixpoint literal_i (s : jsstring) : regex :=
  match s with
  | [] => Empty
  | [a] => chr_i a
  | a :: s' => Seq (chr_i a) (literal_i s')
  end.

Definition space : regex := Class is_white_space.          (* \s *)
Definition digit : regex := Class is_digit.                (* \d *)
Definition any : regex := Class (fun _ => true).           (* [\s\S] *)
Definition not_newline : regex :=                          (* [^\n] *)
  Class (fun c => negb (c =? LF)%N).

End RegExp.
Import RegExp.

(** ** Frontend/components/AnalysisDisplay.tsx *)
Module AnalysisDisplay.

(** The icons of lucide-react that the sections use. *)
Inductive icon : Type := Award | AlertTriangle | CheckCircle | Lightbulb | Target.

Record Section : Type := {
  title : jsstring;
  content : jsstring;
  icon_of : option icon;
  color : option jsstring
}.

(** A number of the source, an IEEE 754 double that is not negative:
    NaN, a finite double given by its value in lowest terms, or
    Infinity. *)
Inductive number : Type := NaN | Finite (q : Q) | Infinity.

(** [floor (log2 (n / d))] for positive [n] and [d]. *)
Definition log2_ratio (n d : Z) : Z :=
  let l := (Z.log2 n - Z.log2 d)%Z in
  (if 0 <=? l
   then (if d * 2 ^ l <=? n then l else l - 1)
   else (if d <=? n * 2 ^ (- l) then l else l - 1))%Z.

(** The integer nearest to [n / d], the even one of two that are
    equally near. *)
Definition round_half_even (n d : Z) : Z :=
  match (2 * (n mod d) ?= d)%Z with
  | Lt => (n / d)%Z
  | Gt => (n / d + 1)%Z
  | Eq => if Z.even (n / d) then (n / d)%Z else (n / d + 1)%Z
  end.

(** The Number value for the mathematical value [n / d], which is not
    negative: the nearest double, with 53 bits of significand and a
    least exponent of -1074, ties going to the even significand; what
    rounds to 2^1024 is Infinity.  This is the correctly rounded
    value, which the engines compute; for a literal of more than 20
    significant digits ECMAScript also allows the Number value of the
    literal cut or rounded up at the 20th digit. *)
Definition Number_value (n : N) (d : positive) : number :=
  let n := Z.of_N n in
  let d := Z.pos d in
  if (n =? 0)%Z then Finite 0 else
  let e := Z.max (-1074) (log2_ratio n d - 52) in
  let m := (if 0 <=? e then round_half_even n (d * 2 ^ e)
            else round_half_even (n * 2 ^ (- e)) d)%Z in
  if (0 <=? e)%Z then
    if (2 ^ 1024 <=? m * 2 ^ e)%Z then Infinity
    else Finite (inject_Z (m * 2 ^ e))
  else Finite (Qred (m # Z.to_pos (2 ^ (- e)))).

Record HealthRating : Type := {
  score : number;
  verdict : jsstring
}.

(** [/(?:Health\s+)?Rating[:\s]+(\d+(?:\.\d+)?)\s*\/\s*10/i] *)
Definition ratingPattern : regex :=
  Seq (Opt true (Seq (literal_i (lit "Health")) (Plus true space)))
 (Seq (literal_i (lit "Rating"))
 (Seq (Plus true (Class (fun c => (c =? 58)%N || is_white_space c)))
 (Seq (Group 1 (Seq (Plus true digit)
                    (Opt true (Seq (chr 46) (Plus true digit)))))
 (Seq (Star true space)
 (Seq (chr 47)
 (Seq (Star true space)
      (literal_i (lit "10")))))))).

(** [/OVERALL VERDICT:?\s*([^\n]+)/i] *)
Definition verdictPattern : regex :=
  Seq (literal_i (lit "OVERALL VERDICT"))
 (Seq (Opt true (chr 58))
 (Seq (Star true space)
      (Group 1 (Plus true not_newline)))).

(** Value of a run of decimal digits. *)
Definition digits_value (ds : jsstring) : N :=
  fold_left (fun acc c => (10 * acc + (c - 48))%N) ds 0%N.

(** [parseFloat] on texts made of digits with at most one fraction
    part, the only texts group 1 of [ratingPattern] can hold: leading
    white space is skipped, the longest prefix [digits[.digits]] is
    read.  Signs, exponents and [Infinity] are not read. *)
Definition parseFloat (s : jsstring) : number :=
  let s := trimStart s in
  let ip := take_while is_digit s in
  let s1 := drop_while is_digit s in
  let fp := match s1 with
            | 46%N :: s2 => take_while is_digit s2
            | _ => []
            end in
  match ip, fp with
  | [], _ => NaN
  | _, _ =>
      Number_value (digits_value (ip ++ fp))
                   (Z.to_pos (10 ^ Z.of_nat (length fp)))
  end.

Definition extractHealthRating (text : jsstring) : option HealthRating :=
  match regexp_match ratingPattern text with
  | Some ratingMatch =>
      let score := parseFloat (default [] (group 1 ratingMatch)) in
      let verdictMatch := regexp_match verdictPattern text in
      let verdict :=
        match verdictMatch with
        | Some m => trim (default [] (group 1 m))
        | None => []
        end in
      Some {| score := score; verdict := verdict |}
  | None => None
  end.

(** [nextHeader] and [lookahead] of [parseAnalysisText]. *)
Definition nextHeader : regex :=
  Alt (literal_i (lit "SUMMARY"))
 (Alt (literal_i (lit "KEY RISKS"))
 (Alt (literal_i (lit "POSITIVE HIGHLIGHTS"))
 (Alt (literal_i (lit "RECOMMENDATION"))
 (Alt (literal_i (lit "MARKETING TRAPS"))
      (literal_i (lit "OVERALL VERDICT")))))).

Definition lookahead : regex :=
  Lookahead (Alt (Seq (chr LF) (Seq (Star true space) nextHeader)) EndOfInput).

(** [new RegExp(`HEADER:?\\s*([\\s\\S]*?)${lookahead}`, 'i')] *)
Definition sectionPattern (header : string) : regex :=
  Seq (literal_i (lit header))
 (Seq (Opt true (chr 58))
 (Seq (Star true space)
 (Seq (Group 1 (Star false any))
      lookahead))).

Record SectionPattern : Type := {
  pattern : regex;
  sp_title : jsstring;
  sp_icon : icon;
  sp_color : jsstring
}.

Definition sectionPatterns : list SectionPattern :=
  [ {| pattern := sectionPattern "SUMMARY"; sp_title := lit "Summary";
       sp_icon := Award; sp_color := lit "purple" |};
    {| pattern := sectionPattern "KEY RISKS"; sp_title := lit "Key Risks";
       sp_icon := AlertTriangle; sp_color := lit "red" |};
    {| pattern := sectionPattern "POSITIVE HIGHLIGHTS";
       sp_title := lit "Positive Highlights";
       sp_icon := CheckCircle; sp_color := lit "green" |};
    {| pattern := sectionPattern "RECOMMENDATION";
       sp_title := lit "Recommendation";
       sp_icon := Lightbulb; sp_color := lit "yellow" |};
    {| pattern := sectionPattern "MARKETING TRAPS";
       sp_title := lit "Marketing Traps";
       sp_icon := Target; sp_color := lit "orange" |} ].

(** The body of the [forEach] callback: what one pattern adds to
    [sections]. *)
Definition pushSection (text : jsstring) (sections : list Section)
    (p : SectionPattern) : list Section :=
  match regexp_match (pattern p) text with
  | Some m =>
      match group 1 m with
      | Some g =>
          if nonempty g then
            let content := trim g in
            if nonempty content then
              sections ++ [ {| title := sp_title p; content := content;
                               icon_of := Some (sp_icon p);
                               color := Some (sp_color p) |} ]
            else sections
          else sections
      | None => sections
      end
  | None => sections
  end.

(** The parameter is a string: the [typeof text !== 'string'] guard of
    the source leaves it as it is. *)
Definition parseAnalysisText (text : jsstring) : list Section :=
  fold_left (pushSection text) sectionPatterns [].

End AnalysisDisplay.

(** ** JavaScript values

    JSON data, cache entries and component state that TypeScript does not
    check at run time.  A number stands as its canonical rendering
    (Number::toString): the pages never compute with one, they test it
    as a condition or print it. *)
Inductive jsval : Type :=
| JUndefined
| JNull
| JBool (b : bool)
| JNum (repr : jsstring)
| JStr (s : jsstring)
| JArr (xs : list jsval)
| JObj (fields : list (jsstring * jsval)).

(** A thrown value or the reason of a rejected promise: an [Error]
    object, of which the handlers read [message]. *)
Record exn : Type := Error { message : jsstring }.

(** ToBoolean *)
Definition truthy (v : jsval) : bool :=
  match v with
  | JUndefined | JNull => false
  | JBool b => b
  | JNum r => negb (bool_decide (r = lit "0") || bool_decide (r = lit "NaN"))
  | JStr s => nonempty s
  | JArr _ | JObj _ => true
  end.

(** [a || b] *)
Definition js_or (a b : jsval) : jsval := if truthy a then a else b.

Definition isArray (v : jsval) : bool :=
  match v with JArr _ => true | _ => false end.

(** Own property [key] of an object literal; [undefined] when absent. *)
Fixpoint field (key : jsstring) (fs : list (jsstring * jsval)) : jsval :=
  match fs with
  | [] => JUndefined
  | (k, v) :: fs' => if bool_decide (k = key) then v else field key fs'
  end.

(** The message of the TypeError that reading a property of [null] or
    [undefined] throws (its wording is the engine's). *)
Definition TypeError_read (v : jsval) (key : jsstring) : exn :=
  Error (lit "Cannot read properties of "
           ++ (match v with JNull => lit "null" | _ => lit "undefined" end)
           ++ lit " (reading '" ++ key ++ lit "')").

(** [v.key] for the property names of the sources, none of which is
    [length], an index or a name found on a prototype: objects answer
    with their own property, other values with [undefined], and [null]
    and [undefined] throw. *)
Definition get (v : jsval) (key : jsstring) : exn + jsval :=
  match v with
  | JUndefined | JNull => inl (TypeError_read v key)
  | JObj fs => inr (field key fs)
  | _ => inr JUndefined
  end.

(** [v?.key] *)
Definition get_opt (v : jsval) (key : jsstring) : jsval :=
  match get v key with inl _ => JUndefined | inr w => w end.

(** The TypeError of [OrdinaryToPrimitive] when neither [toString] nor
    [valueOf] gives a primitive (its wording is the engine's). *)
Definition TypeError_primitive : exn :=
  Error (lit "Cannot convert object to primitive value").

(** [String(v)] for data that came out of JSON.  An array is joined
    with commas, [null] and [undefined] entries giving the empty
    string.  An object answers with the [toString] of
    [Object.prototype] unless it has a property [toString] of its own:
    that one, coming out of JSON, is not callable, [valueOf] then
    gives no primitive either, and the conversion throws. *)
Fixpoint ToString (v : jsval) : exn + jsstring :=
  match v with
  | JUndefined => inr (lit "undefined")
  | JNull => inr (lit "null")
  | JBool true => inr (lit "true")
  | JBool false => inr (lit "false")
  | JNum r => inr r
  | JStr s => inr s
  | JArr xs =>
      (fix join (l : list jsval) : exn + jsstring :=
         match l with
         | [] => inr []
         | x :: l' =>
             match (match x with
                    | JUndefined | JNull => inr []
                    | _ => ToString x
                    end) with
             | inl e => inl e
             | inr s =>
                 match l' with
                 | [] => inr s
                 | _ :: _ =>
                     match join l' with
                     | inl e => inl e
                     | inr t => inr (s ++ lit "," ++ t)
                     end
                 end
             end
         end) xs
  | JObj fs =>
      if bool_decide (lit "toString" ∈ map fst fs)
      then inl TypeError_primitive
      else inr (lit "[object Object]")
  end.

(** Decimal rendering of an index. *)
Definition index_key (i : nat) : jsstring :=
  lit (DecimalString.NilEmpty.string_of_uint (Nat.to_uint i)).

(** [{ ...v }]: the own enumerable properties of [v]. *)
Definition spread (v : jsval) : list (jsstring * jsval) :=
  match v with
  | JObj fs => fs
  | JArr xs => imap (fun i x => (index_key i, x)) xs
  | JStr s => imap (fun i c => (index_key i, JStr [c])) s
  | _ => []
  end.

(** [{ ...fs, [key]: v }]: an existing property keeps its place. *)
Fixpoint set_field (key : jsstring) (v : jsval) (fs : list (jsstring * jsval))
    : list (jsstring * jsval) :=
  match fs with
  | [] => [(key, v)]
  | (k, w) :: fs' =>
      if bool_decide (k = key) then (k, v) :: fs'
      else (k, w) :: set_field key v fs'
  end.

(** ** The network and the browser *)

Inductive method : Type := GET | POST.

Record request : Type := Request { url : jsstring; meth : method }.

(** A response: its status, and what [res.json()] settles to. *)
Record response : Type := Response { status : N; json : exn + jsval }.

(** [res.ok] *)
Definition ok (res : response) : bool :=
  ((200 <=? status res) && (status res <=? 299))%N.

(** How the promise of a [fetch] settles. *)
Inductive settled : Type :=
| Rejected (reason : exn)
| Fulfilled (res : response).

(** The network, as far as a handler sees it: how each request settles. *)
Definition network : Type := request -> settled.

(** A cache object: its own properties.  The context's [cache] and
    [window.__FD_CACHE__] may be [undefined] ([None]). *)
Abbreviation cache_object := (option (gmap (list N) jsval)) (only parsing).

(** [c && c[id]], when it holds: the entry under [id]. *)
Definition cached_entry (c : cache_object) (id : jsstring) : option jsval :=
  match c with
  | Some m =>
      match m !! id with
      | Some v => if truthy v then Some v else None
      | None => None
      end
  | None => None
  end.

(** What a handler leaves outside its component: the window's cache, the
    requests sent, the calls of the context's [setCacheEntry] (the
    provider is not part of these sources) and the first argument of
    each [console.error]. *)
Record browser : Type := Browser {
  FD_CACHE : cache_object;
  fetched : list request;
  cacheEntries : list (jsstring * jsval);
  console : list jsstring
}.

Definition fetch (req : request) (b : browser) : browser :=
  Browser (FD_CACHE b) (fetched b ++ [req]) (cacheEntries b) (console b).

Definition setCacheEntry (key : jsstring) (v : jsval) (b : browser) : browser :=
  Browser (FD_CACHE b) (fetched b) (cacheEntries b ++ [(key, v)]) (console b).

(** [window.__FD_CACHE__ = { ...window.__FD_CACHE__ || {}, [id]: v }] *)
Definition store_FD_CACHE (id : jsstring) (v : jsval) (b : browser) : browser :=
  Browser (Some (<[id := v]> (default ∅ (FD_CACHE b))))
          (fetched b) (cacheEntries b) (console b).

Definition console_error (msg : jsstring) (b : browser) : browser :=
  Browser (FD_CACHE b) (fetched b) (cacheEntries b) (console b ++ [msg]).

(** [params.id] of a dynamic route: a segment, the segments of a
    catch-all route (never empty), or [undefined]. *)
Inductive param : Type :=
| ParamUndefined
| ParamString (s : jsstring)
| ParamArray (first : jsstring) (others : list jsstring).

(** [if (!params.id) return; const id = Array.isArray(params.id) ?
    params.id[0] : params.id]: [None] when the effect returns at once. *)
Definition route_id (p : param) : option jsstring :=
  match p with
  | ParamUndefined => None
  | ParamString s => if nonempty s then Some s else None
  | ParamArray first _ => Some first
  end.

(** ** lib/config *)
Module Config.

(** What [getBaseUrl] reads: whether [window] is defined, and
    [process.env.NEXT_PUBLIC_API_URL]. *)
Record environment : Type := {
  in_browser : bool;
  NEXT_PUBLIC_API_URL : option jsstring
}.

Definition getBaseUrl (env : environment) : jsstring :=
  if in_browser env then
    match NEXT_PUBLIC_API_URL env with
    | Some envUrl => if nonempty envUrl then envUrl else []
    | None => []
    end
  else
    match NEXT_PUBLIC_API_URL env with
    | Some envUrl =>
        if nonempty envUrl then envUrl else lit "http://127.0.0.1:8000"
    | None => lit "http://127.0.0.1:8000"
    end.

(** The keys of [API_CONFIG.ENDPOINTS]. *)
Inductive endpoint : Type := SEARCH | ANALYZE | PRODUCT | OCR | BARCODE.

Definition ENDPOINTS (e : endpoint) : jsstring :=
  match e with
  | SEARCH => lit "/api/v1/search"
  | ANALYZE => lit "/api/v1/analyze/product"
  | PRODUCT => lit "/api/v1/product"
  | OCR => lit "/api/v1/ocr"
  | BARCODE => lit "/api/v1/barcode"
  end.

(** [path] is optional: [None] is a call without it. *)
Definition getApiUrl (env : environment) (e : endpoint)
    (path : option jsstring) : jsstring :=
  let baseEndpoint := ENDPOINTS e in
  let baseUrl := getBaseUrl env in
  match path with
  | Some p =>
      if nonempty p then baseUrl ++ baseEndpoint ++ lit "/" ++ p
      else baseUrl ++ baseEndpoint
  | None => baseUrl ++ baseEndpoint
  end.

(** [EXTERNAL_APIS.OPEN_FOOD_FACTS.PRODUCT] *)
Definition OPEN_FOOD_FACTS_PRODUCT (barcode : jsstring) : jsstring :=
  lit "https://world.openfoodfacts.org/api/v0" ++ lit "/product/"
    ++ barcode ++ lit ".json".

End Config.
Import Config.

(** ** Handlers

    An event handler or an effect changes the state of its component and
    the browser, and may throw or end in a rejected promise; what it
    changed before it threw stays changed.  [await], [try], [catch] and
    [finally] (and the [.then], [.catch] and [.finally] of a promise
    chain) are the operations of this monad. *)
Section Handler.
Context {S : Type}.

Definition handler (A : Type) : Type :=
  S * browser -> (exn + A) * (S * browser).

Definition ret {A} (a : A) : handler A := fun w => (inr a, w).

Definition throw {A} (e : exn) : handler A := fun w => (inl e, w).

Definition bind {A B} (m : handler A) (f : A -> handler B) : handler B :=
  fun w =>
    match m w with
    | (inl e, w') => (inl e, w')
    | (inr a, w') => f a w'
    end.

Definition try_catch {A} (m : handler A) (h : exn -> handler A) : handler A :=
  fun w =>
    match m w with
    | (inl e, w') => h e w'
    | (inr a, w') => (inr a, w')
    end.

Definition finally {A} (m : handler A) (f : handler unit) : handler A :=
  fun w =>
    match m w with
    | (r, w') =>
        match f w' with
        | (inl e, w'') => (inl e, w'')
        | (inr _, w'') => (r, w'')
        end
    end.

(** A state setter of the component. *)
Definition update (f : S -> S) : handler unit :=
  fun w => (inr tt, (f (fst w), snd w)).

(** An effect outside the component. *)
Definition outside (f : browser -> browser) : handler unit :=
  fun w => (inr tt, (fst w, f (snd w))).

Definition read_state : handler S := fun w => (inr (fst w), w).

Definition read_browser : handler browser := fun w => (inr (snd w), w).

(** A value or an exception computed without effect. *)
Definition lift {A} (r : exn + A) : handler A := fun w => (r, w).

(** [await fetch(url, { method })]: the request is sent, then the
    promise settles as the network says. *)
Definition await_fetch (net : network) (req : request) : handler response :=
  bind (outside (fetch req))
    (fun _ => match net req with
              | Rejected e => throw e
              | Fulfilled res => ret res
              end).

(** The component and the browser once the handler has run. *)
Definition run {A} (m : handler A) (s : S) (b : browser) : S * browser :=
  snd (m (s, b)).

End Handler.

Notation "'do' x <- m ; k" := (bind m (fun x => k))
  (at level 10, x name, m at level 100, k at level 200).
Notation "m ;; k" := (bind m (fun _ => k))
  (at level 100, k at level 200, right associativity).

(** ** The analysis page: app/analysis/[id]/page.tsx *)
Module AnalysisPage.

Record AnalysisResponse : Type := {
  product_name : jsstring;
  analysis_sections : list jsstring
}.

(** The JSON value of a response that has the declared type. *)
Definition AnalysisResponse_value (r : AnalysisResponse) : jsval :=
  JObj [ (lit "product_name", JStr (product_name r));
         (lit "analysis_sections", JArr (map JStr (analysis_sections r))) ].

(** The state hooks of the component.  [analysisSections] is declared
    [string[]] and holds whatever array the JSON or the cache gave. *)
Record state : Type := State {
  analysisText : option jsstring;
  analysisSections : list jsval;
  loading : bool;
  error : option jsstring
}.

Definition initial : state := State None [] true None.

Definition setAnalysisText (t : jsstring) (s : state) : state :=
  State (Some t) (analysisSections s) (loading s) (error s).
Definition setAnalysisSections (xs : list jsval) (s : state) : state :=
  State (analysisText s) xs (loading s) (error s).
Definition setLoading (l : bool) (s : state) : state :=
  State (analysisText s) (analysisSections s) l (error s).
Definition setError (e : jsstring) (s : state) : state :=
  State (analysisText s) (analysisSections s) (loading s) (Some e).

(** What [tryUseCache] does with an entry it found. *)
Definition useCached (cached : jsval) : handler (S := state) bool :=
  (match cached with
   | JArr xs => update (setAnalysisSections xs)
   | JStr t => update (setAnalysisText t)
   | _ =>
       match get_opt cached (lit "analysis_sections") with
       | JArr xs => update (setAnalysisSections xs)
       | _ =>
           do t <- lift (ToString cached);
           update (setAnalysisText t)
       end
   end) ;;
  update (setLoading false) ;;
  ret true.

(** One [try] block of [tryUseCache]: the entry of this cache, when it
    is true as a condition, is used; what is thrown on the way is
    swallowed and the block then has not returned. *)
Definition tryCache (c : cache_object) (id : jsstring)
    : handler (S := state) bool :=
  try_catch
    (match cached_entry c id with
     | Some cached => useCached cached
     | None => ret false
     end)
    (fun _ => ret false).

(** [tryUseCache]: the window's cache first, then the context's. *)
Definition tryUseCache (id : jsstring) (cache : cache_object)
    : handler (S := state) bool :=
  do b <- read_browser;
  do used <- tryCache (FD_CACHE b) id;
  if (used : bool) then ret true else
  tryCache cache id.

Section Effect.
Context (env : environment).
(** [params.id], the context's [cache] as the effect's closure holds
    it, how the network answers, and whether the component is still
    mounted when the promise settles. *)
Context (params_id : param) (cache : cache_object)
        (net : network) (mounted : bool).

(** The second [.then]. *)
Definition onData (id : jsstring) (data : jsval) : handler (S := state) unit :=
  if negb mounted then ret tt else
  do sections <- lift (get data (lit "analysis_sections"));
  match sections with
  | JArr xs =>
      update (setAnalysisSections xs) ;;
      outside (setCacheEntry id sections) ;;
      outside (store_FD_CACHE id sections)
  | _ =>
      match data with
      | JStr t =>
          update (setAnalysisText t) ;;
          outside (setCacheEntry id data) ;;
          outside (store_FD_CACHE id data)
      | _ => ret tt
      end
  end.

Definition analyzeRequest (id : jsstring) : request :=
  Request (getApiUrl env ANALYZE (Some id)) POST.

(** The body of [useEffect]. *)
Definition effect : handler (S := state) unit :=
  match route_id params_id with
  | None => ret tt
  | Some id =>
      do used <- tryUseCache id cache;
      if (used : bool) then ret tt else
      finally
        (try_catch
           (do res <- await_fetch net (analyzeRequest id);
            do data <- (if ok res then lift (json res)
                        else throw (Error (lit "Failed to fetch analysis")));
            onData id data)
           (fun err => update (setError (message err))))
        (if mounted then update (setLoading false) else ret tt)
  end.
End Effect.

Inductive view : Type :=
| LoadingAnimation (message : jsstring)
| AnalysisFailed (message : jsstring)
| Analysis (sectionsToDisplay : list jsval).

Definition render (s : state) : view :=
  if loading s then LoadingAnimation (lit "Analyzing product...")
  else if nonempty (default [] (error s))
          || (negb (nonempty (default [] (analysisText s)))
              && (length (analysisSections s) =? 0))
  then AnalysisFailed
         (if nonempty (default [] (error s)) then default [] (error s)
          else lit "Could not retrieve analysis data. Please try again.")
  else Analysis
         (if 0 <? length (analysisSections s) then analysisSections s
          else match analysisText s with
               | Some t => if nonempty t then [JStr t] else []
               | None => []
               end).

End AnalysisPage.

(** ** The ingredients page: Frontend/app/ingredients/[id]/page.tsx *)
Module IngredientsPage.

(** [data] is [null] or what the JSON or the cache gave. *)
Record state : Type := State {
  data : jsval;
  loading : bool;
  error : option jsstring
}.

Definition initial : state := State JNull true None.

Definition setData (d : jsval) (s : state) : state :=
  State d (loading s) (error s).
Definition setLoading (l : bool) (s : state) : state :=
  State (data s) l (error s).
Definition setError (e : jsstring) (s : state) : state :=
  State (data s) (loading s) (Some e).

(** [/^\d+$/] *)
Definition digitsPattern : regex :=
  Seq StartOfInput (Seq (Plus true digit) EndOfInput).

Section Effect.
Context (env : environment).
Context (params_id : param) (cache : cache_object)
        (net : network) (mounted : bool).

Definition productRequest (id : jsstring) : request :=
  Request (getApiUrl env PRODUCT (Some id)) GET.

(** "Fetch image if missing": both [try] blocks swallow what is
    thrown, and so does the [.catch] of the inner chain. *)
Definition fetchImage (id : jsstring) (d : jsval) : handler (S := state) unit :=
  try_catch
    (do image_url <- lift (get d (lit "image_url"));
     if negb (truthy image_url) && nonempty id
        && regexp_test digitsPattern id
     then
       try_catch
         (do r <- await_fetch net (Request (OPEN_FOOD_FACTS_PRODUCT id) GET);
          do off <- lift (json r);
          let product := get_opt off (lit "product") in
          let img := js_or (get_opt product (lit "image_front_url"))
                           (get_opt product (lit "image_small_url")) in
          if truthy img then
            update (fun s =>
              setData (JObj (set_field (lit "image_url") img
                               (spread (js_or (data s) d)))) s)
          else ret tt)
         (fun _ => ret tt)
     else ret tt)
    (fun _ => ret tt).

(** The second [.then]. *)
Definition onData (id : jsstring) (d : jsval) : handler (S := state) unit :=
  if negb mounted then ret tt else
  update (setData d) ;;
  outside (setCacheEntry id d) ;;
  outside (store_FD_CACHE id d) ;;
  fetchImage id d.

(** The body of [useEffect]: the context's cache, then the network. *)
Definition effect : handler (S := state) unit :=
  match route_id params_id with
  | None => ret tt
  | Some id =>
      match cached_entry cache id with
      | Some cached =>
          update (setData cached) ;;
          update (setLoading false)
      | None =>
          finally
            (try_catch
               (do res <- await_fetch net (productRequest id);
                do d <- (if ok res then lift (json res)
                         else throw (Error (lit "Failed to fetch ingredients")));
                onData id d)
               (fun err => update (setError (message err))))
            (if mounted then update (setLoading false) else ret tt)
      end
  end.
End Effect.

Inductive view : Type :=
| FetchingIngredients
| ErrorLoadingIngredients (message : jsstring)
| Ingredients (displayName displayBrand ingredientsText : jsval).

Definition render (s : state) : view :=
  if loading s then FetchingIngredients
  else if nonempty (default [] (error s)) || negb (truthy (data s))
  then ErrorLoadingIngredients
         (if nonempty (default [] (error s)) then default [] (error s)
          else lit "No data found")
  else Ingredients
         (js_or (get_opt (data s) (lit "product_name")) (JStr (lit "Product")))
         (get_opt (data s) (lit "brand"))
         (js_or (get_opt (data s) (lit "ingredients_text"))
                (JStr (lit "No ingredients information available"))).

End IngredientsPage.

(** ** encodeURIComponent *)

Definition uri_unreserved (c : code_unit) : bool :=
  (((65 <=? c) && (c <=? 90)) || ((97 <=? c) && (c <=? 122)) || is_digit c
   || bool_decide (c ∈ lit "-_.!~*'()"))%N.

Definition hex_digit (n : N) : code_unit :=
  (if n <? 10 then 48 + n else 55 + n)%N.

Definition percent (byte : N) : jsstring :=
  [37%N; hex_digit (byte / 16); hex_digit (byte mod 16)].

Definition utf8 (cp : N) : list N :=
  (if cp <? 128 then [cp]
   else if cp <? 2048 then [192 + cp / 64; 128 + cp mod 64]
   else if cp <? 65536 then
     [224 + cp / 4096; 128 + (cp / 64) mod 64; 128 + cp mod 64]
   else
     [240 + cp / 262144; 128 + (cp / 4096) mod 64;
      128 + (cp / 64) mod 64; 128 + cp mod 64])%N.

Definition is_high_surrogate (c : code_unit) : bool :=
  ((55296 <=? c) && (c <=? 56319))%N.
Definition is_low_surrogate (c : code_unit) : bool :=
  ((56320 <=? c) && (c <=? 57343))%N.

Definition URIError : exn := Error (lit "URI malformed").

Definition escape (cp : N) (r : exn + jsstring) : exn + jsstring :=
  match r with
  | inl e => inl e
  | inr s => inr (concat (map percent (utf8 cp)) ++ s)
  end.

(** Unreserved characters stay, every other code point is written as
    the escapes of its UTF-8 bytes, and a lone surrogate throws. *)
Fixpoint encodeURIComponent (s : jsstring) : exn + jsstring :=
  match s with
  | [] => inr []
  | c :: s' =>
      if uri_unreserved c then
        match encodeURIComponent s' with
        | inl e => inl e
        | inr t => inr (c :: t)
        end
      else if is_low_surrogate c then inl URIError
      else if is_high_surrogate c then
        match s' with
        | c2 :: s'' =>
            if is_low_surrogate c2 then
              escape ((c - 55296) * 1024 + (c2 - 56320) + 65536)%N
                     (encodeURIComponent s'')
            else inl URIError
        | [] => inl URIError
        end
      else escape c (encodeURIComponent s')
  end.

(** ** The home page: app/page.tsx *)
Module Home.

(** The interface declares four strings; the values of a product built
    from a JSON answer are copied from it unchecked. *)
Record Product : Type := {
  product_name : jsval;
  brand : jsval;
  id : jsval;
  image_url : jsval
}.

(** The object that a [Product] literal creates. *)
Definition Product_object (p : Product) : jsval :=
  JObj [ (lit "product_name", product_name p);
         (lit "brand", brand p);
         (lit "id", id p);
         (lit "image_url", image_url p) ].

Inductive searchType : Type := text | barcode.

(** The state hooks of [Home].  [searchResults] is declared
    [Product[]] and holds what the JSON gave. *)
Record state : Type := State {
  searchQuery : jsstring;
  searchResults : jsval;
  loading : bool;
  hasSearched : bool;
  barcodeOpen : bool;
  lastSearchType : searchType
}.

Definition initial : state := State [] (JArr []) false false false text.

Definition setSearchQuery (q : jsstring) (s : state) : state :=
  State q (searchResults s) (loading s) (hasSearched s) (barcodeOpen s)
        (lastSearchType s).
Definition setSearchResults (r : jsval) (s : state) : state :=
  State (searchQuery s) r (loading s) (hasSearched s) (barcodeOpen s)
        (lastSearchType s).
Definition setLoading (l : bool) (s : state) : state :=
  State (searchQuery s) (searchResults s) l (hasSearched s) (barcodeOpen s)
        (lastSearchType s).
Definition setHasSearched (h : bool) (s : state) : state :=
  State (searchQuery s) (searchResults s) (loading s) h (barcodeOpen s)
        (lastSearchType s).
Definition setLastSearchType (t : searchType) (s : state) : state :=
  State (searchQuery s) (searchResults s) (loading s) (hasSearched s)
        (barcodeOpen s) t.

Section Handlers.
Context (env : environment) (net : network).

Definition searchRequest (q : jsstring) : request :=
  Request (getApiUrl env SEARCH None ++ lit "?q=" ++ q) GET.

Definition handleSearch (query : jsstring) : handler (S := state) unit :=
  if negb (nonempty (trim query)) then ret tt else
  update (setLoading true) ;;
  update (setHasSearched true) ;;
  update (setLastSearchType text) ;;
  finally
    (try_catch
       (do q <- lift (encodeURIComponent query);
        do res <- await_fetch net (searchRequest q);
        if ok res then
          do data <- lift (json res);
          do products <- lift (get data (lit "products"));
          update (setSearchResults (js_or products (JArr []))) ;;
          outside (setCacheEntry (lit "lastSearchResults")
                                 (js_or products (JArr [])))
        else
          outside (console_error (lit "Search failed with status:")) ;;
          update (setSearchResults (JArr [])))
       (fun error =>
          outside (console_error (lit "Error searching:")) ;;
          update (setSearchResults (JArr []))))
    (update (setLoading false)).

Definition barcodeRequest (code : jsstring) : request :=
  Request (getApiUrl env BARCODE None ++ lit "/" ++ code) GET.

(** [Promise.race([fetch(url), timeoutPromise])]: the request is
    sent; [timer_first] tells that the 13 seconds pass before the
    answer. *)
Definition race_fetch (timer_first : bool) (req : request)
    : handler (S := state) response :=
  outside (fetch req) ;;
  if timer_first then throw (Error (lit "Request timeout"))
  else match net req with
       | Rejected e => throw e
       | Fulfilled res => ret res
       end.

Definition handleBarcodeSearch (code : jsstring) (timer_first : bool)
    : handler (S := state) unit :=
  update (setLoading true) ;;
  update (setHasSearched true) ;;
  update (setSearchResults (JArr [])) ;;
  update (setLastSearchType barcode) ;;
  update (setSearchQuery code) ;;
  finally
    (try_catch
       (do res <- race_fetch timer_first (barcodeRequest code);
        if ok res then
          do data <- lift (json res);
          do name <- lift (get data (lit "product_name"));
          do ident <- lift (get data (lit "id"));
          if truthy name && truthy ident then
            do brand0 <- lift (get data (lit "brand"));
            do image0 <- lift (get data (lit "image_url"));
            let product :=
              {| product_name := name;
                 brand := js_or brand0 (JStr (lit "Unknown Brand"));
                 id := ident;
                 image_url := js_or image0 (JStr []) |} in
            update (setSearchResults (JArr [Product_object product]))
          else
            outside (console_error (lit "Invalid barcode response format:")) ;;
            update (setSearchResults (JArr []))
        else
          outside (console_error (lit "Barcode search failed with status:")) ;;
          update (setSearchResults (JArr [])))
       (fun error =>
          outside (console_error (lit "Error searching barcode:")) ;;
          update (setSearchResults (JArr []))))
    (update (setLoading false)).
End Handlers.

End Home.

(** ** Statements of the properties

    Definitions that the properties below are stated with. *)

(** A body has an own property [key]. *)
Definition has_property (v : jsval) (key : jsstring) : Prop :=
  match v with
  | JObj fs => key ∈ map fst fs
  | _ => False
  end.

(** The product of a barcode answer, in the words of the amended claim:
    the response is ok, its body parses, and [product_name] and [id]
    are both true as conditions; the brand and the image URL take
    their defaults when they are not. *)
Definition barcode_product (r : settled) : option Home.Product :=
  match r with
  | Fulfilled res =>
      if ok res then
        match json res with
        | inr (JObj fs) =>
            if truthy (field (lit "product_name") fs)
               && truthy (field (lit "id") fs)
            then Some {| Home.product_name := field (lit "product_name") fs;
                         Home.brand :=
                           if truthy (field (lit "brand") fs)
                           then field (lit "brand") fs
                           else JStr (lit "Unknown Brand");
                         Home.id := field (lit "id") fs;
                         Home.image_url :=
                           if truthy (field (lit "image_url") fs)
                           then field (lit "image_url") fs
                           else JStr [] |}
            else None
        | _ => None
        end
      else None
  | Rejected _ => None
  end.

(** A network failure: the promise of [fetch] is rejected, or the
    response is not ok. *)
Definition network_failure (r : settled) : bool :=
  match r with
  | Rejected _ => true
  | Fulfilled res => negb (ok res)
  end.

(** The message that a page keeps of a failure. *)
Definition failure_message (not_ok : jsstring) (r : settled) : jsstring :=
  match r with
  | Rejected e => message e
  | Fulfilled _ => not_ok
  end.

(** ** Sample data for the examples *)

(** The production environment: the browser, same origin. *)
Definition same_origin : environment :=
  {| in_browser := true; NEXT_PUBLIC_API_URL := None |}.

(** A browser tab in which nothing happened yet. *)
Definition fresh_tab : browser := Browser None [] [] [].

(** A server that answers 404 to everything. *)
Definition not_found : network :=
  fun _ => Fulfilled (Response 404 (inr JNull)).

(** A network that is down. *)
Definition offline : network :=
  fun _ => Rejected (Error (lit "Failed to fetch")).

(** A product as the backend describes it. *)
Definition maggi : jsval :=
  JObj [ (lit "product_name", JStr (lit "Maggi Noodles"));
         (lit "brand", JStr (lit "Nestle"));
         (lit "image_url", JStr (lit "https://images.openfoodfacts.org/m.jpg"));
         (lit "ingredients_text", JStr (lit "Wheat flour, palm oil, salt")) ].

(** The text of group 1 of a match, the empty string when the group is
    [undefined]. *)
Definition captured (m : match_result) : jsstring := default [] (group 1 m).

(** A result of [parseAnalysisText] has a section with this title. *)
Definition has_section (sections : list AnalysisDisplay.Section)
    (t : jsstring) : Prop :=
  exists s, s ∈ sections /\ AnalysisDisplay.title s = t.

(** ** What a pattern matches

    The matcher above is the program; the relation below says, without
    any order of preference, between which states a pattern can match. *)

(** Iterations of a quantified atom; each one consumes input. *)
Inductive iter (R : mstate -> mstate -> Prop) : mstate -> mstate -> Prop :=
| iter_stop x : iter R x x
| iter_step x y z :
    R x y -> length (rest y) < length (rest x) -> iter R y z -> iter R x z.

Fixpoint matches (input : jsstring) (r : regex) (x y : mstate) : Prop :=
  match r with
  | Empty => y = x
  | Class p =>
      exists c, rest x = c :: rest y /\ p c = true /\ captures y = captures x
  | Seq r1 r2 => exists m, matches input r1 x m /\ matches input r2 m y
  | Alt r1 r2 => matches input r1 x y \/ matches input r2 x y
  | Star _ r' => iter (matches input r') x y
  | Plus _ r' => exists m, matches input r' x m /\ iter (matches input r') m y
  | Opt _ r' =>
      y = x \/ (matches input r' x y /\ length (rest y) < length (rest x))
  | Group i r' =>
      exists m, matches input r' x m
        /\ y = MState (rest m)
                 ((i, take (length (rest x) - length (rest m)) (rest x))
                    :: captures m)
  | Lookahead r' =>
      exists m, matcher input r' Some x = Some m
        /\ y = MState (rest x) (captures m)
  | StartOfInput => y = x /\ length (rest x) = length input
  | EndOfInput => y = x /\ rest x = []
  end.

(** The language of a pattern without assertions: the strings it can
    consume.  Groups capture and do not change what is consumed. *)
Fixpoint lang (r : regex) (w : jsstring) : Prop :=
  match r with
  | Empty => w = []
  | Class p => exists c, w = [c] /\ p c = true
  | Seq r1 r2 => exists u v, w = u ++ v /\ lang r1 u /\ lang r2 v
  | Alt r1 r2 => lang r1 w \/ lang r2 w
  | Star _ r' => exists ws, w = concat ws /\ Forall (lang r') ws
  | Plus _ r' => exists u ws, w = u ++ concat ws /\ lang r' u /\ Forall (lang r') ws
  | Opt _ r' => w = [] \/ lang r' w
  | Group _ r' => lang r' w
  | Lookahead _ | StartOfInput | EndOfInput => False
  end.

(** A pattern without lookahead, [^] and [$]. *)
Fixpoint plain (r : regex) : bool :=
  match r with
  | Empty | Class _ => true
  | Seq r1 r2 | Alt r1 r2 => plain r1 && plain r2
  | Star _ r' | Plus _ r' | Opt _ r' | Group _ r' => plain r'
  | Lookahead _ | StartOfInput | EndOfInput => false
  end.

(** A pattern without capture group (outside lookaheads, whose captures
    are kept as well). *)
Fixpoint no_group (r : regex) : bool :=
  match r with
  | Empty | Class _ | StartOfInput | EndOfInput => true
  | Seq r1 r2 | Alt r1 r2 => no_group r1 && no_group r2
  | Star _ r' | Plus _ r' | Opt _ r' => no_group r'
  | Group _ _ | Lookahead _ => false
  end.

(** [text] has [w] as a substring. *)
Definition substring (w text : jsstring) : Prop :=
  exists pre post, text = pre ++ w ++ post.

(** [w] is [h] up to the case of its ASCII letters: what a literal
    matches under the [i] flag. *)
Definition same_letters (w h : jsstring) : Prop :=
  Forall2 (fun c a => (c <? 128)%N && (ascii_upper c =? ascii_upper a)%N = true)
          w h.

Definition all_white (s : jsstring) : Prop :=
  Forall (fun c => is_white_space c = true) s.

Definition all_digits (s : jsstring) : Prop :=
  Forall (fun c => is_digit c = true) s.

(** The text of a number with integer digits [ds] and fraction digits
    [fs]; no fraction part when [fs] is empty. *)
Definition decimal_text (ds fs : jsstring) : jsstring :=
  ds ++ match fs with [] => [] | _ :: _ => 46%N :: fs end.

(** A rating in a text: "Rating" in any letter case, one or more colons
    or white-space characters, a number, and "/10" with optional white
    space around the slash. *)
Definition rating_phrase (ds fs w : jsstring) : Prop :=
  exists rating sep ws1 ws2,
    w = rating ++ sep ++ decimal_text ds fs ++ ws1 ++ [47%N] ++ ws2 ++ lit "10"
    /\ same_letters rating (lit "Rating")
    /\ sep <> []
    /\ Forall (fun c => c = 58%N \/ is_white_space c = true) sep
    /\ ds <> [] /\ all_digits ds /\ all_digits fs
    /\ all_white ws1 /\ all_white ws2.

(** What follows a header once its optional colon is taken. *)
Definition after_colon (tail : jsstring) : jsstring :=
  match tail with
  | 58%N :: t => t
  | _ => tail
  end.

(** [text] is [pre ++ w ++ tail], where [w] is the first place, from
    the left, at which the text reads [h] up to the case of letters. *)
Definition first_occurrence (h text pre w tail : jsstring) : Prop :=
  text = pre ++ w ++ tail
  /\ same_letters w h
  /\ forall pre' w' tail',
       text = pre' ++ w' ++ tail' -> same_letters w' h ->
       length pre <= length pre'.

(** The end of a section pattern: group 1 and the lookahead. *)
Definition sectionTail : regex :=
  Seq (Group 1 (Star false any)) AnalysisDisplay.lookahead.

(** ** Frontend/components/AnalysisDisplay.tsx: the component *)
Module AnalysisDisplayView.
Import AnalysisDisplay.

(** [content.replace(/\\n/g, '\n')]: every backslash followed by the
    letter n becomes a line feed, from left to right. *)
Fixpoint unescape_newlines (s : jsstring) : jsstring :=
  match s with
  | 92%N :: 110%N :: t => LF :: unescape_newlines t
  | c :: t => c :: unescape_newlines t
  | [] => []
  end.

(** [s.split('\n')] *)
Fixpoint split_lines (s : jsstring) : list jsstring :=
  match s with
  | [] => [[]]
  | c :: t =>
      if (c =? LF)%N then [] :: split_lines t
      else match split_lines t with
           | l :: ls => (c :: l) :: ls
           | [] => [[c]]
           end
  end.

Definition formatContent (content : jsstring) : list jsstring :=
  filter (fun line => 0 < length line)
         (map trim (split_lines (unescape_newlines content))).

(** [sectionConfig]: title, icon and color by position in the array of
    sections. *)
Definition sectionConfig : list (jsstring * icon * jsstring) :=
  [ (lit "Overall Verdict", Award, lit "purple");
    (lit "Summary", Award, lit "purple");
    (lit "Key Risks", AlertTriangle, lit "red");
    (lit "Positive Highlights", CheckCircle, lit "green");
    (lit "Recommendation", Lightbulb, lit "yellow");
    (lit "Marketing Traps", Target, lit "orange") ].

(** The callback of [analysisSections.map]: [None] is [null]. *)
Definition sectionFromEntry (index : nat) (content : jsstring)
    : option Section :=
  if negb (nonempty content) || (length (trim content) =? 0) then None
  else
    let config := sectionConfig !! index in
    Some {| title :=
              match config with
              | Some (t, _, _) =>
                  if nonempty t then t
                  else lit "Section " ++ index_key (index + 1)
              | None => lit "Section " ++ index_key (index + 1)
              end;
            content := content;
            icon_of := match config with
                       | Some (_, i, _) => Some i
                       | None => None
                       end;
            color := match config with
                     | Some (_, _, c) => Some c
                     | None => None
                     end |}.

Definition sectionsFromArray (analysisSections : list jsstring)
    : list Section :=
  omap (fun s => s) (imap sectionFromEntry analysisSections).

(** [analysisSections.join('\n')] *)
Fixpoint join_lines (ls : list jsstring) : jsstring :=
  match ls with
  | [] => []
  | [l] => l
  | l :: ls' => l ++ LF :: join_lines ls'
  end.

(** The sections that the component shows. *)
Definition sections (analysisText : jsstring)
    (analysisSections : list jsstring) : list Section :=
  if 0 <? length (sectionsFromArray analysisSections)
  then sectionsFromArray analysisSections
  else parseAnalysisText analysisText.

Definition healthRating (analysisText : jsstring)
    (analysisSections : list jsstring) : option HealthRating :=
  extractHealthRating
    (if nonempty analysisText then analysisText
     else join_lines analysisSections).

(** [expandedSections] maps titles to booleans; a title that is not a
    key reads [undefined]. *)
Definition initialExpanded (secs : list Section) : gmap (list N) bool :=
  fold_left (fun acc s => <[title s := true]> acc) secs ∅.

Definition toggleSection (t : jsstring) (prev : gmap (list N) bool)
    : gmap (list N) bool :=
  <[t := negb (default false (prev !! t))]> prev.

(** Whether the button of a section reads "Click to collapse". *)
Definition expanded (m : gmap (list N) bool) (t : jsstring) : bool :=
  default false (m !! t).

(** What the component returns: the raw text when there is no section,
    otherwise the rating, if any, and the sections with the lines of
    their contents. *)
Inductive view : Type :=
| RawText (analysisText : jsstring)
| Sections (rating : option HealthRating)
           (cards : list (Section * list jsstring)).

Definition render (analysisText : jsstring)
    (analysisSections : list jsstring) : view :=
  let secs := sections analysisText analysisSections in
  if length secs =? 0 then RawText analysisText
  else Sections (healthRating analysisText analysisSections)
                (map (fun s => (s, formatContent (content s))) secs).

End AnalysisDisplayView.

(** The section that the component makes of entry number [i] of the
    array, when the entry is not blank: the title goes with the
    position. *)
Definition section_at (i : nat) (x : jsstring) : AnalysisDisplay.Section :=
  match i with
  | 0 => AnalysisDisplay.Build_Section (lit "Overall Verdict") x
           (Some AnalysisDisplay.Award) (Some (lit "purple"))
  | 1 => AnalysisDisplay.Build_Section (lit "Summary") x
           (Some AnalysisDisplay.Award) (Some (lit "purple"))
  | 2 => AnalysisDisplay.Build_Section (lit "Key Risks") x
           (Some AnalysisDisplay.AlertTriangle) (Some (lit "red"))
  | 3 => AnalysisDisplay.Build_Section (lit "Positive Highlights") x
           (Some AnalysisDisplay.CheckCircle) (Some (lit "green"))
  | 4 => AnalysisDisplay.Build_Section (lit "Recommendation") x
           (Some AnalysisDisplay.Lightbulb) (Some (lit "yellow"))
  | 5 => AnalysisDisplay.Build_Section (lit "Marketing Traps") x
           (Some AnalysisDisplay.Target) (Some (lit "orange"))
  | _ => AnalysisDisplay.Build_Section
           (lit "Section " ++ index_key (i + 1)) x None None
  end.

(** The ingredients page asks Open Food Facts for an image: the product
    has no image URL that is true as a condition, and the id is made of
    digits. *)
Definition needs_image (d : jsval) (id : jsstring) : bool :=
  match get d (lit "image_url") with
  | inr v => negb (truthy v) && nonempty id && forallb is_digit id
  | inl _ => false
  end.

(** A server that answers every request with the product [maggi]. *)
Definition maggi_server : network :=
  fun _ => Fulfilled (Response 200 (inr maggi)).

(** A server that answers every request with an analysis in two
    sections. *)
Definition analysis_server : network :=
  fun _ => Fulfilled (Response 200
             (inr (AnalysisPage.AnalysisResponse_value
                     {| AnalysisPage.product_name := lit "Maggi Noodles";
                        AnalysisPage.analysis_sections :=
                          [lit "Rating: 3/10"; lit "Salty."] |}))).

(** What a search answer gives to show, [data.products || []]: the
    response is ok, its body parses and is not [null]. *)
Definition search_products (a : settled) : option jsval :=
  match a with
  | Rejected _ => None
  | Fulfilled res =>
      if ok res then
        match json res with
        | inl _ => None
        | inr data =>
            match get data (lit "products") with
            | inl _ => None
            | inr products => Some (js_or products (JArr []))
            end
        end
      else None
  end.

(** A code unit that a URI component may hold: an unreserved character
    or the ["%"] of an escape. *)
Definition url_safe (c : code_unit) : bool :=
  uri_unreserved c || (c =? 37)%N.

(** The code units of a string value are below 2^16. *)
Definition well_formed (s : jsstring) : Prop :=
  Forall (fun c => (c < 65536)%N) s.

(** A server that finds the product [maggi] for every search. *)
Definition search_server : network :=
  fun _ => Fulfilled (Response 200 (inr (JObj [(lit "products", JArr [maggi])]))).

(** ** The loading animation: components/LoadingAnimation.tsx *)
Module LoadingAnimation.

(** [healthFacts.length] *)
Definition healthFacts_length : nat := 15.

(** [analysisStages]: the label and the progress of each stage. *)
Definition analysisStages : list (jsstring * Q) :=
  [ (lit "Scanning ingredients", 15);
    (lit "Analyzing nutritional content", 30);
    (lit "Checking for allergens", 50);
    (lit "Evaluating additives", 70);
    (lit "Calculating health score", 85);
    (lit "Generating recommendations", 100) ]%Q.

(** The counters of the component.  [progress] is a multiple of
    100/320 = 0.3125, a binary fraction, so the additions of the
    timer are exact as long as it runs. *)
Record state : Type := State {
  currentFact : nat;
  progress : Q;
  currentStage : nat
}.

Definition initial : state := State 0 0 0.

(** The three intervals of the effect; [factInterval] stands for its
    delayed update of the fact. *)
Inductive timer : Type := factInterval | progressInterval | stageInterval.

Definition tick (t : timer) (s : state) : state :=
  match t with
  | factInterval =>
      State ((currentFact s + 1) mod healthFacts_length) (progress s)
            (currentStage s)
  | progressInterval =>
      State (currentFact s)
            (if Qle_bool 100 (progress s) then 100
             else progress s + 100 / 320)%Q
            (currentStage s)
  | stageInterval =>
      State (currentFact s) (progress s)
            (if length analysisStages - 1 <=? currentStage s
             then currentStage s else currentStage s + 1)
  end.

(** The state after the timers fired in this order. *)
Definition after (ts : list timer) : state :=
  fold_left (fun s t => tick t s) ts initial.

(** How many times this timer fired. *)
Definition is_timer (t t' : timer) : bool :=
  match t, t' with
  | factInterval, factInterval
  | progressInterval, progressInterval
  | stageInterval, stageInterval => true
  | _, _ => false
  end.

Fixpoint fired (t : timer) (ts : list timer) : nat :=
  match ts with
  | [] => 0
  | t' :: ts' => fired t ts' + (if is_timer t t' then 1 else 0)
  end.

End LoadingAnimation.

(** An entry that the analysis page can show.  [String(cached)] is
    reached for a value that is neither an array nor a string and has
    no array [analysis_sections]; it throws on an object that has a
    property [toString] of its own. *)
Definition usable (v : jsval) : Prop :=
  match v with
  | JObj fs =>
      isArray (field (lit "analysis_sections") fs) = true
      \/ ~ has_property v (lit "toString")
  | _ => True
  end.

(** A product without an image, as the backend may describe it. *)
Definition unpictured : jsval :=
  JObj [ (lit "product_name", JStr (lit "Maggi Noodles"));
         (lit "brand", JStr (lit "Nestle"));
         (lit "ingredients_text", JStr (lit "Wheat flour, palm oil, salt")) ].

(** The backend answers every request with [unpictured]; Open Food
    Facts cannot be reached for the product 42. *)
Definition image_down : network :=
  fun req =>
    if bool_decide (url req = OPEN_FOOD_FACTS_PRODUCT (lit "42"))
    then Rejected (Error (lit "Failed to fetch"))
    else Fulfilled (Response 200 (inr unpictured)).




(* ===================================================================== *)
(** * Part II: properties *)
(* ===================================================================== *)

#[local] Arguments lit : simpl never.

(** ** Strings *)

Lemma trimStart_spaces (s : jsstring) :
  forallb is_white_space s = true -> trimStart s = [].
Proof.
  induction s as [|c s IH]; simpl; [done|].
  intros [Hc Hs]%andb_prop. rewrite Hc. auto.
Qed.

Lemma trimStart_nil_spaces (s : jsstring) :
  trimStart s = [] -> forallb is_white_space s = true.
Proof.
  induction s as [|c s IH]; simpl; [done|].
  destruct (is_white_space c); [auto | discriminate].
Qed.

(** The trimmed form of a string is empty exactly when the string is
    made of white space. *)
Lemma trim_nil_iff (s : jsstring) :
  trim s = [] <-> forallb is_white_space s = true.
Proof.
  unfold trim, trimEnd. split.
  - intros H. apply trimStart_nil_spaces.
    apply (f_equal (@rev N)) in H. rewrite rev_involutive in H. simpl in H.
    apply trimStart_nil_spaces in H.
    destruct (trimStart s) as [|c t] eqn:E; [done|].
    exfalso. rewrite forallb_forall in H.
    assert (Hc : is_white_space c = true).
    { apply H. apply in_rev. rewrite rev_involutive. left; reflexivity. }
    clear H. induction s as [|a s IH]; simpl in E; [done|].
    destruct (is_white_space a) eqn:Ea; [auto|]. congruence.
  - intros H. rewrite (trimStart_spaces s H). reflexivity.
Qed.

(** ** lib/config *)

Lemma nonempty_cons (c : code_unit) (s : jsstring) : nonempty (c :: s) = true.
Proof. reflexivity. Qed.

(** The URL of a call without path, or with an empty one. *)
Lemma getApiUrl_no_path (env : environment) (e : endpoint) :
  getApiUrl env e None = getBaseUrl env ++ ENDPOINTS e
  /\ getApiUrl env e (Some []) = getBaseUrl env ++ ENDPOINTS e.
Proof. split; reflexivity. Qed.

Lemma getApiUrl_path (env : environment) (e : endpoint) (c : code_unit)
    (p : jsstring) :
  getApiUrl env e (Some (c :: p))
  = getBaseUrl env ++ ENDPOINTS e ++ lit "/" ++ c :: p.
Proof. reflexivity. Qed.

(** C6 as stated fails: with the empty string as path, [getApiUrl]
    leaves out the slash, so that the URL of ['PRODUCT'] does not end in
    [/api/v1/product/] followed by the path. *)
Lemma getApiUrl_empty_path_counterexample :
  getApiUrl same_origin PRODUCT (Some [])
    <> getBaseUrl same_origin ++ ENDPOINTS PRODUCT ++ lit "/" ++ []
  /\ ~ (lit "/api/v1/product/" ++ [])
        `suffix_of` getApiUrl same_origin PRODUCT (Some [])
  /\ getApiUrl same_origin PRODUCT (Some []) = lit "/api/v1/product".
Proof.
  split; [|split]; [vm_compute; discriminate | | reflexivity].
  intros [k Hk]. vm_compute in Hk.
  apply (f_equal (@length N)) in Hk. rewrite length_app in Hk.
  simpl in Hk. lia.
Qed.

(** C6, amended: for every endpoint key and path argument, [getApiUrl]
    is [BASE_URL] followed by the endpoint template and, when a path
    that is not the empty string is given, a slash and the path; the
    five templates are the routes of the specification, and the
    analysis page asks for its route with POST. *)
Theorem getApiUrl_routes (env : environment) (e : endpoint)
    (path : option jsstring) (c : code_unit) (id : jsstring) :
  getApiUrl env e path
    = getBaseUrl env ++ ENDPOINTS e
        ++ match path with
           | Some (a :: p) => lit "/" ++ a :: p
           | Some [] | None => []
           end
  /\ lit "/api/v1/search" `suffix_of` getApiUrl env SEARCH None
  /\ lit "/api/v1/ocr" `suffix_of` getApiUrl env OCR None
  /\ lit "/api/v1/barcode" `suffix_of` getApiUrl env BARCODE None
  /\ (lit "/api/v1/product/" ++ c :: id)
       `suffix_of` getApiUrl env PRODUCT (Some (c :: id))
  /\ (lit "/api/v1/analyze/product/" ++ c :: id)
       `suffix_of` getApiUrl env ANALYZE (Some (c :: id))
  /\ AnalysisPage.analyzeRequest env (c :: id)
     = Request (getBaseUrl env ++ lit "/api/v1/analyze/product/" ++ c :: id) POST
  /\ IngredientsPage.productRequest env (c :: id)
     = Request (getBaseUrl env ++ lit "/api/v1/product/" ++ c :: id) GET.
Proof.
  repeat split.
  - destruct path as [[|a p]|]; unfold getApiUrl; simpl nonempty; cbv iota;
      rewrite ?app_nil_r; reflexivity.
  - exists (getBaseUrl env). reflexivity.
  - exists (getBaseUrl env). reflexivity.
  - exists (getBaseUrl env). reflexivity.
  - exists (getBaseUrl env). rewrite getApiUrl_path.
    change (ENDPOINTS PRODUCT ++ lit "/" ++ c :: id)
      with (lit "/api/v1/product/" ++ c :: id). reflexivity.
  - exists (getBaseUrl env). rewrite getApiUrl_path.
    change (ENDPOINTS ANALYZE ++ lit "/" ++ c :: id)
      with (lit "/api/v1/analyze/product/" ++ c :: id). reflexivity.
Qed.

(** ** The home page *)

(** C8: a query whose trimmed form is empty makes [handleSearch] return
    at once: the state of the component and the browser (requests sent,
    caches, console) are what they were. *)
Theorem handleSearch_blank (env : environment) (net : network)
    (query : jsstring) (s : Home.state) (b : browser) :
  trim query = [] ->
  Home.handleSearch env net query (s, b) = (inr tt, (s, b)).
Proof.
  intros H. unfold Home.handleSearch. rewrite H. reflexivity.
Qed.

Lemma handleSearch_blank_witness :
  trim (lit "  ") = []
  /\ Home.handleSearch same_origin offline (lit "  ") (Home.initial, fresh_tab)
     = (inr tt, (Home.initial, fresh_tab)).
Proof.
  split; [reflexivity|].
  apply (handleSearch_blank _ _ (lit "  ")). reflexivity.
Defined.

(** A query with a character that is not white space is searched: the
    handler does not return early. *)
Lemma handleSearch_not_blank (env : environment) (net : network)
    (query : jsstring) (s : Home.state) (b : browser) :
  trim query <> [] ->
  Home.hasSearched (fst (run (Home.handleSearch env net query) s b)) = true
  /\ Home.lastSearchType (fst (run (Home.handleSearch env net query) s b))
     = Home.text.
Proof.
  intros H. unfold Home.handleSearch, run.
  destruct (trim query) as [|c t] eqn:E; [done|]. simpl nonempty. cbv iota.
  unfold finally, try_catch, bind, update, outside, lift, await_fetch, ret,
    throw; simpl.
  destruct (encodeURIComponent query) as [e|q]; simpl; [done|].
  destruct (net _) as [e|res]; simpl; [done|].
  destruct (ok res); simpl; [|done].
  destruct (json res) as [e|data]; simpl; [done|].
  destruct (get data _) as [e|ps]; simpl; done.
Qed.

(** C9 as stated fails: an ok answer whose body has a [product_name]
    and an [id], the name being the empty string, gives no product. *)
Lemma handleBarcodeSearch_empty_name_counterexample :
  let body := JObj [ (lit "product_name", JStr []);
                     (lit "id", JStr (lit "8901058851441")) ] in
  let net : network := fun _ => Fulfilled (Response 200 (inr body)) in
  ok (Response 200 (inr body)) = true
  /\ has_property body (lit "product_name")
  /\ has_property body (lit "id")
  /\ Home.searchResults
       (fst (run (Home.handleBarcodeSearch same_origin net
                    (lit "8901058851441") false)
                 Home.initial fresh_tab))
     = JArr [].
Proof.
  repeat split; try reflexivity; vm_compute; set_solver.
Qed.

(** C9, amended: after [handleBarcodeSearch] the result list has at
    most one element.  It holds exactly one product when the timer does
    not fire first, the response is ok, its body parses to an object and
    the [product_name] and the [id] of the body are both true as
    conditions (not empty, not null, not zero); the brand is then
    'Unknown Brand' and the image URL the empty string when the body's
    are not true as conditions.  In every other case the list is empty. *)
Theorem handleBarcodeSearch_results (env : environment) (net : network)
    (code : jsstring) (timer_first : bool) (s : Home.state) (b : browser) :
  let s' := fst (run (Home.handleBarcodeSearch env net code timer_first) s b) in
  let found := if timer_first then None
               else barcode_product (net (Home.barcodeRequest env code)) in
  Home.searchResults s'
    = JArr (match found with
            | Some p => [Home.Product_object p]
            | None => []
            end)
  /\ (exists l, Home.searchResults s' = JArr l /\ length l <= 1)
  /\ Home.loading s' = false.
Proof.
  cbv zeta. unfold Home.handleBarcodeSearch, Home.race_fetch, run.
  unfold finally, try_catch, bind, update, outside, lift, ret, throw.
  assert (Hfin : forall l : list jsval, length l <= 1 ->
            exists l', JArr l = JArr l' /\ length l' <= 1) by eauto.
  destruct timer_first; simpl; [by auto|].
  destruct (net (Home.barcodeRequest env code)) as [e|res];
    simpl; [by auto|].
  destruct (ok res); simpl; [|by auto].
  destruct (json res) as [e|data]; simpl; [by auto|].
  destruct data as [| |bb|n|t|xs|fs]; simpl; try by auto.
  destruct (truthy (field (lit "product_name") fs)
            && truthy (field (lit "id") fs));
    simpl; by auto.
Qed.

(** ** The ingredients page *)

(** C3: when the request for [/api/v1/product/{id}] is answered with a
    response that is not ok, the ingredients page keeps the error
    "Failed to fetch ingredients" and, the component being mounted,
    renders the panel "Error Loading Ingredients" with it, whatever its
    state was; it never shows the ingredients. *)
Theorem ingredients_not_ok_error_panel (env : environment) (params_id : param)
    (id : jsstring) (cache : cache_object) (net : network) (res : response)
    (s : IngredientsPage.state) (b : browser) :
  route_id params_id = Some id ->
  cached_entry cache id = None ->
  net (IngredientsPage.productRequest env id) = Fulfilled res ->
  ok res = false ->
  let s' := fst (run (IngredientsPage.effect env params_id cache net true) s b) in
  IngredientsPage.error s' = Some (lit "Failed to fetch ingredients")
  /\ IngredientsPage.render s'
     = IngredientsPage.ErrorLoadingIngredients (lit "Failed to fetch ingredients").
Proof.
  intros Hid Hc Hnet Hok. cbv zeta.
  unfold IngredientsPage.effect, run. rewrite Hid, Hc.
  unfold finally, try_catch, bind, update, outside, lift, await_fetch, ret,
    throw.
  simpl. rewrite Hnet. simpl. rewrite Hok. simpl. split; reflexivity.
Qed.

Lemma ingredients_not_ok_error_panel_witness :
  let s' := fst (run (IngredientsPage.effect same_origin (ParamString (lit "42"))
                        None not_found true)
                   IngredientsPage.initial fresh_tab) in
  (route_id (ParamString (lit "42")) = Some (lit "42")
   /\ cached_entry None (lit "42") = None
   /\ not_found (IngredientsPage.productRequest same_origin (lit "42"))
      = Fulfilled (Response 404 (inr JNull))
   /\ ok (Response 404 (inr JNull)) = false)
  /\ IngredientsPage.error s' = Some (lit "Failed to fetch ingredients")
  /\ IngredientsPage.render s'
     = IngredientsPage.ErrorLoadingIngredients (lit "Failed to fetch ingredients").
Proof.
  split; [repeat split|].
  apply (ingredients_not_ok_error_panel same_origin (ParamString (lit "42"))
           (lit "42") None not_found (Response 404 (inr JNull)));
    reflexivity.
Defined.

(** Unmounted or not, a response that is not ok never leads to the
    ingredients view. *)
Lemma ingredients_not_ok_never_shown (env : environment) (params_id : param)
    (id : jsstring) (cache : cache_object) (net : network) (res : response)
    (mounted : bool) (s : IngredientsPage.state) (b : browser) :
  route_id params_id = Some id ->
  cached_entry cache id = None ->
  net (IngredientsPage.productRequest env id) = Fulfilled res ->
  ok res = false ->
  forall n br t,
    IngredientsPage.render
      (fst (run (IngredientsPage.effect env params_id cache net mounted) s b))
    <> IngredientsPage.Ingredients n br t.
Proof.
  intros Hid Hc Hnet Hok n br t.
  unfold IngredientsPage.effect, run. rewrite Hid, Hc.
  unfold finally, try_catch, bind, update, outside, lift, await_fetch, ret,
    throw.
  simpl. rewrite Hnet. simpl. rewrite Hok.
  destruct mounted; simpl; unfold IngredientsPage.render; simpl;
    destruct (IngredientsPage.loading s); discriminate.
Qed.

(** ** The caches *)

Lemma cached_entry_truthy (c : cache_object) (id : jsstring) (v : jsval) :
  cached_entry c id = Some v <->
  exists m, c = Some m /\ m !! id = Some v /\ truthy v = true.
Proof.
  unfold cached_entry. split.
  - destruct c as [m|]; [|done]. destruct (m !! id) as [w|] eqn:E; [|done].
    destruct (truthy w) eqn:T; [|done]. intros [= <-]. eauto.
  - intros (m & -> & -> & ->). reflexivity.
Qed.

Lemma tryCache_miss (c : cache_object) (id : jsstring)
    (s : AnalysisPage.state) (b : browser) :
  cached_entry c id = None ->
  AnalysisPage.tryCache c id (s, b) = (inr false, (s, b)).
Proof. intros H. unfold AnalysisPage.tryCache, try_catch. by rewrite H. Qed.

Lemma tryUseCache_miss (id : jsstring) (cache : cache_object)
    (s : AnalysisPage.state) (b : browser) :
  cached_entry (FD_CACHE b) id = None ->
  cached_entry cache id = None ->
  AnalysisPage.tryUseCache id cache (s, b) = (inr false, (s, b)).
Proof.
  intros Hw Hc. unfold AnalysisPage.tryUseCache, bind, read_browser.
  cbn [snd]. rewrite (tryCache_miss _ id s b Hw).
  by rewrite (tryCache_miss _ id s b Hc).
Qed.

(** An entry that can be shown is shown: the block returns true and
    touches nothing outside the component. *)
Lemma useCached_run (v : jsval) (s : AnalysisPage.state) (b : browser) :
  usable v ->
  exists s', AnalysisPage.useCached v (s, b) = (inr true, (s', b)).
Proof.
  unfold AnalysisPage.useCached, bind, update, ret, lift.
  destruct v as [| |bb|n|t|xs|fs]; simpl; eauto.
  - destruct bb; simpl; eauto.
  - unfold get_opt, get.
    destruct (field (lit "analysis_sections") fs) eqn:E; simpl; eauto;
      (intros [H|H]; [discriminate H|]);
      (rewrite bool_decide_false by exact H); simpl; eauto.
Qed.

(** An entry that cannot be shown: the conversion throws before any
    setter is called. *)
Lemma useCached_throws (v : jsval) (s : AnalysisPage.state) (b : browser) :
  ~ usable v ->
  AnalysisPage.useCached v (s, b) = (inl TypeError_primitive, (s, b)).
Proof.
  unfold AnalysisPage.useCached, bind, update, ret, lift.
  destruct v as [| |bb|n|t|xs|fs]; simpl; try (intros H; by destruct H).
  intros H. unfold get_opt, get.
  assert (Ht : lit "toString" ∈ map fst fs).
  { destruct (decide (lit "toString" ∈ map fst fs)); [done|].
    exfalso. apply H. by right. }
  destruct (field (lit "analysis_sections") fs) eqn:E; simpl;
    try (by rewrite bool_decide_true by exact Ht).
  exfalso. apply H. by left.
Qed.

Lemma tryCache_hit (c : cache_object) (id : jsstring) (v : jsval)
    (s : AnalysisPage.state) (b : browser) :
  cached_entry c id = Some v -> usable v ->
  AnalysisPage.tryCache c id (s, b) = AnalysisPage.useCached v (s, b).
Proof.
  intros Hc Hv. unfold AnalysisPage.tryCache, try_catch. rewrite Hc.
  by destruct (useCached_run v s b Hv) as [s' ->].
Qed.

Lemma tryUseCache_hit (id : jsstring) (cache : cache_object) (v : jsval)
    (s : AnalysisPage.state) (b : browser) :
  usable v ->
  cached_entry (FD_CACHE b) id = Some v
  \/ (cached_entry (FD_CACHE b) id = None /\ cached_entry cache id = Some v) ->
  AnalysisPage.tryUseCache id cache (s, b) = AnalysisPage.useCached v (s, b).
Proof.
  intros Hu Hv. unfold AnalysisPage.tryUseCache, bind, read_browser.
  cbn [snd]. destruct Hv as [Hw|[Hw Hc]].
  - rewrite (tryCache_hit _ id v s b Hw Hu).
    by destruct (useCached_run v s b Hu) as [s' ->].
  - rewrite (tryCache_miss _ id s b Hw). by apply tryCache_hit.
Qed.

(** From any state of the analysis page, a response that is not ok ends
    in the panel with the fixed text, whatever its status and body. *)
Lemma analysis_not_ok_error_panel (env : environment) (params_id : param)
    (id : jsstring) (cache : cache_object) (net : network) (res : response)
    (s : AnalysisPage.state) (b : browser) :
  route_id params_id = Some id ->
  cached_entry (FD_CACHE b) id = None ->
  cached_entry cache id = None ->
  net (AnalysisPage.analyzeRequest env id) = Fulfilled res ->
  ok res = false ->
  AnalysisPage.render
    (fst (run (AnalysisPage.effect env params_id cache net true) s b))
  = AnalysisPage.AnalysisFailed (lit "Failed to fetch analysis").
Proof.
  intros Hid Hw Hc Hnet Hok.
  unfold AnalysisPage.effect, run. rewrite Hid. unfold bind at 1.
  rewrite (tryUseCache_miss id cache s b Hw Hc).
  unfold finally, try_catch, bind, update, outside, lift, await_fetch, ret,
    throw.
  simpl. rewrite Hnet. simpl. rewrite Hok. reflexivity.
Qed.




(** What the pages show after a hit, on a fresh mount: the analysis
    page shows the cached sections or the cached text, the ingredients
    page the cached product. *)
Lemma cache_hit_render (v : jsval) (b : browser) :
  truthy v = true ->
  match v with
  | JArr (x :: xs) =>
      AnalysisPage.render (fst (run (AnalysisPage.useCached v) AnalysisPage.initial b))
      = AnalysisPage.Analysis (x :: xs)
  | JArr [] =>
      AnalysisPage.render (fst (run (AnalysisPage.useCached v) AnalysisPage.initial b))
      = AnalysisPage.AnalysisFailed
          (lit "Could not retrieve analysis data. Please try again.")
  | JStr t =>
      AnalysisPage.render (fst (run (AnalysisPage.useCached v) AnalysisPage.initial b))
      = AnalysisPage.Analysis [JStr t]
  | _ => True
  end
  /\ exists n br t,
       IngredientsPage.render (IngredientsPage.State v false None)
       = IngredientsPage.Ingredients n br t.
Proof.
  intros Hv. split.
  - destruct v as [| |bb|n|t|[|x xs]|fs]; try done.
    destruct t; [done|reflexivity].
  - unfold IngredientsPage.render. simpl. rewrite Hv. simpl. eauto.
Qed.

(** ** AnalysisDisplay: [parseAnalysisText] *)

Import AnalysisDisplay.

Lemma pushSection_app (text : jsstring) (acc : list Section) (p : SectionPattern) :
  pushSection text acc p = acc ++ pushSection text [] p.
Proof.
  unfold pushSection.
  destruct (regexp_match (pattern p) text) as [m|]; [|by rewrite app_nil_r].
  destruct (group 1 m) as [g|]; [|by rewrite app_nil_r].
  destruct (nonempty g); [|by rewrite app_nil_r].
  destruct (nonempty (trim g)); [done|by rewrite app_nil_r].
Qed.

Lemma fold_pushSection (text : jsstring) (ps : list SectionPattern)
    (acc : list Section) :
  fold_left (pushSection text) ps acc
  = acc ++ concat (map (pushSection text []) ps).
Proof.
  revert acc. induction ps as [|p ps IH]; intros acc; simpl.
  - by rewrite app_nil_r.
  - rewrite IH, pushSection_app, <- app_assoc. reflexivity.
Qed.

Lemma nonempty_false (s : jsstring) : nonempty s = false <-> s = [].
Proof. destruct s; split; done. Qed.

Lemma trim_nil : trim [] = [].
Proof. reflexivity. Qed.

(** What one pattern contributes: nothing, or one section that bears
    its title and holds the trimmed text of group 1. *)
Lemma pushSection_spec (text : jsstring) (p : SectionPattern) :
  (pushSection text [] p = []
   /\ (regexp_match (pattern p) text = None
       \/ exists m, regexp_match (pattern p) text = Some m
                    /\ trim (captured m) = []))
  \/ (exists m, regexp_match (pattern p) text = Some m
                /\ trim (captured m) <> []
                /\ pushSection text [] p
                   = [ {| title := sp_title p; content := trim (captured m);
                          icon_of := Some (sp_icon p);
                          color := Some (sp_color p) |} ]).
Proof.
  unfold pushSection, captured.
  destruct (regexp_match (pattern p) text) as [m|]; [|left; auto].
  destruct (group 1 m) as [g|] eqn:E.
  - destruct (nonempty g) eqn:Eg.
    + destruct (nonempty (trim g)) eqn:Et.
      * right. exists m. rewrite E. repeat split. intros H. simpl in H.
        by rewrite H in Et.
      * left. apply nonempty_false in Et. split; [done|]. right.
        exists m. by rewrite E.
    + left. apply nonempty_false in Eg. subst g. split; [done|]. right.
      exists m. by rewrite E.
  - left. split; [done|]. right. exists m. by rewrite E.
Qed.

Lemma title_pushSection (text : jsstring) (p : SectionPattern) (s : Section) :
  s ∈ pushSection text [] p -> title s = sp_title p.
Proof.
  destruct (pushSection_spec text p) as [[-> _]|(m & _ & _ & ->)].
  - by intros ?%elem_of_nil.
  - by intros ->%list_elem_of_singleton.
Qed.

Lemma sp_titles :
  map sp_title sectionPatterns
  = [lit "Summary"; lit "Key Risks"; lit "Positive Highlights";
     lit "Recommendation"; lit "Marketing Traps"].
Proof. reflexivity. Qed.

Lemma NoDup_map_inj {A B : Type} (f : A -> B) (l : list A) (p q : A) :
  NoDup (map f l) -> p ∈ l -> q ∈ l -> f p = f q -> p = q.
Proof.
  induction l as [|a l IH]; simpl; intros Hnd Hp Hq Hf.
  - by apply elem_of_nil in Hp.
  - apply NoDup_cons in Hnd as [Ha Hnd].
    apply elem_of_cons in Hp as [->|Hp]; apply elem_of_cons in Hq as [->|Hq].
    + reflexivity.
    + exfalso. apply Ha. rewrite Hf. apply list_elem_of_fmap. eauto.
    + exfalso. apply Ha. rewrite <- Hf. apply list_elem_of_fmap. eauto.
    + by apply IH.
Qed.

Lemma sp_titles_NoDup : NoDup (map sp_title sectionPatterns).
Proof.
  rewrite sp_titles. apply (bool_decide_unpack _). by vm_compute.
Qed.

Lemma sp_title_inj (p q : SectionPattern) :
  p ∈ sectionPatterns -> q ∈ sectionPatterns -> sp_title p = sp_title q ->
  p = q.
Proof. apply NoDup_map_inj, sp_titles_NoDup. Qed.

Lemma elem_of_concat_map {A B : Type} (f : A -> list B) (l : list A) (x : B) :
  x ∈ concat (map f l) <-> exists a, a ∈ l /\ x ∈ f a.
Proof.
  induction l as [|a l IH]; simpl.
  - split; [by intros ?%elem_of_nil | by intros (a & ?%elem_of_nil & _)].
  - rewrite elem_of_app, IH. split.
    + intros [H|(b & Hb & H)]; [exists a | exists b]; split; auto;
        [left | by right].
    + intros (b & [->|Hb]%elem_of_cons & H); [by left | right; eauto].
Qed.

Lemma parseAnalysisText_concat (text : jsstring) :
  parseAnalysisText text = concat (map (pushSection text []) sectionPatterns).
Proof. unfold parseAnalysisText. by rewrite fold_pushSection. Qed.

(** A title is in the result exactly when its own pattern contributes. *)
Lemma has_section_iff (text : jsstring) (p : SectionPattern) :
  p ∈ sectionPatterns ->
  has_section (parseAnalysisText text) (sp_title p)
  <-> pushSection text [] p <> [].
Proof.
  intros Hp. unfold has_section. rewrite parseAnalysisText_concat. split.
  - intros (s & Hs & Ht) Hnil.
    apply elem_of_concat_map in Hs as (q & Hq & Hs).
    pose proof (title_pushSection _ _ _ Hs) as Hq'.
    assert (q = p) as -> by (apply sp_title_inj; congruence).
    rewrite Hnil in Hs. by apply elem_of_nil in Hs.
  - intros Hne.
    destruct (pushSection text [] p) as [|s l] eqn:E; [done|].
    exists s. split.
    + apply elem_of_concat_map. exists p. split; [done|]. rewrite E. left.
    + apply (title_pushSection text p). rewrite E. left.
Qed.

(** C1 as stated fails: on the text "SUMMARY:" the pattern of the
    summary matches, with an empty group 1, and the result has no
    section "Summary". *)
Lemma parseAnalysisText_empty_section_counterexample :
  exists p, sectionPatterns !! 0 = Some p
    /\ sp_title p = lit "Summary"
    /\ regexp_match (pattern p) (lit "SUMMARY:")
       = Some (MatchResult 0 (lit "SUMMARY:") [(1, [])])
    /\ ~ has_section (parseAnalysisText (lit "SUMMARY:")) (sp_title p).
Proof.
  eexists. split; [reflexivity|]. split; [reflexivity|].
  split; [by vm_compute|].
  intros (s & Hs & _). vm_compute in Hs. by apply elem_of_nil in Hs.
Qed.

(** C1, amended: the five patterns are tried on the text one after the
    other, and a named section is absent from the result exactly when
    its pattern does not match the text or matches with a group 1 that
    is empty once trimmed.  Every section of the result bears the title
    of one of the patterns and holds the trimmed text of its group 1. *)
Theorem parseAnalysisText_sections (text : jsstring) (p : SectionPattern) :
  p ∈ sectionPatterns ->
  (~ has_section (parseAnalysisText text) (sp_title p)
   <-> (regexp_match (pattern p) text = None
        \/ exists m, regexp_match (pattern p) text = Some m
                     /\ trim (captured m) = []))
  /\ (forall s, s ∈ parseAnalysisText text ->
        exists q m, q ∈ sectionPatterns
          /\ regexp_match (pattern q) text = Some m
          /\ s = {| title := sp_title q; content := trim (captured m);
                    icon_of := Some (sp_icon q); color := Some (sp_color q) |}).
Proof.
  intros Hp. split.
  - rewrite (has_section_iff text p Hp).
    destruct (pushSection_spec text p) as [[E H]|(m & Hm & Ht & E)];
      rewrite E.
    + split; [done|]. intros _ ?. done.
    + split; [intros H; by destruct H|].
      intros [H|(m' & Hm' & Ht')]; [congruence|].
      assert (m' = m) as -> by congruence. done.
  - intros s Hs. rewrite parseAnalysisText_concat in Hs.
    apply elem_of_concat_map in Hs as (q & Hq & Hs).
    destruct (pushSection_spec text q) as [[E _]|(m & Hm & _ & E)];
      rewrite E in Hs.
    + by apply elem_of_nil in Hs.
    + apply list_elem_of_singleton in Hs. eauto.
Qed.

Lemma parseAnalysisText_sections_witness :
  exists p, p ∈ sectionPatterns
    /\ sp_title p = lit "Key Risks"
    /\ (~ has_section (parseAnalysisText (lit "SUMMARY: fine")) (sp_title p)
        <-> (regexp_match (pattern p) (lit "SUMMARY: fine") = None
             \/ exists m, regexp_match (pattern p) (lit "SUMMARY: fine") = Some m
                          /\ trim (captured m) = [])).
Proof.
  exists {| pattern := sectionPattern "KEY RISKS"; sp_title := lit "Key Risks";
            sp_icon := AlertTriangle; sp_color := lit "red" |}.
  assert (H : {| pattern := sectionPattern "KEY RISKS";
                 sp_title := lit "Key Risks";
                 sp_icon := AlertTriangle; sp_color := lit "red" |}
              ∈ sectionPatterns) by (right; left).
  split; [exact H|]. split; [reflexivity|].
  exact (proj1 (parseAnalysisText_sections (lit "SUMMARY: fine") _ H)).
Defined.

Lemma titles_parseAnalysisText (text : jsstring) :
  map title (parseAnalysisText text)
    `sublist_of` [lit "Summary"; lit "Key Risks"; lit "Positive Highlights";
                  lit "Recommendation"; lit "Marketing Traps"]
  /\ NoDup (map title (parseAnalysisText text)).
Proof.
  assert (H : map title (parseAnalysisText text)
              `sublist_of` map sp_title sectionPatterns).
  { rewrite parseAnalysisText_concat.
    induction sectionPatterns as [|p ps IH]; simpl; [constructor|].
    rewrite map_app.
    destruct (pushSection_spec text p) as [[-> _]|(m & _ & _ & ->)]; simpl.
    - by apply sublist_cons.
    - by apply sublist_skip. }
  split; [exact H|].
  exact (sublist_NoDup _ _ sp_titles_NoDup H).
Qed.

(** C2: the titles of the result, in their order, are taken from the
    list Summary, Key Risks, Positive Highlights, Recommendation,
    Marketing Traps by leaving some out: the sections come in the order
    of the patterns whatever the order of the headers in the text, and
    no title comes twice. *)
Theorem parseAnalysisText_order (text : jsstring) :
  map title (parseAnalysisText text)
    `sublist_of` [lit "Summary"; lit "Key Risks"; lit "Positive Highlights";
                  lit "Recommendation"; lit "Marketing Traps"]
  /\ NoDup (map title (parseAnalysisText text)).
Proof.
  assert (H : map title (parseAnalysisText text)
              `sublist_of` map sp_title sectionPatterns).
  { rewrite parseAnalysisText_concat.
    induction sectionPatterns as [|p ps IH]; simpl; [constructor|].
    rewrite map_app.
    destruct (pushSection_spec text p) as [[-> _]|(m & _ & _ & ->)]; simpl.
    - by apply sublist_cons.
    - by apply sublist_skip. }
  split; [exact H|].
  exact (sublist_NoDup _ _ sp_titles_NoDup H).
Qed.

(** The headers of the text in the reverse order: the sections still
    come in the order of the patterns. *)
Example parseAnalysisText_reordered :
  map title (parseAnalysisText
               (lit "MARKETING TRAPS: none" ++ [LF] ++ lit "key risks: sugar"
                  ++ [LF] ++ lit "Summary: a snack"))
  = [lit "Summary"; lit "Key Risks"; lit "Marketing Traps"].
Proof. by vm_compute. Qed.

(** ** AnalysisDisplay: [extractHealthRating] *)

(** [null] is returned exactly when the rating pattern does not match. *)
Lemma extractHealthRating_None (text : jsstring) :
  extractHealthRating text = None <-> regexp_match ratingPattern text = None.
Proof.
  unfold extractHealthRating.
  destruct (regexp_match ratingPattern text); split; done.
Qed.

(** The verdict of a rating: the trimmed group 1 of the verdict pattern,
    or the empty string when that pattern does not match. *)
Lemma extractHealthRating_Some (text : jsstring) (m : match_result) :
  regexp_match ratingPattern text = Some m ->
  extractHealthRating text
  = Some {| score := parseFloat (captured m);
            verdict := match regexp_match verdictPattern text with
                       | Some v => trim (captured v)
                       | None => []
                       end |}.
Proof. intros H. unfold extractHealthRating. rewrite H. reflexivity. Qed.

(** C10 fails on the code: when the text ends with "OVERALL VERDICT:",
    the optional colon of the verdict pattern is given back so that
    [[^\n]+] has a character to match, and the verdict is ":" where the
    text after the header is empty. *)
Theorem extractHealthRating_verdict_colon :
  extractHealthRating (lit "Rating: 5/10" ++ [LF] ++ lit "OVERALL VERDICT:")
  = Some {| score := Finite 5; verdict := lit ":" |}.
Proof. by vm_compute. Qed.

(** ** The matcher and the relation of what a pattern matches *)

Section Repeat.
Context (m : cont -> cont) (R : mstate -> mstate -> Prop).
Context (greedy : bool) (k : cont).

Lemma repeat_matcher_unfold (fuel : nat) (x : mstate) :
  repeat_matcher m greedy k fuel x
  = let d : cont := fun y =>
      if length (rest y) <? length (rest x) then
        match fuel with
        | S fuel' => repeat_matcher m greedy k fuel' y
        | O => None
        end
      else None in
    if greedy then
      match m d x with Some z => Some z | None => k x end
    else
      match k x with Some z => Some z | None => m d x end.
Proof. destruct fuel; reflexivity. Qed.

Lemma repeat_matcher_sound :
  (forall k' x z, m k' x = Some z -> exists y, R x y /\ k' y = Some z) ->
  forall fuel x z,
    repeat_matcher m greedy k fuel x = Some z ->
    exists y, iter R x y /\ k y = Some z.
Proof.
  intros Hm fuel. induction fuel as [|fuel IH]; intros x z;
    rewrite repeat_matcher_unfold; cbv zeta.
  - assert (Hd : forall y : mstate,
              m (fun y => if length (rest y) <? length (rest x)
                          then None else None) x = Some z -> False).
    { intros _ H. apply Hm in H as (y & _ & H).
      destruct (length (rest y) <? length (rest x)); discriminate. }
    destruct greedy.
    + destruct (m _ x) as [z'|] eqn:E.
      * intros [= ->]. exfalso. by apply (Hd x).
      * intros H. exists x. split; [constructor|done].
    + destruct (k x) as [z'|] eqn:E.
      * intros [= ->]. exists x. split; [constructor|done].
      * intros H. exfalso. by apply (Hd x).
  - assert (Hd : m (fun y => if length (rest y) <? length (rest x)
                             then repeat_matcher m greedy k fuel y
                             else None) x = Some z ->
                 exists y, iter R x y /\ k y = Some z).
    { intros H. apply Hm in H as (y & Hxy & H).
      destruct (length (rest y) <? length (rest x)) eqn:L; [|discriminate].
      apply Nat.ltb_lt in L. apply IH in H as (y' & Hy & H).
      exists y'. split; [|done]. by eapply iter_step. }
    destruct greedy.
    + destruct (m _ x) as [z'|] eqn:E.
      * intros [= ->]. by apply Hd.
      * intros H. exists x. split; [constructor|done].
    + destruct (k x) as [z'|] eqn:E.
      * intros [= ->]. exists x. split; [constructor|done].
      * intros H. by apply Hd.
Qed.

Lemma repeat_matcher_complete :
  (forall k' x y, R x y -> is_Some (k' y) -> is_Some (m k' x)) ->
  forall x y, iter R x y ->
  forall fuel, length (rest x) <= fuel -> is_Some (k y) ->
    is_Some (repeat_matcher m greedy k fuel x).
Proof.
  intros Hm x y Hit. induction Hit as [x|x y z Hxy Hlt Hit IH];
    intros fuel Hfuel Hk; rewrite repeat_matcher_unfold; cbv zeta.
  - destruct greedy.
    + destruct (m _ x); [by eexists|done].
    + destruct Hk as [z ->]. by eexists.
  - destruct fuel as [|fuel]; [lia|].
    assert (Hd : is_Some (m (fun y => if length (rest y) <? length (rest x)
                                      then repeat_matcher m greedy k fuel y
                                      else None) x)).
    { apply (Hm _ x y Hxy).
      pose proof Hlt as L. apply Nat.ltb_lt in L. rewrite L.
      apply IH; [lia|done]. }
    destruct greedy.
    + destruct Hd as [z' ->]. by eexists.
    + destruct (k x); [by eexists|done].
Qed.
End Repeat.

Lemma matcher_sound (input : jsstring) (r : regex) :
  forall (k : cont) (x z : mstate),
    matcher input r k x = Some z ->
    exists y, matches input r x y /\ k y = Some z.
Proof.
  induction r as [|p|r1 IH1 r2 IH2|r1 IH1 r2 IH2|g r IH|g r IH|g r IH|i r IH
                  |r IH| |]; intros k x z; simpl.
  - eauto.
  - destruct x as [[|c s] caps]; simpl; [done|].
    destruct (p c) eqn:E; [|done]. intros H. eexists. split; [|exact H].
    exists c. done.
  - intros H. apply IH1 in H as (m & H1 & H). apply IH2 in H as (y & H2 & H).
    eauto.
  - destruct (matcher input r1 k x) as [z'|] eqn:E.
    + intros [= ->]. apply IH1 in E as (y & ? & ?). eauto.
    + intros H. apply IH2 in H as (y & ? & ?). eauto.
  - apply repeat_matcher_sound. exact IH.
  - intros H. apply IH in H as (m & Hm & H).
    apply (repeat_matcher_sound _ _ _ _ IH) in H as (y & ? & ?). eauto.
  - assert (Hd : matcher input r
                   (fun y => if length (rest y) <? length (rest x)
                             then k y else None) x = Some z ->
                 exists y, (y = x \/ matches input r x y
                                     /\ length (rest y) < length (rest x))
                           /\ k y = Some z).
    { intros H. apply IH in H as (y & Hy & H).
      destruct (length (rest y) <? length (rest x)) eqn:L; [|done].
      apply Nat.ltb_lt in L. eauto. }
    destruct g.
    + destruct (matcher input r _ x) as [z'|] eqn:E.
      * intros [= ->]. by apply Hd.
      * eauto.
    + destruct (k x) as [z'|] eqn:E.
      * intros [= ->]. eauto.
      * apply Hd.
  - intros H. apply IH in H as (m & Hm & H). eauto.
  - destruct (matcher input r Some x) as [m|] eqn:E; [|done]. eauto.
  - destruct (length (rest x) =? length input) eqn:E; [|done].
    apply Nat.eqb_eq in E. eauto.
  - destruct x as [[|c s] caps]; simpl; [eauto|done].
Qed.

Lemma matcher_complete (input : jsstring) (r : regex) :
  forall (k : cont) (x y : mstate),
    matches input r x y -> is_Some (k y) -> is_Some (matcher input r k x).
Proof.
  induction r as [|p|r1 IH1 r2 IH2|r1 IH1 r2 IH2|g r IH|g r IH|g r IH|i r IH
                  |r IH| |]; intros k x y; simpl.
  - by intros ->.
  - intros (c & Hx & Hp & Hc) Hk. destruct x as [s caps], y as [s' caps'].
    simpl in *. subst. by rewrite Hp.
  - intros (m & H1 & H2) Hk. eapply IH1; [exact H1|]. by eapply IH2.
  - intros [H|H] Hk.
    + destruct (IH1 k x y H Hk) as [z ->]. by eexists.
    + destruct (matcher input r1 k x); [by eexists|]. by eapply IH2.
  - intros H Hk. by eapply repeat_matcher_complete.
  - intros (m & Hm & H) Hk. eapply IH; [exact Hm|].
    by eapply repeat_matcher_complete.
  - intros [->|[H L]] Hk.
    + destruct g.
      * destruct (matcher input r _ x); [by eexists|done].
      * destruct Hk as [z ->]. by eexists.
    + assert (Hd : is_Some (matcher input r
                     (fun y => if length (rest y) <? length (rest x)
                               then k y else None) x)).
      { eapply IH; [exact H|]. apply Nat.ltb_lt in L. by rewrite L. }
      destruct g.
      * destruct Hd as [z ->]. by eexists.
      * destruct (k x); [by eexists|done].
  - intros (m & Hm & ->) Hk. by eapply IH.
  - intros (m & -> & ->) Hk. done.
  - intros [-> E] Hk. apply Nat.eqb_eq in E. by rewrite E.
  - intros [-> E] Hk. by rewrite E.
Qed.

(** The matcher finds a match exactly when the pattern can match. *)
Lemma matcher_is_Some (input : jsstring) (r : regex) (x : mstate) :
  is_Some (matcher input r Some x) <-> exists y, matches input r x y.
Proof.
  split.
  - intros [z H]. apply matcher_sound in H as (y & ? & _). eauto.
  - intros [y H]. by eapply matcher_complete.
Qed.

(** A match consumes a prefix of what is left. *)
Lemma iter_suffix (R : mstate -> mstate -> Prop) (x y : mstate) :
  (forall a b, R a b -> exists w, rest a = w ++ rest b) ->
  iter R x y -> exists w, rest x = w ++ rest y.
Proof.
  intros HR Hit. induction Hit as [a|a b c Hab _ _ [w2 IH]].
  - by exists [].
  - destruct (HR _ _ Hab) as [w1 H1]. exists (w1 ++ w2).
    by rewrite H1, IH, app_assoc.
Qed.

Lemma matches_suffix (input : jsstring) (r : regex) :
  forall x y, matches input r x y -> exists w, rest x = w ++ rest y.
Proof.
  induction r as [|p|r1 IH1 r2 IH2|r1 IH1 r2 IH2|g r IH|g r IH|g r IH|i r IH
                  |r IH| |]; intros x y; simpl.
  - intros ->. by exists [].
  - intros (c & -> & _). by exists [c].
  - intros (m & [w1 H1]%IH1 & [w2 H2]%IH2). exists (w1 ++ w2).
    by rewrite H1, H2, app_assoc.
  - intros [H|H]; eauto.
  - by apply iter_suffix.
  - intros (m & [w1 H1]%IH & [w2 H2]%(iter_suffix _ _ _ IH)).
    exists (w1 ++ w2). by rewrite H1, H2, app_assoc.
  - intros [->|[H _]]; [by exists []|eauto].
  - intros (m & [w H]%IH & ->). by exists w.
  - intros (m & _ & ->). by exists [].
  - intros [-> _]. by exists [].
  - intros [-> _]. by exists [].
Qed.

(** A pattern without group leaves the captures as they are. *)
Lemma matches_no_group (input : jsstring) (r : regex) :
  no_group r = true ->
  forall x y, matches input r x y -> captures y = captures x.
Proof.
  induction r as [|p|r1 IH1 r2 IH2|r1 IH1 r2 IH2|g r IH|g r IH|g r IH|i r IH
                  |r IH| |]; simpl; intros Hr x y; try done.
  - by intros ->.
  - by intros (c & _ & _ & ?).
  - apply andb_prop in Hr as [H1 H2].
    intros (m & Hm & Hy). rewrite (IH2 H2 _ _ Hy). by apply IH1.
  - apply andb_prop in Hr as [H1 H2]. intros [H|H]; auto.
  - intros Hit. induction Hit as [a|a b c Hab _ _ IHit]; [done|].
    rewrite IHit. by apply IH.
  - intros (m & Hm & Hit). rewrite <- (IH Hr _ _ Hm).
    clear Hm. induction Hit as [a|a b c Hab _ _ IHit]; [done|].
    rewrite IHit. by apply IH.
  - intros [->|[H _]]; auto.
  - by intros [-> _].
  - by intros [-> _].
Qed.

(** What a plain pattern consumes is a word of its language. *)
Lemma matches_lang (input : jsstring) (r : regex) :
  plain r = true ->
  forall x y, matches input r x y ->
    exists w, rest x = w ++ rest y /\ lang r w.
Proof.
  induction r as [|p|r1 IH1 r2 IH2|r1 IH1 r2 IH2|g r IH|g r IH|g r IH|i r IH
                  |r IH| |]; simpl; intros Hr x y; try done.
  - intros ->. by exists [].
  - intros (c & -> & Hp & _). exists [c]. eauto.
  - apply andb_prop in Hr as [H1 H2].
    intros (m & (w1 & E1 & L1)%(IH1 H1) & (w2 & E2 & L2)%(IH2 H2)).
    exists (w1 ++ w2). split; [by rewrite E1, E2, app_assoc|]. eauto.
  - apply andb_prop in Hr as [H1 H2].
    intros [(w & ? & ?)%(IH1 H1)|(w & ? & ?)%(IH2 H2)]; eauto.
  - intros Hit. induction Hit as [a|a b c Hab _ _ (w2 & E2 & ws & -> & Hws)].
    + exists []. split; [done|]. by exists [].
    + destruct (IH Hr _ _ Hab) as (w1 & E1 & L1).
      exists (w1 ++ concat ws). split; [by rewrite E1, E2, app_assoc|].
      exists (w1 :: ws). split; [done|]. by constructor.
  - intros (m & (w1 & E1 & L1)%(IH Hr) & Hit).
    assert (exists w2, rest m = w2 ++ rest y
                       /\ exists ws, w2 = concat ws /\ Forall (lang r) ws)
      as (w2 & E2 & ws & -> & Hws).
    { clear E1. induction Hit as [a|a b c Hab _ _ (w2 & E2 & ws & -> & Hws)].
      - exists []. split; [done|]. by exists [].
      - destruct (IH Hr _ _ Hab) as (w3 & E3 & L3).
        exists (w3 ++ concat ws). split; [by rewrite E3, E2, app_assoc|].
        exists (w3 :: ws). split; [done|]. by constructor. }
    exists (w1 ++ concat ws). split; [by rewrite E1, E2, app_assoc|]. eauto.
  - intros [->|[(w & ? & ?)%(IH Hr) _]]; [exists []|]; eauto.
  - intros (m & (w & ? & ?)%(IH Hr) & ->). eauto.
Qed.

(** Every word of the language of a plain pattern can be consumed. *)
Lemma lang_matches (input : jsstring) (r : regex) :
  plain r = true ->
  forall w s caps, lang r w ->
    exists y, matches input r (MState (w ++ s) caps) y /\ rest y = s.
Proof.
  induction r as [|p|r1 IH1 r2 IH2|r1 IH1 r2 IH2|g r IH|g r IH|g r IH|i r IH
                  |r IH| |]; simpl; intros Hr w s caps; try done.
  - intros ->. eauto.
  - intros (c & -> & Hp). exists (MState s caps). split; [|done].
    exists c. done.
  - apply andb_prop in Hr as [H1 H2]. intros (u & v & -> & Lu & Lv).
    destruct (IH1 H1 u (v ++ s) caps Lu) as ([s1 c1] & M1 & E1).
    simpl in E1. subst s1.
    destruct (IH2 H2 v s c1 Lv) as (y & M2 & E2).
    exists y. split; [|done]. exists (MState (v ++ s) c1).
    by rewrite <- app_assoc.
  - apply andb_prop in Hr as [H1 H2].
    intros [L|L]; [destruct (IH1 H1 w s caps L) as (y & ? & ?)
                  |destruct (IH2 H2 w s caps L) as (y & ? & ?)]; eauto.
  - intros (ws & -> & Hws). revert caps.
    induction Hws as [|u ws Lu _ IHws]; intros caps; simpl.
    + exists (MState s caps). split; [constructor|done].
    + destruct u as [|c u].
      { simpl. apply IHws. }
      destruct (IH Hr (c :: u) (concat ws ++ s) caps Lu) as ([s1 c1] & M1 & E1).
      simpl in E1. subst s1.
      destruct (IHws c1) as (y & M2 & E2).
      exists y. split; [|done]. rewrite <- app_assoc.
      eapply iter_step; [exact M1| |exact M2].
      simpl. rewrite !length_app. simpl. lia.
  - intros (u & ws & -> & Lu & Hws).
    destruct (IH Hr u (concat ws ++ s) caps Lu) as ([s1 c1] & M1 & E1).
    simpl in E1. subst s1.
    assert (exists y, iter (matches input r) (MState (concat ws ++ s) c1) y
                      /\ rest y = s) as (y & M2 & E2).
    { clear M1 Lu. revert c1.
      induction Hws as [|v ws Lv _ IHws]; intros c1; simpl.
      - exists (MState s c1). split; [constructor|done].
      - destruct v as [|c v].
        { simpl. apply IHws. }
        destruct (IH Hr (c :: v) (concat ws ++ s) c1 Lv) as ([s2 c2] & M1 & E1).
        simpl in E1. subst s2.
        destruct (IHws c2) as (y & M2 & E2).
        exists y. split; [|done]. rewrite <- app_assoc.
        eapply iter_step; [exact M1| |exact M2].
        simpl. rewrite !length_app. simpl. lia. }
    exists y. split; [|done]. exists (MState (concat ws ++ s) c1).
    by rewrite <- app_assoc.
  - intros [->|L].
    + exists (MState s caps). split; [by left|done].
    + destruct w as [|c w].
      { exists (MState s caps). split; [by left|done]. }
      destruct (IH Hr (c :: w) s caps L) as (y & M & E).
      exists y. split; [|done]. right. split; [done|].
      rewrite E. simpl. rewrite length_app. lia.
  - intros L. destruct (IH Hr w s caps L) as (y & M & E).
    eexists. split; [exists y; split; [exact M|reflexivity]|done].
Qed.

(** ** [String.prototype.match] *)

(** The result of [exec_from]: the first suffix, from the left, at
    which the matcher succeeds. *)
Lemma exec_from_Some (input : jsstring) (r : regex) :
  forall s i m,
    exec_from input r i s = Some m ->
    exists pre s' y,
      s = pre ++ s'
      /\ matcher input r Some (MState s' []) = Some y
      /\ m = MatchResult (i + length pre)
               (take (length s' - length (rest y)) s') (captures y)
      /\ forall p q, pre = p ++ q -> q <> [] ->
           matcher input r Some (MState (q ++ s') []) = None.
Proof.
  induction s as [|c s IH]; intros i m; simpl.
  - destruct (matcher input r Some (MState [] [])) as [y|] eqn:E; [|done].
    intros [= <-]. exists [], [], y. rewrite Nat.add_0_r.
    repeat split; [done|]. intros p q Hpq Hq.
    symmetry in Hpq. apply app_eq_nil in Hpq as [_ ->]. done.
  - destruct (matcher input r Some (MState (c :: s) [])) as [y|] eqn:E.
    + intros [= <-]. exists [], (c :: s), y. rewrite Nat.add_0_r.
      repeat split; [done|]. intros p q Hpq Hq.
      symmetry in Hpq. apply app_eq_nil in Hpq as [_ ->]. done.
    + intros H. apply IH in H as (pre & s' & y & -> & Hy & -> & Hleft).
      exists (c :: pre), s', y. simpl. rewrite Nat.add_succ_r.
      repeat split; [done|]. intros p q Hpq Hq.
      destruct p as [|c' p]; simpl in Hpq.
      * subst q. exact E.
      * injection Hpq as -> Hpq. by eapply Hleft.
Qed.

Lemma exec_from_is_Some (input : jsstring) (r : regex) (pre s : jsstring)
    (i : nat) :
  is_Some (matcher input r Some (MState s [])) ->
  is_Some (exec_from input r i (pre ++ s)).
Proof.
  revert i. induction pre as [|c pre IH]; intros i Hs; simpl.
  - destruct s; simpl; destruct Hs as [y ->]; by eexists.
  - destruct (matcher input r Some (MState (c :: pre ++ s) []));
      [by eexists|]. by apply IH.
Qed.

(** [text.match(pattern)] of a plain pattern is not [null] exactly when
    a substring of the text is a word of the language of the pattern. *)
Lemma regexp_match_lang (r : regex) (text : jsstring) :
  plain r = true ->
  is_Some (regexp_match r text) <-> exists w, lang r w /\ substring w text.
Proof.
  intros Hr. unfold regexp_match. split.
  - intros [m H]. apply exec_from_Some in H as (pre & s' & y & -> & H & _).
    apply matcher_sound in H as (y' & H & [= <-]).
    apply (matches_lang _ _ Hr) in H as (w & E & L). simpl in E.
    exists w. split; [done|]. exists pre, (rest y'). by rewrite E.
  - intros (w & L & pre & post & ->). apply exec_from_is_Some.
    apply matcher_is_Some.
    destruct (lang_matches (pre ++ w ++ post) r Hr w post [] L) as (y & H & _).
    eauto.
Qed.

(** ** More on [trim] *)

Lemma trimStart_decompose (s : jsstring) :
  exists a, s = a ++ trimStart s /\ forallb is_white_space a = true.
Proof.
  induction s as [|c s (a & E & Ha)]; simpl.
  - by exists [].
  - destruct (is_white_space c) eqn:Ec.
    + exists (c :: a). simpl. rewrite Ec, Ha. by rewrite <- E.
    + by exists [].
Qed.

Lemma trimStart_head (s : jsstring) (c : code_unit) (u : jsstring) :
  trimStart s = c :: u -> is_white_space c = false.
Proof.
  induction s as [|a s IH]; simpl; [done|].
  destruct (is_white_space a) eqn:Ea; [done|]. by intros [= <- _].
Qed.

Lemma trimEnd_decompose (s : jsstring) :
  exists b, s = trimEnd s ++ b /\ forallb is_white_space b = true.
Proof.
  unfold trimEnd. destruct (trimStart_decompose (rev s)) as (a & E & Ha).
  exists (rev a). split.
  - rewrite <- rev_app_distr, <- E. by rewrite rev_involutive.
  - rewrite forallb_forall in *. intros x Hx. apply Ha. by apply in_rev.
Qed.

Lemma trimEnd_last (s u : jsstring) (c : code_unit) :
  trimEnd s = u ++ [c] -> is_white_space c = false.
Proof.
  unfold trimEnd. intros H. apply (f_equal (@rev N)) in H.
  rewrite rev_involutive, rev_app_distr in H. simpl in H.
  by apply trimStart_head in H.
Qed.

(** [trim] removes white space at both ends and nothing else. *)
Lemma trim_decompose (s : jsstring) :
  exists a b, s = a ++ trim s ++ b
    /\ forallb is_white_space a = true /\ forallb is_white_space b = true.
Proof.
  unfold trim. destruct (trimStart_decompose s) as (a & E & Ha).
  destruct (trimEnd_decompose (trimStart s)) as (b & E' & Hb).
  exists a, b. split; [|done]. by rewrite <- E', <- E.
Qed.

Lemma trim_head (s : jsstring) (c : code_unit) (u : jsstring) :
  trim s = c :: u -> is_white_space c = false.
Proof.
  unfold trim. intros H.
  destruct (trimEnd_decompose (trimStart s)) as (b & E & _).
  rewrite H in E. simpl in E. by apply trimStart_head in E.
Qed.

Lemma trim_last (s u : jsstring) (c : code_unit) :
  trim s = u ++ [c] -> is_white_space c = false.
Proof. unfold trim. apply trimEnd_last. Qed.

Lemma trim_Forall (P : code_unit -> Prop) (s : jsstring) :
  Forall P s -> Forall P (trim s).
Proof.
  intros H. destruct (trim_decompose s) as (a & b & E & _).
  rewrite E in H. apply Forall_app in H as [_ H].
  by apply Forall_app in H as [H _].
Qed.

(** A text that begins and ends with a character that is not white
    space is its own trimmed form. *)
Lemma trimStart_id (c : code_unit) (s : jsstring) :
  is_white_space c = false -> trimStart (c :: s) = c :: s.
Proof. intros H. simpl. by rewrite H. Qed.

Lemma trim_idempotent (s : jsstring) : trim (trim s) = trim s.
Proof.
  destruct (trim s) as [|c u] eqn:E; [done|].
  pose proof (trim_head _ _ _ E) as Hc.
  unfold trim at 1. rewrite (trimStart_id c u Hc).
  destruct (exists_last (l := c :: u)) as (v & d & Ev); [done|].
  rewrite Ev. rewrite Ev in E. apply trim_last in E.
  unfold trimEnd. rewrite rev_app_distr. simpl. rewrite E.
  simpl. by rewrite rev_involutive.
Qed.

(** ** The languages of the building blocks *)

Lemma lang_literal_i (h w : jsstring) :
  lang (literal_i h) w <-> same_letters w h.
Proof.
  revert w. induction h as [|a h IH]; intros w.
  - simpl. split; [intros ->; constructor | by intros ?%Forall2_nil_inv_r].
  - destruct h as [|b h].
    + simpl. split.
      * intros (c & -> & H). by repeat constructor.
      * intros H. apply Forall2_cons_inv_r in H as (c & u & H & Hu & ->).
        apply Forall2_nil_inv_r in Hu as ->. eauto.
    + change (literal_i (a :: b :: h))
        with (Seq (chr_i a) (literal_i (b :: h))).
      cbn [lang]. split.
      * intros (u & v & -> & (c & -> & H) & Hv). constructor; [done|].
        by apply IH.
      * intros H. apply Forall2_cons_inv_r in H as (c & u & H & Hu & ->).
        exists [c], u. split; [done|]. split; [by exists c|]. by apply IH.
Qed.

Lemma concat_classes (p : code_unit -> bool) (ws : list jsstring) :
  Forall (lang (Class p)) ws -> Forall (fun c => p c = true) (concat ws).
Proof.
  induction 1 as [|u ws (c & -> & Hc) _ IH]; simpl; [constructor|].
  by constructor.
Qed.

Lemma classes_concat (p : code_unit -> bool) (w : jsstring) :
  Forall (fun c => p c = true) w ->
  exists ws, w = concat ws /\ Forall (lang (Class p)) ws.
Proof.
  induction 1 as [|c w Hc _ (ws & -> & Hws)].
  - by exists [].
  - exists ([c] :: ws). split; [done|]. constructor; [by exists c|done].
Qed.

Lemma lang_star_class (g : bool) (p : code_unit -> bool) (w : jsstring) :
  lang (Star g (Class p)) w <-> Forall (fun c => p c = true) w.
Proof.
  cbn [lang]. split.
  - intros (ws & -> & H). by apply concat_classes.
  - apply classes_concat.
Qed.

Lemma lang_plus_class (g : bool) (p : code_unit -> bool) (w : jsstring) :
  lang (Plus g (Class p)) w <-> w <> [] /\ Forall (fun c => p c = true) w.
Proof.
  cbn [lang]. split.
  - intros (u & ws & -> & (c & -> & Hc) & H). split; [done|].
    constructor; [done|]. by apply concat_classes.
  - intros [Hw H]. destruct H as [|c w Hc H]; [done|].
    apply classes_concat in H as (ws & -> & Hws).
    exists [c], ws. split; [done|]. split; [by exists c|done].
Qed.

Lemma lang_chr (a : code_unit) (w : jsstring) : lang (chr a) w <-> w = [a].
Proof.
  unfold chr. cbn [lang]. split.
  - intros (c & -> & H). apply N.eqb_eq in H. by subst.
  - intros ->. exists a. split; [done|]. apply N.eqb_refl.
Qed.

(** The language of the number of a rating: [\d+(?:\.\d+)?]. *)
Lemma lang_number (w : jsstring) :
  lang (Seq (Plus true digit) (Opt true (Seq (chr 46) (Plus true digit)))) w
  <-> exists ds fs, w = decimal_text ds fs
        /\ ds <> [] /\ all_digits ds /\ all_digits fs.
Proof.
  unfold digit. split.
  - intros (u & v & -> & [Hu Du]%lang_plus_class & Hv).
    destruct Hv as [->|(a & b & -> & ->%lang_chr & [Hb Db]%lang_plus_class)].
    + exists u, []. unfold decimal_text. repeat split; [done|done|constructor].
    + exists u, b. unfold decimal_text. destruct b; [done|]. done.
  - intros (ds & fs & -> & Hds & Dds & Dfs). unfold decimal_text.
    exists ds, (match fs with [] => [] | _ :: _ => 46%N :: fs end).
    split; [done|]. split; [by apply lang_plus_class|].
    destruct fs as [|f fs]; [by left|]. right.
    exists [46%N], (f :: fs). split; [done|]. split; [by apply lang_chr|].
    by apply lang_plus_class.
Qed.

Lemma matches_plain (input : jsstring) (r : regex) (x y : mstate) :
  plain r = true -> no_group r = true ->
  matches input r x y ->
  exists w, rest x = w ++ rest y /\ lang r w /\ captures y = captures x.
Proof.
  intros Hp Hg H. destruct (matches_lang input r Hp x y H) as (w & E & L).
  exists w. split; [done|]. split; [done|]. by eapply matches_no_group.
Qed.

(** A group around a plain pattern without inner group captures what
    the pattern consumed. *)
Lemma matches_group (input : jsstring) (i : nat) (r : regex) (x y : mstate) :
  plain r = true -> no_group r = true ->
  matches input (Group i r) x y ->
  exists w, rest x = w ++ rest y /\ lang r w
            /\ captures y = (i, w) :: captures x.
Proof.
  intros Hp Hg (m & H & ->). simpl.
  destruct (matches_plain input r x m Hp Hg H) as (w & E & L & C).
  exists w. rewrite E, C, length_app, Nat.add_sub, take_app_length. done.
Qed.

(** ** The rating pattern *)

Lemma lang_separator (w : jsstring) :
  lang (Plus true (Class (fun c => (c =? 58)%N || is_white_space c))) w
  <-> w <> [] /\ Forall (fun c => c = 58%N \/ is_white_space c = true) w.
Proof.
  rewrite lang_plus_class. split; intros [Hw H]; (split; [done|]);
    eapply Forall_impl; try exact H; simpl; intros c Hc.
  - apply orb_prop in Hc as [Hc|Hc]; [apply N.eqb_eq in Hc|]; auto.
  - destruct Hc as [-> | ->]; [done|]. apply orb_true_r.
Qed.

(** Under the [i] flag a digit of the pattern matches itself only. *)
Lemma same_letter_digit (c a : code_unit) :
  is_digit a = true ->
  (c <? 128)%N && (ascii_upper c =? ascii_upper a)%N = true -> c = a.
Proof.
  unfold is_digit, ascii_upper. intros Ha H.
  apply andb_prop in Ha as [Ha1 Ha2]. apply N.leb_le in Ha1, Ha2.
  apply andb_prop in H as [_ H]. apply N.eqb_eq in H.
  destruct (N.leb_spec 97 a), (N.leb_spec a 122); simpl in H; try lia;
    destruct (N.leb_spec 97 c), (N.leb_spec c 122); simpl in H; lia.
Qed.

(** What the rating pattern matches, and what its group 1 captures. *)
Lemma matches_ratingPattern (input : jsstring) (x y : mstate) :
  matches input ratingPattern x y ->
  exists h ds fs w,
    rest x = h ++ w ++ rest y
    /\ rating_phrase ds fs w
    /\ captures y = (1, decimal_text ds fs) :: captures x.
Proof.
  unfold ratingPattern.
  intros (m1 & H1 & m2 & H2 & m3 & H3 & m4 & H4 & m5 & H5 & m6 & H6
          & m7 & H7 & H8).
  apply matches_plain in H1 as (h & E1 & _ & C1); [|reflexivity..].
  apply matches_plain in H2 as (rating & E2 & L2%lang_literal_i & C2);
    [|reflexivity..].
  apply matches_plain in H3 as (sep & E3 & [L3 L3']%lang_separator & C3);
    [|reflexivity..].
  apply matches_group in H4
    as (num & E4 & (ds & fs & -> & Hds & Dds & Dfs)%lang_number & C4);
    [|reflexivity..].
  apply matches_plain in H5 as (ws1 & E5 & L5%lang_star_class & C5);
    [|reflexivity..].
  apply matches_plain in H6 as (sl & E6 & ->%lang_chr & C6); [|reflexivity..].
  apply matches_plain in H7 as (ws2 & E7 & L7%lang_star_class & C7);
    [|reflexivity..].
  apply matches_plain in H8 as (ten & E8 & L8 & C8); [|reflexivity..].
  assert (ten = lit "10") as ->.
  { apply lang_literal_i in L8.
    apply Forall2_cons_inv_r in L8 as (a & t & Ha & L8 & ->).
    apply Forall2_cons_inv_r in L8 as (b & t' & Hb & L8 & ->).
    apply Forall2_nil_inv_r in L8 as ->.
    apply same_letter_digit in Ha, Hb; [|reflexivity..]. by subst. }
  exists h, ds, fs,
    (rating ++ sep ++ decimal_text ds fs ++ ws1 ++ [47%N] ++ ws2 ++ lit "10").
  split.
  - rewrite E1, E2, E3, E4, E5, E6, E7, E8. by rewrite <- !app_assoc.
  - split.
    + exists rating, sep, ws1, ws2. done.
    + by rewrite C8, C7, C6, C5, C4, C3, C2, C1.
Qed.

Lemma rating_phrase_lang (ds fs w : jsstring) :
  rating_phrase ds fs w -> lang ratingPattern w.
Proof.
  intros (rating & sep & ws1 & ws2 & -> & Hr & Hs & Hs' & Hds & Dds & Dfs
          & W1 & W2).
  unfold ratingPattern.
  exists [], (rating ++ sep ++ decimal_text ds fs ++ ws1 ++ [47%N] ++ ws2
                ++ lit "10").
  split; [done|]. split; [by left|].
  eexists _, _. split; [reflexivity|]. split; [by apply lang_literal_i|].
  eexists _, _. split; [reflexivity|]. split; [by apply lang_separator|].
  eexists _, _. split; [reflexivity|].
  split; [apply lang_number; by exists ds, fs|].
  eexists _, _. split; [reflexivity|]. split; [by apply lang_star_class|].
  eexists _, _. split; [reflexivity|]. split; [by apply lang_chr|].
  eexists _, _. split; [reflexivity|]. split; [by apply lang_star_class|].
  apply lang_literal_i. unfold same_letters. by repeat constructor.
Qed.

(** ** [parseFloat] on the text of a rating *)

Lemma digit_not_white (c : code_unit) :
  is_digit c = true -> is_white_space c = false.
Proof.
  unfold is_digit. intros [H1%N.leb_le H2%N.leb_le]%andb_prop.
  assert (c = 48 \/ c = 49 \/ c = 50 \/ c = 51 \/ c = 52 \/ c = 53 \/ c = 54
          \/ c = 55 \/ c = 56 \/ c = 57)%N as H by lia.
  repeat (destruct H as [->|H]; [reflexivity|]). by subst.
Qed.

Lemma take_while_app (p : code_unit -> bool) (u v : jsstring) :
  Forall (fun c => p c = true) u ->
  (forall c t, v = c :: t -> p c = false) ->
  take_while p (u ++ v) = u /\ drop_while p (u ++ v) = v.
Proof.
  intros Hu Hv. induction Hu as [|c u Hc _ [IH1 IH2]]; simpl.
  - destruct v as [|c t]; [done|]. simpl. by rewrite (Hv c t eq_refl).
  - by rewrite Hc, IH1, IH2.
Qed.

Lemma parseFloat_decimal_text (ds fs : jsstring) :
  ds <> [] -> all_digits ds -> all_digits fs ->
  parseFloat (decimal_text ds fs)
  = Number_value (digits_value (ds ++ fs))
                 (Z.to_pos (10 ^ Z.of_nat (length fs))).
Proof.
  intros Hds Dds Dfs. unfold parseFloat, decimal_text.
  destruct ds as [|d ds]; [done|].
  assert (Hd : is_white_space d = false).
  { apply digit_not_white. by apply Forall_cons in Dds as [? _]. }
  change ((d :: ds) ++ ?t) with (d :: (ds ++ t)).
  rewrite (trimStart_id d _ Hd).
  change (d :: (ds ++ ?t)) with ((d :: ds) ++ t).
  destruct fs as [|f fs].
  - destruct (take_while_app is_digit (d :: ds) [] Dds) as [-> ->]; [done|].
    reflexivity.
  - destruct (take_while_app is_digit (d :: ds) (46%N :: f :: fs) Dds)
      as [-> ->]; [by intros c t [= <- _]|].
    destruct (take_while_app is_digit (f :: fs) [] Dfs) as [E _]; [done|].
    rewrite app_nil_r in E. rewrite E. reflexivity.
Qed.

(** ** The Number value of a decimal *)

Lemma round_half_even_nonneg (n d : Z) :
  (0 <= n)%Z -> (0 < d)%Z -> (0 <= round_half_even n d)%Z.
Proof.
  intros Hn Hd. unfold round_half_even.
  pose proof (Z.div_pos n d Hn Hd).
  destruct (2 * (n mod d) ?= d)%Z; [destruct (Z.even (n / d))| |]; lia.
Qed.

Lemma Number_value_not_NaN (n : N) (d : positive) : Number_value n d <> NaN.
Proof.
  unfold Number_value. cbv zeta.
  repeat match goal with |- context [if ?c then _ else _] => destruct c end;
    discriminate.
Qed.

Lemma Number_value_nonneg (n : N) (d : positive) (q : Q) :
  Number_value n d = Finite q -> (0 <= q)%Q.
Proof.
  unfold Number_value. cbv zeta.
  destruct (Z.of_N n =? 0)%Z; [by intros [= <-]|].
  set (e := Z.max (-1074) (log2_ratio (Z.of_N n) (Z.pos d) - 52)).
  destruct (0 <=? e)%Z eqn:E.
  - apply Z.leb_le in E.
    destruct (2 ^ 1024 <=? _)%Z; [done|]. intros [= <-].
    change 0%Q with (inject_Z 0). rewrite <- Zle_Qle.
    apply Z.mul_nonneg_nonneg; [|by apply Z.pow_nonneg].
    apply round_half_even_nonneg; [lia|].
    apply Z.mul_pos_pos; [done|]. by apply Z.pow_pos_nonneg.
  - intros [= <-]. rewrite Qred_correct. unfold Qle. simpl.
    rewrite Z.mul_1_r. apply round_half_even_nonneg; [|done].
    apply Z.mul_nonneg_nonneg; [lia|]. by apply Z.pow_nonneg.
Qed.

(** A whole number below 2^53 is a double. *)
Lemma Number_value_integer (n : N) :
  (n < 2 ^ 53)%N -> Number_value n 1 = Finite (inject_Z (Z.of_N n)).
Proof.
  intros Hn. unfold Number_value. cbv zeta.
  destruct (Z.of_N n =? 0)%Z eqn:E0.
  { apply Z.eqb_eq in E0. by rewrite E0. }
  apply Z.eqb_neq in E0.
  assert (Hpos : (0 < Z.of_N n)%Z) by lia.
  assert (Hlt : (Z.of_N n < 2 ^ 53)%Z).
  { change (2 ^ 53)%Z with (Z.of_N (2 ^ 53)). lia. }
  pose proof (Z.log2_spec _ Hpos) as [Hlo Hhi].
  pose proof (Z.log2_nonneg (Z.of_N n)) as Hl0.
  assert (Hl : (Z.log2 (Z.of_N n) <= 52)%Z).
  { destruct (Z_le_gt_dec (Z.log2 (Z.of_N n)) 52) as [L|L]; [done|].
    exfalso. assert (2 ^ 53 <= 2 ^ Z.log2 (Z.of_N n))%Z
      by (apply Z.pow_le_mono_r; lia). lia. }
  assert (El : log2_ratio (Z.of_N n) 1 = Z.log2 (Z.of_N n)).
  { unfold log2_ratio. cbv zeta. change (Z.log2 1) with 0%Z.
    rewrite Z.sub_0_r.
    destruct (0 <=? Z.log2 (Z.of_N n))%Z eqn:E; [|apply Z.leb_gt in E; lia].
    rewrite Z.mul_1_l.
    destruct (2 ^ Z.log2 (Z.of_N n) <=? Z.of_N n)%Z eqn:E';
      [done|apply Z.leb_gt in E'; lia]. }
  rewrite El. set (l := Z.log2 (Z.of_N n)) in *.
  rewrite Z.max_r by lia.
  assert (Er : forall a, round_half_even a 1 = a).
  { intros a. unfold round_half_even. rewrite Z.mod_1_r, Z.div_1_r. done. }
  destruct (0 <=? l - 52)%Z eqn:E.
  - apply Z.leb_le in E. assert (l - 52 = 0)%Z as -> by lia.
    rewrite Z.pow_0_r, !Z.mul_1_r, Er.
    destruct (2 ^ 1024 <=? Z.of_N n)%Z eqn:O; [|done].
    apply Z.leb_le in O. assert (2 ^ 53 <= 2 ^ 1024)%Z by done. lia.
  - rewrite Er. f_equal.
    assert (Hp : (0 < 2 ^ (- (l - 52)))%Z) by (apply Z.pow_pos_nonneg; lia).
    rewrite <- (Qcanon.Qred_identity (inject_Z (Z.of_N n)))
      by (simpl; apply Z.gcd_1_r).
    apply Qred_complete. unfold Qeq, inject_Z. cbn [Qnum Qden].
    rewrite Z2Pos.id by done. lia.
Qed.

(** ** [extractHealthRating]: when a rating is found, and its score *)

(** A rating is returned exactly when the text contains a rating in the
    sense of [rating_phrase]: "Rating" in any letter case, colons or
    white space, a number, and "/10" with optional white space around
    the slash. *)
Theorem extractHealthRating_found (text : jsstring) :
  extractHealthRating text <> None
  <-> exists ds fs w, rating_phrase ds fs w /\ substring w text.
Proof.
  rewrite extractHealthRating_None. split.
  - intros H. apply not_eq_None_Some in H as [m H].
    apply exec_from_Some in H as (pre & s & y & -> & H & _).
    apply matcher_sound in H as (y' & H & _).
    apply matches_ratingPattern in H as (h & ds & fs & w & Hx & Hw & _).
    simpl in Hx. exists ds, fs, w. split; [done|].
    exists (pre ++ h), (rest y'). by rewrite Hx, <- !app_assoc.
  - intros (ds & fs & w & Hw & Hsub). apply not_eq_None_Some.
    apply (regexp_match_lang ratingPattern text eq_refl).
    exists w. split; [by eapply rating_phrase_lang|done].
Qed.

Lemma round_half_even_error (n d : Z) :
  (0 < d)%Z ->
  (Z.abs (2 * (round_half_even n d * d - n)) <= d)%Z.
Proof.
  intros Hd. unfold round_half_even.
  pose proof (Z.div_mod n d ltac:(lia)) as E.
  pose proof (Z.mod_pos_bound n d Hd) as [H0 H1].
  revert E H0 H1. generalize (n mod d)%Z, (n / d)%Z. intros r q -> H0 H1.
  destruct (2 * r ?= d)%Z eqn:C.
  - apply Z.compare_eq in C. destruct (Z.even q).
    + replace (q * d - (d * q + r))%Z with (- r)%Z by ring. lia.
    + replace ((q + 1) * d - (d * q + r))%Z with (d - r)%Z by ring. lia.
  - assert (2 * r < d)%Z by exact C.
    replace (q * d - (d * q + r))%Z with (- r)%Z by ring. lia.
  - assert (d < 2 * r)%Z by (by apply Z.compare_gt_iff).
    replace ((q + 1) * d - (d * q + r))%Z with (d - r)%Z by ring. lia.
Qed.

Lemma log2_ratio_spec (n d : Z) :
  (0 < n)%Z -> (0 < d)%Z ->
  (0 <= log2_ratio n d ->
   d * 2 ^ log2_ratio n d <= n < d * 2 ^ (log2_ratio n d + 1))%Z
  /\ (log2_ratio n d < 0 ->
      d <= n * 2 ^ (- log2_ratio n d)
      /\ n * 2 ^ (- log2_ratio n d - 1) < d)%Z.
Proof.
  intros Hn Hd.
  pose proof (Z.log2_spec n Hn) as [Hn1 Hn2].
  pose proof (Z.log2_spec d Hd) as [Hd1 Hd2].
  pose proof (Z.log2_nonneg n) as Ln. pose proof (Z.log2_nonneg d) as Ld.
  rewrite <- Z.add_1_r in Hn2, Hd2.
  rewrite Z.pow_add_r in Hn2, Hd2 by lia. change (2 ^ 1)%Z with 2%Z in *.
  unfold log2_ratio. cbv zeta.
  set (a := Z.log2 n) in *. set (c := Z.log2 d) in *.
  assert (Hpow : forall x, (0 <= x -> 0 < 2 ^ x)%Z)
    by (intros; by apply Z.pow_pos_nonneg).
  destruct (0 <=? a - c)%Z eqn:E; [apply Z.leb_le in E|apply Z.leb_gt in E].
  - assert (Ea : (2 ^ a = 2 ^ c * 2 ^ (a - c))%Z).
    { rewrite <- Z.pow_add_r by lia. f_equal. lia. }
    pose proof (Hpow (a - c)%Z E) as Hp. pose proof (Hpow c Ld) as Hc.
    destruct (d * 2 ^ (a - c) <=? n)%Z eqn:E1;
      [apply Z.leb_le in E1|apply Z.leb_gt in E1].
    + split; [|lia]. intros _. split; [done|].
      rewrite Z.pow_add_r by lia. change (2 ^ 1)%Z with 2%Z. nia.
    + split.
      * intros H. assert (E2 : (2 ^ (a - c) = 2 ^ (a - c - 1) * 2)%Z).
        { rewrite <- (Z.pow_1_r 2) at 3. rewrite <- Z.pow_add_r by lia.
          f_equal. lia. }
        pose proof (Hpow (a - c - 1)%Z H) as Hp1.
        replace (a - c - 1 + 1)%Z with (a - c)%Z by lia.
        split; [nia|done].
      * intros H. assert (a - c = 0)%Z as E0 by lia.
        rewrite E0 in *. change (- (0 - 1))%Z with 1%Z.
        change (1 - 1)%Z with 0%Z. change (2 ^ 0)%Z with 1%Z in *.
        change (2 ^ 1)%Z with 2%Z. nia.
  - assert (Ec : (2 ^ c = 2 ^ a * 2 ^ (- (a - c)))%Z).
    { rewrite <- Z.pow_add_r by lia. f_equal. lia. }
    pose proof (Hpow (- (a - c))%Z ltac:(lia)) as Hp.
    pose proof (Hpow a Ln) as Ha.
    destruct (d <=? n * 2 ^ (- (a - c)))%Z eqn:E1;
      [apply Z.leb_le in E1|apply Z.leb_gt in E1].
    + split; [lia|]. intros _. split; [done|].
      assert (E2 : (2 ^ (- (a - c)) = 2 ^ (- (a - c) - 1) * 2)%Z).
      { rewrite <- (Z.pow_1_r 2) at 3. rewrite <- Z.pow_add_r by lia.
        f_equal. lia. }
      pose proof (Hpow (- (a - c) - 1)%Z ltac:(lia)) as Hp1. nia.
    + split; [lia|]. intros _.
      replace (- (a - c - 1))%Z with (- (a - c) + 1)%Z by lia.
      replace (- (a - c) + 1 - 1)%Z with (- (a - c))%Z by lia.
      rewrite Z.pow_add_r by lia. change (2 ^ 1)%Z with 2%Z.
      split; [nia|done].
Qed.

(** A finite Number value is within half a unit in the last place of
    the number it stands for: for a number from 2^-1022 on, the least
    normal double, the error is at most that number over 2^53. *)
Lemma Number_value_accurate (n : N) (d : positive) (q : Q) :
  Number_value n d = Finite q ->
  (Z.pos d <= Z.of_N n * 2 ^ 1022)%Z ->
  (Qabs (q - (Z.of_N n # d)) * inject_Z (2 ^ 53) <= Z.of_N n # d)%Q.
Proof.
  unfold Number_value. cbv zeta. intros Hq Hn.
  destruct (Z.of_N n =? 0)%Z eqn:E0.
  { apply Z.eqb_eq in E0. rewrite E0 in Hn. lia. }
  apply Z.eqb_neq in E0.
  assert (Hpos : (0 < Z.of_N n)%Z) by lia.
  assert (Hpow : forall x, (0 <= x -> 0 < 2 ^ x)%Z)
    by (intros; by apply Z.pow_pos_nonneg).
  destruct (log2_ratio_spec (Z.of_N n) (Z.pos d) Hpos eq_refl) as [Sp Sn].
  revert Hq Sp Sn. generalize (log2_ratio (Z.of_N n) (Z.pos d)).
  remember (Z.of_N n) as z eqn:Ez. clear Ez n E0. rename z into n.
  intros l Hq Sp Sn.
  assert (Hl : (-1022 <= l)%Z).
  { destruct (Z_le_gt_dec (-1022) l) as [L|L]; [done|]. exfalso.
    destruct (Sn ltac:(lia)) as [_ S2].
    assert (2 ^ 1022 <= 2 ^ (- l - 1))%Z by (apply Z.pow_le_mono_r; lia).
    nia. }
  rewrite Z.max_r in Hq by lia.
  destruct (0 <=? l - 52)%Z eqn:E; [apply Z.leb_le in E|apply Z.leb_gt in E].
  - destruct (2 ^ 1024 <=? _)%Z; [done|]. injection Hq as <-.
    destruct (Sp ltac:(lia)) as [S1 _].
    pose proof (round_half_even_error n (Z.pos d * 2 ^ (l - 52))
                  ltac:(pose proof (Hpow (l - 52)%Z E); nia)) as Herr.
    assert (El : (2 ^ l = 2 ^ (l - 52) * 2 ^ 52)%Z).
    { rewrite <- Z.pow_add_r by lia. f_equal. lia. }
    pose proof (Hpow (l - 52)%Z E) as Hp.
    revert Herr S1 El Hp.
    generalize (round_half_even n (Z.pos d * 2 ^ (l - 52))).
    generalize (2 ^ (l - 52))%Z. generalize (2 ^ l)%Z.
    intros pl pe m Herr S1 -> Hp.
    unfold Qle, Qabs, Qminus, Qplus, Qopp, Qmult, inject_Z.
    cbn [Qnum Qden].
    rewrite !Pos.mul_1_l, !Pos.mul_1_r, !Z.mul_1_r.
    change (2 ^ 53)%Z with (2 * 2 ^ 52)%Z. change (2 ^ 52)%Z with 4503599627370496%Z in *.
    assert (Hx : (Z.abs (m * pe * Z.pos d + - n) * 2 <= Z.pos d * pe)%Z).
    { replace (m * pe * Z.pos d + - n)%Z
        with (m * (Z.pos d * pe) - n)%Z by ring. lia. }
    nia.
  - injection Hq as <-. rewrite Qred_correct.
    assert (Hk : (0 < - (l - 52))%Z) by lia.
    pose proof (Hpow (- (l - 52))%Z ltac:(lia)) as Hp.
    pose proof (round_half_even_error (n * 2 ^ (- (l - 52))) (Z.pos d) eq_refl)
      as Herr.
    assert (Hbig : (Z.pos d * 2 ^ 52 <= n * 2 ^ (- (l - 52)))%Z).
    { destruct (Z_le_gt_dec 0 l) as [L|L].
      - destruct (Sp L) as [S1 _].
        assert (El : (2 ^ 52 = 2 ^ l * 2 ^ (- (l - 52)))%Z).
        { rewrite <- Z.pow_add_r by lia. f_equal. lia. }
        rewrite El. pose proof (Hpow l L). nia.
      - destruct (Sn ltac:(lia)) as [S1 _].
        assert (El : (2 ^ (- (l - 52)) = 2 ^ (- l) * 2 ^ 52)%Z).
        { rewrite <- Z.pow_add_r by lia. f_equal. lia. }
        rewrite El. nia. }
    revert Herr Hbig Hp.
    generalize (round_half_even (n * 2 ^ (- (l - 52))) (Z.pos d)).
    intros m Herr Hbig Hp.
    unfold Qle, Qabs, Qminus, Qplus, Qopp, Qmult, inject_Z.
    cbn [Qnum Qden].
    rewrite !Pos.mul_1_r, Pos2Z.inj_mul, !Z2Pos.id by done.
    revert Herr Hbig Hp. generalize (2 ^ (- (l - 52)))%Z. intros pk Herr Hbig Hp.
    change (2 ^ 53)%Z with (2 * 2 ^ 52)%Z.
    change (2 ^ 52)%Z with 4503599627370496%Z in *.
    assert (Hx : (Z.abs (m * Z.pos d + - n * pk) * 2 <= Z.pos d)%Z).
    { replace (m * Z.pos d + - n * pk)%Z with (m * Z.pos d - n * pk)%Z by ring.
      lia. }
    nia.
Qed.

(** Infinity stands for a number of at least 2^1024 - 2^970, half a
    unit in the last place above the greatest double. *)
Lemma Number_value_Infinity (n : N) (d : positive) :
  Number_value n d = Infinity ->
  ((2 ^ 1024 - 2 ^ 970) * Z.pos d <= Z.of_N n)%Z.
Proof.
  unfold Number_value. cbv zeta.
  destruct (Z.of_N n =? 0)%Z eqn:E0; [done|].
  apply Z.eqb_neq in E0.
  assert (Hpos : (0 < Z.of_N n)%Z) by lia.
  assert (Hpow : forall x, (0 <= x -> 0 < 2 ^ x)%Z)
    by (intros; by apply Z.pow_pos_nonneg).
  destruct (log2_ratio_spec (Z.of_N n) (Z.pos d) Hpos eq_refl) as [Sp _].
  revert Sp. generalize (log2_ratio (Z.of_N n) (Z.pos d)).
  remember (Z.of_N n) as z eqn:Ez. clear Ez n E0. rename z into n.
  intros l Sp.
  destruct (0 <=? Z.max (-1074) (l - 52))%Z eqn:E; [|done].
  apply Z.leb_le in E.
  assert (Hl : (52 <= l)%Z) by lia.
  rewrite Z.max_r in * by lia.
  destruct (2 ^ 1024 <=? _)%Z eqn:O; [|done]. intros _.
  apply Z.leb_le in O. destruct (Sp ltac:(lia)) as [S1 _].
  destruct (Z_le_gt_dec 1024 l) as [L|L].
  - assert (2 ^ 1024 <= 2 ^ l)%Z by (apply Z.pow_le_mono_r; lia).
    assert (0 < 2 ^ 970)%Z by done. nia.
  - pose proof (round_half_even_error n (Z.pos d * 2 ^ (l - 52))
                  ltac:(pose proof (Hpow (l - 52)%Z ltac:(lia)); nia)) as Herr.
    assert (Hle : (2 ^ (l - 52) <= 2 ^ 971)%Z)
      by (apply Z.pow_le_mono_r; lia).
    pose proof (Hpow (l - 52)%Z ltac:(lia)) as Hp.
    revert Herr O Hle Hp.
    generalize (round_half_even n (Z.pos d * 2 ^ (l - 52))).
    generalize (2 ^ (l - 52))%Z. intros pe m Herr O Hle Hp.
    change (2 ^ 971)%Z with (2 * 2 ^ 970)%Z in Hle.
    revert O Hle. generalize (2 ^ 1024)%Z, (2 ^ 970)%Z. intros A B O Hle.
    assert (Hx : (2 * (m * pe) * Z.pos d - Z.pos d * pe <= 2 * n)%Z).
    { replace (m * (Z.pos d * pe) - n)%Z
        with (m * pe * Z.pos d - n)%Z in Herr by ring. lia. }
    nia.
Qed.

(** The score of a rating is never NaN and never negative.  It is the
    Number value, the nearest double, of the decimal that is written
    in a rating of the text: when finite it differs from that number,
    if this is 2^-1022 or more, by at most the number over 2^53; it is
    Infinity only for a number of 2^1024 - 2^970 or more; and a rating
    written as a whole number below 2^53, as in "7/10", gives exactly
    that number. *)
Theorem extractHealthRating_score (text : jsstring) (r : HealthRating) :
  extractHealthRating text = Some r ->
  exists ds fs w,
    rating_phrase ds fs w /\ substring w text
    /\ let n := digits_value (ds ++ fs) in
       let d := Z.to_pos (10 ^ Z.of_nat (length fs)) in
       score r = Number_value n d
       /\ score r <> NaN
       /\ (forall q, score r = Finite q ->
             (0 <= q)%Q
             /\ ((Z.pos d <= Z.of_N n * 2 ^ 1022)%Z ->
                 (Qabs (q - (Z.of_N n # d)) * inject_Z (2 ^ 53)
                  <= Z.of_N n # d)%Q))
       /\ (score r = Infinity ->
           ((2 ^ 1024 - 2 ^ 970) * Z.pos d <= Z.of_N n)%Z)
       /\ (fs = [] -> (n < 2 ^ 53)%N ->
           score r = Finite (inject_Z (Z.of_N n))).
Proof.
  unfold extractHealthRating.
  destruct (regexp_match ratingPattern text) as [m|] eqn:Hm; [|done].
  intros [= <-]. simpl.
  apply exec_from_Some in Hm as (pre & s & y & -> & H & -> & _).
  apply matcher_sound in H as (y' & H & [= <-]).
  apply matches_ratingPattern in H as (h & ds & fs & w & Hx & Hw & Hc).
  simpl in Hx, Hc. exists ds, fs, w. split; [done|]. split.
  { exists (pre ++ h), (rest y'). by rewrite Hx, <- !app_assoc. }
  unfold group. simpl. rewrite Hc. simpl.
  destruct Hw as (_ & _ & _ & _ & _ & _ & _ & _ & Hds & Dds & Dfs & _).
  rewrite (parseFloat_decimal_text ds fs Hds Dds Dfs).
  split; [done|]. split; [apply Number_value_not_NaN|]. split.
  { intros q Hq. split; [by eapply Number_value_nonneg|].
    by apply Number_value_accurate. }
  split; [apply Number_value_Infinity|].
  intros -> Hlt. by apply Number_value_integer.
Qed.

Lemma extractHealthRating_score_witness :
  extractHealthRating (lit "Health Rating: 7.5 / 10")
  = Some {| score := Finite (15 # 2); verdict := [] |}
  /\ exists ds fs w,
       rating_phrase ds fs w
       /\ substring w (lit "Health Rating: 7.5 / 10")
       /\ Finite (15 # 2)
          = Number_value (digits_value (ds ++ fs))
                         (Z.to_pos (10 ^ Z.of_nat (length fs))).
Proof.
  split; [by vm_compute|].
  destruct (extractHealthRating_score (lit "Health Rating: 7.5 / 10")
              {| score := Finite (15 # 2); verdict := [] |})
    as (ds & fs & w & H1 & H2 & H3 & _); [by vm_compute|].
  exists ds, fs, w. split; [exact H1|]. split; [exact H2|exact H3].
Defined.

(** ** The verdict pattern *)

Lemma lang_not_newline (w : jsstring) :
  lang (Plus true not_newline) w <-> w <> [] /\ Forall (fun c => c <> LF) w.
Proof.
  unfold not_newline. rewrite lang_plus_class.
  split; intros [Hw H]; (split; [done|]);
    eapply Forall_impl; try exact H; simpl; intros c Hc.
  - intros ->. done.
  - apply negb_true_iff. by apply N.eqb_neq.
Qed.

(** What the verdict pattern matches, and what its group 1 captures. *)
Lemma matches_verdictPattern (input : jsstring) (x y : mstate) :
  matches input verdictPattern x y ->
  exists header colon ws body,
    rest x = header ++ colon ++ ws ++ body ++ rest y
    /\ same_letters header (lit "OVERALL VERDICT")
    /\ (colon = [] \/ colon = [58%N])
    /\ all_white ws
    /\ body <> [] /\ Forall (fun c => c <> LF) body
    /\ captures y = (1, body) :: captures x.
Proof.
  unfold verdictPattern. intros (m1 & H1 & m2 & H2 & m3 & H3 & H4).
  apply matches_plain in H1 as (header & E1 & L1%lang_literal_i & C1);
    [|reflexivity..].
  apply matches_plain in H2 as (colon & E2 & L2 & C2); [|reflexivity..].
  apply matches_plain in H3 as (ws & E3 & L3%lang_star_class & C3);
    [|reflexivity..].
  apply matches_group in H4 as (body & E4 & [Hb Nb]%lang_not_newline & C4);
    [|reflexivity..].
  exists header, colon, ws, body.
  split; [by rewrite E1, E2, E3, E4|]. split; [done|]. split.
  - destruct L2 as [-> | ->%lang_chr]; auto.
  - repeat split; try done. by rewrite C4, C3, C2, C1.
Qed.

(** The verdict of a rating is one trimmed line of the text: it has no
    newline, it neither begins nor ends with white space, it is a piece
    of the text, and it is empty unless the text has the header
    "OVERALL VERDICT" in some letter case. *)
Theorem extractHealthRating_verdict_line (text : jsstring) (r : HealthRating) :
  extractHealthRating text = Some r ->
  Forall (fun c => c <> LF) (verdict r)
  /\ (forall c u, verdict r = c :: u -> is_white_space c = false)
  /\ (forall u c, verdict r = u ++ [c] -> is_white_space c = false)
  /\ substring (verdict r) text
  /\ (verdict r <> [] ->
      exists header, same_letters header (lit "OVERALL VERDICT")
                     /\ substring header text).
Proof.
  unfold extractHealthRating.
  destruct (regexp_match ratingPattern text) as [m|]; [|done].
  intros [= <-]. simpl.
  destruct (regexp_match verdictPattern text) as [v|] eqn:Hv.
  - apply exec_from_Some in Hv as (pre & s & y & -> & H & -> & _).
    apply matcher_sound in H as (y' & H & [= <-]).
    apply matches_verdictPattern
      in H as (header & colon & ws & body & Hx & Hh & _ & _ & _ & Nb & Hc).
    simpl in Hx, Hc. unfold captured, group. simpl. rewrite Hc. simpl.
    split; [by apply trim_Forall|].
    split; [apply trim_head|]. split; [apply trim_last|]. split.
    + destruct (trim_decompose body) as (a & b & E & _).
      exists (pre ++ header ++ colon ++ ws ++ a), (b ++ rest y').
      rewrite Hx. rewrite E at 1. by rewrite <- !app_assoc.
    + intros _. exists header. split; [done|].
      exists pre, (colon ++ ws ++ body ++ rest y'). by rewrite Hx.
  - split; [constructor|]. split; [done|].
    split; [by intros [|??] ? ?|]. split; [|done].
    by exists [], text.
Qed.

Lemma extractHealthRating_verdict_line_witness :
  extractHealthRating
    (lit "overall verdict:  Eat rarely. " ++ [LF] ++ lit "Rating: 3/10")
  = Some {| score := Finite 3; verdict := lit "Eat rarely." |}
  /\ Forall (fun c => c <> LF) (lit "Eat rarely.")
  /\ substring (lit "Eat rarely.")
       (lit "overall verdict:  Eat rarely. " ++ [LF] ++ lit "Rating: 3/10").
Proof.
  split; [by vm_compute|].
  destruct (extractHealthRating_verdict_line
              (lit "overall verdict:  Eat rarely. " ++ [LF] ++ lit "Rating: 3/10")
              {| score := Finite 3; verdict := lit "Eat rarely." |})
    as (H1 & _ & _ & H2 & _); [by vm_compute|].
  split; [exact H1|exact H2].
Defined.

(** ** Running the matcher on the pieces of a section pattern *)

(** A literal under the [i] flag consumes a prefix that reads the same
    up to the case of letters. *)
Lemma matcher_literal_i (input : jsstring) (h w t : jsstring)
    (caps : list (nat * jsstring)) (k : cont) :
  same_letters w h ->
  matcher input (literal_i h) k (MState (w ++ t) caps) = k (MState t caps).
Proof.
  intros H. revert k. induction H as [|c a w h Hc Hw IH]; intros k; [done|].
  destruct h as [|b h].
  - apply Forall2_nil_inv_r in Hw as ->. simpl. by rewrite Hc.
  - change (literal_i (a :: b :: h))
      with (Seq (chr_i a) (literal_i (b :: h))).
    cbn [matcher]. unfold chr_i at 1. cbn [matcher rest app captures].
    rewrite Hc. apply IH.
Qed.

(** [\s*], greedy, skips all the white space ahead when the rest of
    the pattern matches after it. *)
Lemma matcher_star_space (input : jsstring) (k : cont)
    (caps : list (nat * jsstring)) (t : jsstring) :
  is_Some (k (MState (trimStart t) caps)) ->
  matcher input (Star true space) k (MState t caps)
  = k (MState (trimStart t) caps).
Proof.
  intros Hk. cbn [matcher rest].
  assert (H : forall fuel, length t <= fuel ->
            repeat_matcher (matcher input space) true k fuel (MState t caps)
            = k (MState (trimStart t) caps)); [|by apply H].
  induction t as [|c t IH]; intros fuel Hfuel;
    rewrite repeat_matcher_unfold; cbv zeta; unfold space at 1;
    cbn [matcher rest captures]; [done|].
  simpl trimStart in *. destruct (is_white_space c) eqn:Ec; [|done].
  simpl in Hfuel. destruct fuel as [|fuel]; [lia|].
  assert (L : (length t <? length (c :: t)) = true)
    by (apply Nat.ltb_lt; simpl; lia).
  rewrite L, IH; [|done|lia]. by destruct Hk as [z ->].
Qed.

(** The optional colon is taken when it is there and the rest of the
    pattern matches after it. *)
Lemma matcher_opt_colon (input : jsstring) (k : cont)
    (caps : list (nat * jsstring)) (tail : jsstring) :
  is_Some (k (MState (after_colon tail) caps)) ->
  matcher input (Opt true (chr 58)) k (MState tail caps)
  = k (MState (after_colon tail) caps).
Proof.
  intros Hk. cbn [matcher]. unfold chr. cbn [matcher rest captures].
  destruct tail as [|c t]; [done|].
  destruct (58 =? c)%N eqn:Ec.
  - apply N.eqb_eq in Ec as <-. simpl after_colon in *.
    assert (L : (length t <? length (58%N :: t)) = true)
      by (apply Nat.ltb_lt; simpl; lia).
    rewrite L. by destruct Hk as [z ->].
  - apply N.eqb_neq in Ec.
    assert (after_colon (c :: t) = c :: t) as ->; [|done].
    unfold after_colon. destruct c as [|p]; [done|].
    repeat (destruct p as [p|p|]; try done).
Qed.

Lemma matcher_seq (input : jsstring) (r1 r2 : regex) (k : cont) (x : mstate) :
  matcher input (Seq r1 r2) k x = matcher input r1 (matcher input r2 k) x.
Proof. reflexivity. Qed.

Lemma iter_any (input : jsstring) (s : jsstring) (caps : list (nat * jsstring)) :
  iter (matches input any) (MState s caps) (MState [] caps).
Proof.
  induction s as [|c s IH]; [constructor|].
  apply (iter_step _ _ (MState s caps)); [by exists c|simpl; lia|exact IH].
Qed.

(** The end of a section pattern matches from everywhere: at worst the
    group takes all that is left. *)
Lemma sectionTail_total (input : jsstring) (x : mstate) :
  is_Some (matcher input sectionTail Some x).
Proof.
  apply matcher_is_Some. destruct x as [s caps].
  exists (MState [] ((1, s) :: caps)).
  exists (MState [] ((1, s) :: caps)). split.
  - exists (MState [] caps). split; [apply iter_any|].
    simpl. by rewrite Nat.sub_0_r, firstn_all.
  - eexists. split; reflexivity.
Qed.

(** At the end of the text the group is empty. *)
Lemma sectionTail_end (input : jsstring) (caps : list (nat * jsstring)) :
  matcher input sectionTail Some (MState [] caps)
  = Some (MState [] ((1, []) :: caps)).
Proof. reflexivity. Qed.

Lemma trim_nonwhite_head (c : code_unit) (w : jsstring) :
  is_white_space c = false -> trim (c :: w) <> [].
Proof.
  intros Hc. unfold trim. rewrite (trimStart_id c w Hc).
  destruct (trimEnd_decompose (c :: w)) as (b & E & Hb).
  intros H. rewrite H in E. simpl in E. subst b. simpl in Hb.
  by rewrite Hc in Hb.
Qed.

(** Before a character that is not white space the group is not empty,
    and neither is its trimmed text. *)
Lemma sectionTail_nonwhite (input : jsstring) (c : code_unit) (t : jsstring)
    (caps : list (nat * jsstring)) :
  is_white_space c = false ->
  exists y g, matcher input sectionTail Some (MState (c :: t) caps) = Some y
              /\ captures y = (1, g) :: caps /\ trim g <> [].
Proof.
  intros Hc.
  destruct (sectionTail_total input (MState (c :: t) caps)) as [y Hy].
  exists y. pose proof Hy as H.
  apply matcher_sound in H as (y' & (m & Hg & Hl) & [= <-]).
  apply matches_group in Hg as (w & E & _ & C); [|reflexivity..].
  unfold AnalysisDisplay.lookahead in Hl. destruct Hl as (m' & Hm' & ->).
  apply matcher_sound in Hm' as (m'' & Hm'' & [= <-]).
  apply matches_no_group in Hm'' as C'; [|reflexivity].
  cbn [rest captures] in *.
  exists w. split; [done|]. split; [by rewrite C', C|].
  destruct w as [|d w].
  - exfalso. cbn [app] in E.
    destruct Hm'' as [(m1 & (a & Ha & Hp & _) & _)|[_ He]].
    + rewrite <- E in Ha. injection Ha as -> _.
      unfold LF in Hp. apply N.eqb_eq in Hp. subst a. done.
    + by rewrite <- E in He.
  - injection E as -> _. by apply trim_nonwhite_head.
Qed.

(** A section pattern at a place where the header stands: the colon
    and the white space are skipped and the end of the pattern runs. *)
Lemma matcher_sectionPattern (input : jsstring) (hdr : string)
    (w tail : jsstring) (caps : list (nat * jsstring)) :
  same_letters w (lit hdr) ->
  matcher input (sectionPattern hdr) Some (MState (w ++ tail) caps)
  = matcher input sectionTail Some
      (MState (trimStart (after_colon tail)) caps).
Proof.
  intros Hw. unfold sectionPattern.
  rewrite matcher_seq, (matcher_literal_i _ _ _ _ _ _ Hw), matcher_seq.
  assert (Hs : forall t,
            matcher input
              (Seq (Star true space)
                   (Seq (Group 1 (Star false any)) AnalysisDisplay.lookahead))
              Some (MState t caps)
            = matcher input sectionTail Some (MState (trimStart t) caps)).
  { intros t. rewrite matcher_seq. apply matcher_star_space.
    apply sectionTail_total. }
  rewrite matcher_opt_colon; [apply Hs|].
  rewrite Hs. apply sectionTail_total.
Qed.

(** A section pattern matches at a place only when the header stands
    there. *)
Lemma sectionPattern_prefix (input : jsstring) (hdr : string) (s : jsstring) :
  is_Some (matcher input (sectionPattern hdr) Some (MState s [])) ->
  exists w tail, s = w ++ tail /\ same_letters w (lit hdr).
Proof.
  intros [y H]. apply matcher_sound in H as (y' & (m & Hm & _) & _).
  apply matches_suffix in Hm as Hs. 
  pose proof Hm as Hl. apply matches_lang in Hl as (w & E & L).
  - simpl in E. exists w, (rest m). split; [done|]. by apply lang_literal_i.
  - clear. induction (lit hdr) as [|a [|b l] IH]; [done|done|]. exact IH.
Qed.

Lemma exec_from_first (input : jsstring) (r : regex) (pre s : jsstring)
    (y : mstate) (i : nat) :
  (forall p q, pre = p ++ q -> q <> [] ->
     matcher input r Some (MState (q ++ s) []) = None) ->
  matcher input r Some (MState s []) = Some y ->
  exec_from input r i (pre ++ s)
  = Some (MatchResult (i + length pre)
            (take (length s - length (rest y)) s) (captures y)).
Proof.
  revert i. induction pre as [|c pre IH]; intros i Hleft Hy.
  - simpl. rewrite Nat.add_0_r. destruct s; simpl; by rewrite Hy.
  - assert (H0 := Hleft [] (c :: pre) eq_refl). simpl in *.
    rewrite H0; [|done].
    rewrite IH; [by rewrite Nat.add_succ_r|..|done].
    intros p q -> Hq. by apply (Hleft (c :: p) q).
Qed.

Lemma all_white_trimStart (s : jsstring) : all_white s <-> trimStart s = [].
Proof.
  unfold all_white. split.
  - intros H. apply trimStart_spaces. apply forallb_forall.
    intros c Hc. rewrite Forall_forall in H. apply H.
    by apply list_elem_of_In.
  - intros H. apply trimStart_nil_spaces in H. rewrite forallb_forall in H.
    apply Forall_forall. intros c Hc. apply H. by apply list_elem_of_In.
Qed.

Lemma app_eq_shorter {A : Type} (p p' s s' : list A) :
  p ++ s = p' ++ s' -> length p' < length p ->
  exists q, q <> [] /\ p = p' ++ q /\ s' = q ++ s.
Proof.
  revert p'. induction p as [|a p IH]; intros p' E L; simpl in *; [lia|].
  destruct p' as [|a' p']; simpl in *.
  - exists (a :: p). by subst.
  - injection E as -> E. destruct (IH p' E) as (q & Hq & -> & ->); [lia|].
    by exists q.
Qed.

(** The match of a section pattern starts at the first occurrence of
    its header. *)
Lemma regexp_match_sectionPattern (hdr : string) (text pre w tail : jsstring) :
  first_occurrence (lit hdr) text pre w tail ->
  exists y,
    matcher text sectionTail Some (MState (trimStart (after_colon tail)) [])
    = Some y
    /\ regexp_match (sectionPattern hdr) text
       = Some (MatchResult (length pre)
                 (take (length (w ++ tail) - length (rest y)) (w ++ tail))
                 (captures y)).
Proof.
  intros (-> & Hw & Hfirst).
  destruct (sectionTail_total (pre ++ w ++ tail)
              (MState (trimStart (after_colon tail)) [])) as [y Hy].
  exists y. split; [done|]. unfold regexp_match.
  rewrite (exec_from_first _ _ pre (w ++ tail) y 0); [done| |].
  - intros p q -> Hq.
    destruct (matcher _ (sectionPattern hdr) Some (MState (q ++ w ++ tail) []))
      as [z|] eqn:E; [|done]. exfalso.
    destruct (sectionPattern_prefix ((p ++ q) ++ w ++ tail) hdr
                (q ++ w ++ tail)) as (w' & tail' & E' & Hw');
      [by rewrite E|].
    specialize (Hfirst p w' tail'). rewrite <- E', <- app_assoc in Hfirst.
    specialize (Hfirst eq_refl Hw'). rewrite length_app in Hfirst.
    destruct q; [done|]. simpl in Hfirst. lia.
  - by rewrite matcher_sectionPattern.
Qed.

(** Without an occurrence of the header the pattern does not match. *)
Lemma regexp_match_sectionPattern_first (hdr : string) (text : jsstring)
    (m : match_result) :
  regexp_match (sectionPattern hdr) text = Some m ->
  exists pre w tail, first_occurrence (lit hdr) text pre w tail.
Proof.
  intros H. apply exec_from_Some in H as (pre & s & y & -> & Hy & _ & Hleft).
  destruct (sectionPattern_prefix (pre ++ s) hdr s) as (w & tail & -> & Hw);
    [by rewrite Hy|].
  exists pre, w, tail. split; [done|]. split; [done|].
  intros pre' w' tail' E Hw'.
  destruct (Nat.le_gt_cases (length pre) (length pre')) as [|L]; [done|].
  exfalso. destruct (app_eq_shorter _ _ _ _ E L) as (q & Hq & -> & E').
  specialize (Hleft pre' q eq_refl Hq). rewrite <- E' in Hleft.
  rewrite (matcher_sectionPattern _ _ _ _ _ Hw') in Hleft.
  destruct (sectionTail_total ((pre' ++ q) ++ w ++ tail)
              (MState (trimStart (after_colon tail')) [])) as [z Hz].
  congruence.
Qed.

(** When a named section is in the result: its header occurs in the
    text, in any letter case, and after the first occurrence and its
    optional colon some character is not white space. *)
Theorem parseAnalysisText_present (text : jsstring) (p : SectionPattern)
    (hdr : string) :
  p ∈ sectionPatterns ->
  pattern p = sectionPattern hdr ->
  has_section (parseAnalysisText text) (sp_title p)
  <-> exists pre w tail,
        first_occurrence (lit hdr) text pre w tail
        /\ ~ all_white (after_colon tail).
Proof.
  intros Hp Hpat. rewrite (has_section_iff text p Hp). split.
  - intros Hne.
    destruct (pushSection_spec text p) as [[E _]|(m & Hm & Ht & _)]; [done|].
    rewrite Hpat in Hm.
    destruct (regexp_match_sectionPattern_first _ _ _ Hm)
      as (pre & w & tail & Hfirst).
    exists pre, w, tail. split; [done|]. intros Hwhite.
    destruct (regexp_match_sectionPattern _ _ _ _ _ Hfirst) as (y & Hy & Hm').
    apply all_white_trimStart in Hwhite. rewrite Hwhite in Hy.
    rewrite sectionTail_end in Hy. injection Hy as <-.
    rewrite Hm in Hm'. injection Hm' as ->. by apply Ht.
  - intros (pre & w & tail & Hfirst & Hwhite) Hnil.
    destruct (regexp_match_sectionPattern _ _ _ _ _ Hfirst) as (y & Hy & Hm).
    destruct (trimStart (after_colon tail)) as [|c t] eqn:E.
    { apply Hwhite. by apply all_white_trimStart. }
    apply trimStart_head in E as Hc.
    destruct (sectionTail_nonwhite (pre ++ w ++ tail) c t [] Hc)
      as (y' & g & Hy' & Hg & Htrim).
    destruct Hfirst as (-> & _). rewrite Hy' in Hy. injection Hy as <-.
    destruct (pushSection_spec (pre ++ w ++ tail) p)
      as [[_ [Hm'|(m & Hm' & Ht)]]|(m & _ & _ & E')];
      rewrite ?Hpat in *.
    + congruence.
    + rewrite Hm in Hm'. injection Hm' as <-.
      unfold captured, group in Ht. simpl in Ht. rewrite Hg in Ht. by simpl in Ht.
    + by rewrite Hnil in E'.
Qed.

Lemma parseAnalysisText_present_witness :
  exists p, p ∈ sectionPatterns
    /\ pattern p = sectionPattern "KEY RISKS"
    /\ (has_section (parseAnalysisText (lit "Key risks - sugar")) (sp_title p)
        <-> exists pre w tail,
              first_occurrence (lit "KEY RISKS") (lit "Key risks - sugar")
                pre w tail
              /\ ~ all_white (after_colon tail)).
Proof.
  exists {| pattern := sectionPattern "KEY RISKS"; sp_title := lit "Key Risks";
            sp_icon := AlertTriangle; sp_color := lit "red" |}.
  assert (H : {| pattern := sectionPattern "KEY RISKS";
                 sp_title := lit "Key Risks";
                 sp_icon := AlertTriangle; sp_color := lit "red" |}
              ∈ sectionPatterns) by (right; left).
  split; [exact H|]. split; [reflexivity|].
  exact (parseAnalysisText_present (lit "Key risks - sugar") _ "KEY RISKS" H
           eq_refl).
Defined.

Lemma literal_i_plain (h : jsstring) :
  plain (literal_i h) = true /\ no_group (literal_i h) = true.
Proof. induction h as [|a [|b l] IH]; [done|done|]. exact IH. Qed.

(** What a section pattern matches, and what its group 1 captures. *)
Lemma matches_sectionPattern (input : jsstring) (hdr : string) (x y : mstate) :
  matches input (sectionPattern hdr) x y ->
  exists header g,
    rest x = header ++ g ++ rest y
    /\ same_letters (take (length (lit hdr)) header) (lit hdr)
    /\ exists skipped, header = take (length (lit hdr)) header ++ skipped
    /\ captures y = (1, g) :: captures x.
Proof.
  unfold sectionPattern. intros (m1 & H1 & m2 & H2 & m3 & H3 & m4 & H4 & H5).
  destruct (literal_i_plain (lit hdr)) as [Hp Hg].
  apply matches_plain in H1 as (header & E1 & L1%lang_literal_i & C1);
    [|done..].
  apply matches_plain in H2 as (colon & E2 & _ & C2); [|reflexivity..].
  apply matches_plain in H3 as (ws & E3 & _ & C3); [|reflexivity..].
  apply matches_group in H4 as (g & E4 & _ & C4); [|reflexivity..].
  unfold AnalysisDisplay.lookahead in H5. destruct H5 as (m' & Hm' & ->).
  apply matcher_sound in Hm' as (m'' & Hm'' & [= <-]).
  apply matches_no_group in Hm'' as C5; [|reflexivity].
  cbn [rest captures].
  pose proof (Forall2_length _ _ _ L1) as Hlen.
  exists (header ++ colon ++ ws), g. split.
  - rewrite E1, E2, E3, E4. by rewrite <- !app_assoc.
  - rewrite <- Hlen, take_app_length. split; [done|].
    exists (colon ++ ws). split; [done|].
    by rewrite C5, C4, C3, C2, C1.
Qed.

(** Every section of the result has a content that is not empty,
    neither begins nor ends with white space, and is a piece of the
    text; there are at most five sections. *)
Theorem parseAnalysisText_contents (text : jsstring) (s : Section) :
  s ∈ parseAnalysisText text ->
  content s <> []
  /\ (forall c u, content s = c :: u -> is_white_space c = false)
  /\ (forall u c, content s = u ++ [c] -> is_white_space c = false)
  /\ substring (content s) text
  /\ length (parseAnalysisText text) <= 5.
Proof.
  intros Hs. rewrite parseAnalysisText_concat in Hs.
  apply elem_of_concat_map in Hs as (q & Hq & Hs).
  destruct (pushSection_spec text q) as [[E _]|(m & Hm & Ht & E)];
    rewrite E in Hs; [by apply elem_of_nil in Hs|].
  apply list_elem_of_singleton in Hs as ->. simpl.
  split; [done|]. split; [apply trim_head|]. split; [apply trim_last|].
  split.
  - assert (exists hdr, pattern q = sectionPattern hdr) as [hdr Hpat].
    { unfold sectionPatterns in Hq.
      repeat (apply elem_of_cons in Hq as [->|Hq]; [by eexists|]).
      by apply elem_of_nil in Hq. }
    rewrite Hpat in Hm.
    apply exec_from_Some in Hm as (pre & s' & y & -> & H & -> & _).
    apply matcher_sound in H as (y' & H & [= <-]).
    apply matches_sectionPattern in H as (header & g & Hx & _ & _ & _ & Hc).
    cbn [rest captures] in *. unfold captured, group. cbn [groups].
    rewrite Hc. simpl.
    destruct (trim_decompose g) as (a & b & Eg & _).
    exists (pre ++ header ++ a), (b ++ rest y').
    rewrite Hx. rewrite Eg at 1. by rewrite <- !app_assoc.
  - pose proof (titles_parseAnalysisText text) as [Hsub _].
    apply sublist_length in Hsub. by rewrite !length_map in Hsub.
Qed.

Lemma parseAnalysisText_contents_witness :
  exists s, s ∈ parseAnalysisText (lit "Summary:   a salty snack  ")
    /\ content s = lit "a salty snack"
    /\ substring (content s) (lit "Summary:   a salty snack  ").
Proof.
  exists {| title := lit "Summary"; content := lit "a salty snack";
            icon_of := Some Award; color := Some (lit "purple") |}.
  assert (H : {| title := lit "Summary"; content := lit "a salty snack";
                 icon_of := Some Award; color := Some (lit "purple") |}
              ∈ parseAnalysisText (lit "Summary:   a salty snack  ")).
  { vm_compute. left. }
  split; [exact H|]. split; [reflexivity|].
  exact (proj1 (proj2 (proj2 (proj2
           (parseAnalysisText_contents _ _ H))))).
Defined.

(** ** AnalysisDisplay: [formatContent] *)

Import AnalysisDisplayView.

Lemma split_lines_no_LF (s l : jsstring) :
  l ∈ split_lines s -> Forall (fun c => c <> LF) l.
Proof.
  revert l. induction s as [|c s IH]; intros l; simpl.
  - intros ->%list_elem_of_singleton. constructor.
  - destruct (c =? LF)%N eqn:Ec.
    + intros [->|H]%elem_of_cons; [constructor|by apply IH].
    + apply N.eqb_neq in Ec.
      destruct (split_lines s) as [|l0 ls] eqn:E.
      * intros ->%list_elem_of_singleton. by repeat constructor.
      * intros [->|H]%elem_of_cons.
        -- constructor; [done|]. apply IH. left.
        -- apply IH. by right.
Qed.

(** Every line that [formatContent] returns is not empty, has no line
    feed and neither begins nor ends with white space. *)
Theorem formatContent_lines (content line : jsstring) :
  line ∈ formatContent content ->
  line <> []
  /\ Forall (fun c => c <> LF) line
  /\ (forall c u, line = c :: u -> is_white_space c = false)
  /\ (forall u c, line = u ++ [c] -> is_white_space c = false).
Proof.
  unfold formatContent. intros [Hlen H]%list_elem_of_filter.
  apply list_elem_of_fmap in H as (l & -> & Hl).
  split; [intros E; rewrite E in Hlen; simpl in Hlen; lia|].
  split; [apply trim_Forall; by eapply split_lines_no_LF|].
  split; [apply trim_head|apply trim_last].
Qed.

Lemma formatContent_lines_witness :
  lit "low in sugar" ∈ formatContent (lit "  low in sugar \n\n - but salty")
  /\ Forall (fun c => c <> LF) (lit "low in sugar").
Proof.
  assert (H : lit "low in sugar"
              ∈ formatContent (lit "  low in sugar \n\n - but salty"))
    by (vm_compute; left).
  split; [exact H|].
  exact (proj1 (proj2 (formatContent_lines _ _ H))).
Defined.

(** ** AnalysisDisplay: the sections made of the array *)

Lemma lit_inj (s t : string) : lit s = lit t -> s = t.
Proof.
  unfold lit. intros H.
  rewrite <- (string_of_list_ascii_of_string s),
          <- (string_of_list_ascii_of_string t).
  f_equal. revert H.
  generalize (list_ascii_of_string s), (list_ascii_of_string t).
  intros l. induction l as [|a l IH]; intros [|b l']; simpl; try done.
  intros [= Hab Hl]. f_equal; [|by apply IH].
  rewrite <- (ascii_N_embedding a), <- (ascii_N_embedding b). by rewrite Hab.
Qed.

(** Two positions have two decimal renderings. *)
Lemma index_key_inj (i j : nat) : index_key i = index_key j -> i = j.
Proof.
  unfold index_key. intros H%lit_inj.
  apply DecimalNat.Unsigned.to_uint_inj.
  assert (E : forall d, DecimalString.NilEmpty.uint_of_string
                          (DecimalString.NilEmpty.string_of_uint d) = Some d)
    by apply DecimalString.NilEmpty.usu.
  pose proof (E (Nat.to_uint i)) as Ei. rewrite H, E in Ei. congruence.
Qed.

Lemma sectionFromEntry_spec (i : nat) (x : jsstring) :
  sectionFromEntry i x
  = if decide (trim x = []) then None else Some (section_at i x).
Proof.
  unfold sectionFromEntry.
  assert (E : negb (nonempty x) || (length (trim x) =? 0)
              = if decide (trim x = []) then true else false).
  { destruct (decide (trim x = [])) as [E|E].
    - rewrite E. apply orb_true_r.
    - destruct x as [|c x]; [done|]. simpl negb. simpl orb.
      destruct (trim (c :: x)); done. }
  rewrite E. destruct (decide (trim x = [])); [done|].
  do 6 (destruct i as [|i]; [reflexivity|]). reflexivity.
Qed.

Lemma elem_of_sectionsFromArray (l : list jsstring) (s : Section) :
  s ∈ sectionsFromArray l
  <-> exists i x, l !! i = Some x /\ trim x <> [] /\ s = section_at i x.
Proof.
  unfold sectionsFromArray. rewrite list_elem_of_omap. split.
  - intros (o & Ho & Eo). simpl in Eo. subst o.
    apply elem_of_lookup_imap in Ho as (i & x & Ho & Hx).
    rewrite sectionFromEntry_spec in Ho.
    destruct (decide (trim x = [])); [done|]. injection Ho as ->. eauto.
  - intros (i & x & Hx & Ht & ->). exists (Some (section_at i x)).
    split; [|done]. apply elem_of_lookup_imap. exists i, x. split; [|done].
    rewrite sectionFromEntry_spec. by destruct (decide (trim x = [])).
Qed.

Lemma content_section_at (i : nat) (x : jsstring) :
  content (section_at i x) = x.
Proof. by destruct i as [|[|[|[|[|[|i]]]]]]. Qed.

Lemma sectionsFromArray_from (l : list jsstring) (n : nat) :
  omap (fun s => s) (imap (fun i => sectionFromEntry (n + i)) l)
  = map (fun p => section_at p.1 p.2)
        (filter (fun p => trim p.2 <> []) (zip (seq n (length l)) l)).
Proof.
  revert n. induction l as [|x l IH]; intros n; [done|].
  rewrite imap_cons.
  assert (E : imap ((fun i => sectionFromEntry (n + i)) ∘ S) l
              = imap (fun i => sectionFromEntry (S n + i)) l).
  { apply imap_ext. intros i y _. simpl. f_equal. lia. }
  rewrite E. cbn [omap list_omap length seq zip zip_with].
  rewrite IH, Nat.add_0_r, sectionFromEntry_spec, filter_cons. cbn [fst snd].
  by destruct (decide (trim x = [])), (decide (trim x <> [])).
Qed.

(** The array gives exactly one section for each entry that is not
    blank, in the order of the entries: the sections are the entries
    that are not blank, each with the title, icon and color of its
    position in the array, so that a blank entry leaves a gap and
    does not shift the titles after it.  The contents are the entries
    themselves, unchanged. *)
Theorem sectionsFromArray_positions (l : list jsstring) :
  sectionsFromArray l
  = map (fun p => section_at p.1 p.2)
        (filter (fun p => trim p.2 <> []) (zip (seq 0 (length l)) l))
  /\ map content (sectionsFromArray l) = filter (fun x => trim x <> []) l
  /\ length (sectionsFromArray l) <= length l.
Proof.
  assert (E : sectionsFromArray l
              = map (fun p => section_at p.1 p.2)
                  (filter (fun p => trim p.2 <> [])
                     (zip (seq 0 (length l)) l)))
    by apply (sectionsFromArray_from l 0).
  assert (C : forall n,
             map content
               (map (fun p => section_at p.1 p.2)
                  (filter (fun p => trim p.2 <> [])
                     (zip (seq n (length l)) l)))
             = filter (fun x => trim x <> []) l).
  { clear E. induction l as [|x l IH]; intros n; [done|].
    cbn [length seq zip zip_with]. rewrite !filter_cons. cbn [fst snd].
    destruct (decide (trim x <> [])); cbn [map fst snd].
    - by rewrite content_section_at, IH.
    - apply IH. }
  split; [exact E|]. split; [by rewrite E|].
  rewrite <- (length_map content), E, C. apply length_filter.
Qed.

Lemma title_section_at_big (i : nat) (x : jsstring) :
  6 <= i -> title (section_at i x) = lit "Section " ++ index_key (i + 1).
Proof.
  intros H. destruct i as [|[|[|[|[|[|i]]]]]]; try lia. reflexivity.
Qed.

Lemma title_section_at_small (i : nat) (x : jsstring) :
  i < 6 -> take 8 (title (section_at i x)) <> lit "Section ".
Proof.
  intros H. destruct i as [|[|[|[|[|[|i]]]]]]; try lia; by vm_compute.
Qed.

Lemma title_section_at_inj (i j : nat) (x y : jsstring) :
  title (section_at i x) = title (section_at j y) -> i = j.
Proof.
  assert (Hsec : forall n, take 8 (lit "Section " ++ index_key n)
                           = lit "Section ") by done.
  intros H. destruct (le_lt_dec 6 i) as [Hi|Hi], (le_lt_dec 6 j) as [Hj|Hj].
  - rewrite !title_section_at_big in H by done.
    apply app_inv_head, index_key_inj in H. lia.
  - exfalso. apply (title_section_at_small j y Hj).
    rewrite <- H, title_section_at_big by done. apply Hsec.
  - exfalso. apply (title_section_at_small i x Hi).
    rewrite H, title_section_at_big by done. apply Hsec.
  - destruct i as [|[|[|[|[|[|i]]]]]]; try lia;
      destruct j as [|[|[|[|[|[|j]]]]]]; try lia;
      first [reflexivity | by vm_compute in H].
Qed.

Lemma sectionsFromArray_offset (l : list jsstring) (n : nat) :
  NoDup (map title (omap (fun s => s)
                      (imap (fun i => sectionFromEntry (n + i)) l)))
  /\ forall t,
       t ∈ map title (omap (fun s => s)
                        (imap (fun i => sectionFromEntry (n + i)) l)) ->
       exists k x, n <= k /\ t = title (section_at k x).
Proof.
  revert n. induction l as [|x l IH]; intros n.
  - split; [constructor|]. by intros t ?%elem_of_nil.
  - rewrite imap_cons.
    assert (E : imap ((fun i => sectionFromEntry (n + i)) ∘ S) l
                = imap (fun i => sectionFromEntry (S n + i)) l).
    { apply imap_ext. intros i y _. simpl. f_equal. lia. }
    rewrite E. destruct (IH (S n)) as [Hnd Hin].
    cbn [omap list_omap]. rewrite Nat.add_0_r, sectionFromEntry_spec.
    destruct (decide (trim x = [])).
    + split; [done|]. intros t Ht. destruct (Hin t Ht) as (k & y & Hk & ->).
      exists k, y. split; [lia|done].
    + cbn [map]. split.
      * constructor; [|done]. intros Ht.
        destruct (Hin _ Ht) as (k & y & Hk & Hkt).
        apply title_section_at_inj in Hkt. lia.
      * intros t [-> | Ht]%elem_of_cons; [by exists n, x|].
        destruct (Hin t Ht) as (k & y & Hk & ->). exists k, y.
        split; [lia|done].
Qed.

(** The titles of the sections that the component shows are pairwise
    distinct, whatever the text and the array: a title identifies its
    section, as the key of the card and in [expandedSections]. *)
Theorem sections_titles_distinct (analysisText : jsstring)
    (analysisSections : list jsstring) :
  NoDup (map title (sections analysisText analysisSections)).
Proof.
  unfold sections.
  destruct (0 <? length (sectionsFromArray analysisSections)).
  - unfold sectionsFromArray.
    destruct (sectionsFromArray_offset analysisSections 0) as [H _].
    exact H.
  - apply titles_parseAnalysisText.
Qed.

(** The text is parsed only when the array gives no section: with an
    entry that is not blank the sections are those of the array, with
    blank entries only (or none) they are those of the text. *)
Theorem sections_source (analysisText : jsstring)
    (analysisSections : list jsstring) :
  sections analysisText analysisSections
  = if decide (Forall (fun x => trim x = []) analysisSections)
    then parseAnalysisText analysisText
    else sectionsFromArray analysisSections.
Proof.
  unfold sections.
  destruct (decide (Forall (fun x => trim x = []) analysisSections)) as [H|H].
  - assert (E : sectionsFromArray analysisSections = []).
    { destruct (sectionsFromArray analysisSections) as [|s l] eqn:E; [done|].
      assert (Hs : s ∈ sectionsFromArray analysisSections)
        by (rewrite E; left).
      apply elem_of_sectionsFromArray in Hs as (i & x & Hx & Ht & _).
      rewrite Forall_forall in H. exfalso. apply Ht, H.
      by eapply list_elem_of_lookup_2. }
    by rewrite E.
  - apply not_Forall_Exists in H; [|intros x; apply _].
    apply Exists_exists in H as (x & Hx & Ht).
    apply list_elem_of_lookup_1 in Hx as [i Hi].
    assert (Hs : section_at i x ∈ sectionsFromArray analysisSections).
    { apply elem_of_sectionsFromArray. eauto. }
    destruct (sectionsFromArray analysisSections); [|done].
    by apply elem_of_nil in Hs.
Qed.

(** ** AnalysisDisplay: [toggleSection] *)

(** Toggling a section inverts whether it is expanded and leaves every
    other section as it is; toggling twice gives back what was shown;
    at first every section is expanded. *)
Theorem toggleSection_spec (prev : gmap (list N) bool) (t u : jsstring)
    (secs : list Section) :
  expanded (toggleSection t prev) t = negb (expanded prev t)
  /\ (u <> t -> expanded (toggleSection t prev) u = expanded prev u)
  /\ expanded (toggleSection t (toggleSection t prev)) u = expanded prev u
  /\ (u ∈ map title secs -> expanded (initialExpanded secs) u = true).
Proof.
  unfold expanded, toggleSection. repeat split.
  - by rewrite lookup_insert_eq.
  - intros Hu. by rewrite lookup_insert_ne.
  - destruct (decide (u = t)) as [->|Hu].
    + rewrite !lookup_insert_eq. simpl. apply negb_involutive.
    + by rewrite !lookup_insert_ne.
  - unfold initialExpanded.
    assert (H : forall acc : gmap (list N) bool,
              (u ∈ map title secs \/ acc !! u = Some true) ->
              default false
                (fold_left (fun a s => <[title s := true]> a) secs acc !! u)
              = true); [|by auto].
    induction secs as [|s secs IH]; intros acc; simpl.
    + intros [?%elem_of_nil | ->]; done.
    + intros [[-> | H]%elem_of_cons|H]; apply IH; auto.
      * right. by rewrite lookup_insert_eq.
      * right. destruct (decide (title s = u)) as [->|Hne].
        -- by rewrite lookup_insert_eq.
        -- by rewrite lookup_insert_ne.
Qed.

Lemma toggleSection_spec_witness :
  lit "Summary" <> lit "Key Risks"
  /\ expanded (toggleSection (lit "Key Risks") ∅) (lit "Summary")
     = expanded ∅ (lit "Summary").
Proof.
  assert (H : lit "Summary" <> lit "Key Risks") by (by vm_compute).
  split; [exact H|].
  exact (proj1 (proj2 (toggleSection_spec ∅ (lit "Key Risks") (lit "Summary") []))
           H).
Defined.

(** ** The ingredients page: when the image is looked up *)

Lemma forallb_Forall_digit (s : jsstring) :
  forallb is_digit s = true <-> all_digits s.
Proof.
  unfold all_digits. rewrite forallb_forall, Forall_forall. split.
  - intros H c Hc. apply H. by apply list_elem_of_In.
  - intros H c Hc. apply H. by apply list_elem_of_In.
Qed.

(** [/^\d+$/.test(id)] holds exactly when [id] is made of one or more
    digits. *)
Lemma digitsPattern_test (id : jsstring) :
  regexp_test IngredientsPage.digitsPattern id
  = nonempty id && forallb is_digit id.
Proof.
  unfold regexp_test, regexp_match.
  apply eq_true_iff_eq. rewrite andb_true_iff, forallb_Forall_digit. split.
  - destruct (exec_from id IngredientsPage.digitsPattern 0 id) as [m|] eqn:E;
      [|done].
    intros _. apply exec_from_Some in E as (pre & s & y & Hid & H & _).
    apply matcher_sound in H as (y' & (m1 & [-> Hlen] & m2 & H2 & [-> Hend]) & _).
    apply matches_plain in H2 as (w & Hw & [Hne Hd]%lang_plus_class & _);
      [|reflexivity..].
    cbn [rest] in *. rewrite Hend, app_nil_r in Hw. subst s.
    assert (pre = []) as ->.
    { apply (f_equal (@length N)) in Hid. rewrite length_app in Hid.
      destruct pre; [done|]. simpl in Hid. lia. }
    simpl in Hid. subst id. split; [by destruct w|done].
  - intros [Hne Hd].
    assert (H : is_Some (matcher id IngredientsPage.digitsPattern Some
                           (MState id []))).
    { apply matcher_is_Some. exists (MState [] []).
      exists (MState id []). split; [done|].
      exists (MState [] []). split; [|done].
      destruct (lang_matches id (Plus true digit) eq_refl id [] []) as (y & Hy & Hr).
      - apply lang_plus_class. split; [by destruct id|done].
      - rewrite app_nil_r in Hy.
        apply matches_no_group in Hy as Hc; [|reflexivity].
        destruct y as [r c]. simpl in Hr, Hc. by subst. }
    pose proof (exec_from_is_Some id IngredientsPage.digitsPattern [] id 0 H)
      as [m Hm].
    simpl in Hm. by rewrite Hm.
Qed.

Lemma fetchImage_run (net : network) (id : jsstring) (d : jsval)
    (s : IngredientsPage.state) (b : browser) :
  exists s',
    IngredientsPage.fetchImage net id d (s, b)
    = (inr tt,
       (s', if needs_image d id
            then fetch (Request (OPEN_FOOD_FACTS_PRODUCT id) GET) b else b))
    /\ IngredientsPage.loading s' = IngredientsPage.loading s
    /\ IngredientsPage.error s' = IngredientsPage.error s
    /\ (IngredientsPage.data s' = IngredientsPage.data s
        \/ exists img, truthy img = true
             /\ needs_image d id = true
             /\ IngredientsPage.data s'
                = JObj (set_field (lit "image_url") img
                          (spread (js_or (IngredientsPage.data s) d)))).
Proof.
  unfold IngredientsPage.fetchImage, needs_image.
  assert (Hb : forall a n f : bool, a && n && (n && f) = a && n && f)
    by (by intros [] [] []).
  assert (Hsame : exists s' : IngredientsPage.state,
            (@inr exn unit tt, (s, b)) = (inr tt, (s', b))
            /\ IngredientsPage.loading s' = IngredientsPage.loading s
            /\ IngredientsPage.error s' = IngredientsPage.error s
            /\ IngredientsPage.data s' = IngredientsPage.data s)
    by (by exists s).
  unfold try_catch, lift. unfold bind at 1.
  destruct (get d (lit "image_url")) as [e|v].
  { destruct Hsame as (s1 & ? & ? & ? & ?). exists s1. repeat split; auto. }
  rewrite digitsPattern_test, Hb.
  destruct (negb (truthy v) && nonempty id && forallb is_digit id) eqn:E.
  2:{ destruct Hsame as (s1 & ? & ? & ? & ?). exists s1. repeat split; auto. }
  unfold await_fetch. unfold bind, outside, update, ret, throw. cbn [fst snd].
  destruct (net (Request (OPEN_FOOD_FACTS_PRODUCT id) GET)) as [e|r];
    cbn [fst snd].
  { exists s. repeat split; auto. }
  destruct (json r) as [e|off]; cbn [fst snd].
  { exists s. repeat split; auto. }
  destruct (truthy (js_or (get_opt (get_opt off (lit "product"))
                             (lit "image_front_url"))
                          (get_opt (get_opt off (lit "product"))
                             (lit "image_small_url")))) eqn:T;
    cbn [fst snd].
  2:{ exists s. repeat split; auto. }
  eexists. split; [reflexivity|]. split; [done|]. split; [done|].
  right. eexists. by split.
Qed.

Lemma ingredients_effect_ok (env : environment) (params_id : param)
    (id : jsstring) (cache : cache_object) (net : network) (res : response)
    (d : jsval) (s : IngredientsPage.state) (b : browser) :
  route_id params_id = Some id ->
  cached_entry cache id = None ->
  net (IngredientsPage.productRequest env id) = Fulfilled res ->
  ok res = true ->
  json res = inr d ->
  let r := run (IngredientsPage.effect env params_id cache net true) s b in
  IngredientsPage.loading (fst r) = false
  /\ IngredientsPage.error (fst r) = IngredientsPage.error s
  /\ FD_CACHE (snd r) = Some (<[id := d]> (default ∅ (FD_CACHE b)))
  /\ cacheEntries (snd r) = cacheEntries b ++ [(id, d)]
  /\ fetched (snd r)
     = fetched b ++ IngredientsPage.productRequest env id
         :: (if needs_image d id
             then [Request (OPEN_FOOD_FACTS_PRODUCT id) GET] else [])
  /\ (IngredientsPage.data (fst r) = d
      \/ exists img, truthy img = true
           /\ needs_image d id = true
           /\ IngredientsPage.data (fst r)
              = JObj (set_field (lit "image_url") img (spread (js_or d d)))).
Proof.
  intros Hid Hc Hnet Hok Hjson. cbv zeta.
  unfold IngredientsPage.effect, run. rewrite Hid, Hc.
  unfold IngredientsPage.onData.
  unfold await_fetch.
  unfold finally, try_catch, bind, lift, outside, update, ret, throw.
  cbn [fst snd negb]. rewrite Hnet, Hok, Hjson. cbn [fst snd].
  destruct (fetchImage_run net id d (IngredientsPage.setData d s)
              (store_FD_CACHE id d
                 (setCacheEntry id d
                    (fetch (IngredientsPage.productRequest env id) b))))
    as (s' & -> & Hl & He & Hd).
  cbn [fst snd]. split; [done|]. split; [done|].
  destruct (needs_image d id); cbn [FD_CACHE cacheEntries fetched fetch
    store_FD_CACHE setCacheEntry]; repeat split; try done;
    try (by rewrite <- app_assoc).
Qed.

(** An ok answer on the mounted ingredients page: the product is shown
    and stored in both caches under the id, [loading] is cleared and
    no error is set, whatever becomes of the image look-up.  That
    second request is sent exactly when the product has no image URL
    and the id is made of digits; at most it adds an image URL to the
    product shown. *)
Theorem ingredients_loaded (env : environment) (params_id : param)
    (id : jsstring) (cache : cache_object) (net : network) (res : response)
    (d : jsval) (s : IngredientsPage.state) (b : browser) :
  route_id params_id = Some id ->
  cached_entry cache id = None ->
  net (IngredientsPage.productRequest env id) = Fulfilled res ->
  ok res = true ->
  json res = inr d ->
  let r := run (IngredientsPage.effect env params_id cache net true) s b in
  IngredientsPage.loading (fst r) = false
  /\ IngredientsPage.error (fst r) = IngredientsPage.error s
  /\ FD_CACHE (snd r) = Some (<[id := d]> (default ∅ (FD_CACHE b)))
  /\ cacheEntries (snd r) = cacheEntries b ++ [(id, d)]
  /\ fetched (snd r)
     = fetched b ++ IngredientsPage.productRequest env id
         :: (if needs_image d id
             then [Request (OPEN_FOOD_FACTS_PRODUCT id) GET] else [])
  /\ (IngredientsPage.data (fst r) = d
      \/ exists img, truthy img = true
           /\ needs_image d id = true
           /\ IngredientsPage.data (fst r)
              = JObj (set_field (lit "image_url") img (spread (js_or d d)))).
Proof. apply ingredients_effect_ok. Qed.

Lemma ingredients_loaded_witness :
  let r := run (IngredientsPage.effect same_origin (ParamString (lit "42")) None
                  maggi_server true) IngredientsPage.initial fresh_tab in
  (route_id (ParamString (lit "42")) = Some (lit "42")
   /\ cached_entry None (lit "42") = None
   /\ ok (Response 200 (inr maggi)) = true)
  /\ IngredientsPage.loading (fst r) = false
  /\ IngredientsPage.error (fst r) = None
  /\ cacheEntries (snd r) = [(lit "42", maggi)].
Proof.
  split; [repeat split|].
  destruct (ingredients_loaded same_origin (ParamString (lit "42")) (lit "42")
              None maggi_server (Response 200 (inr maggi)) maggi
              IngredientsPage.initial fresh_tab
              eq_refl eq_refl eq_refl eq_refl eq_refl)
    as (H1 & H2 & _ & H3 & _).
  split; [exact H1|]. split; [exact H2|exact H3].
Defined.

(** ** The analysis page: what is loaded is found again *)

Lemma cached_entry_insert (m : gmap (list N) jsval) (id : jsstring) (v : jsval) :
  truthy v = true -> cached_entry (Some (<[id := v]> m)) id = Some v.
Proof. intros H. unfold cached_entry. by rewrite lookup_insert_eq, H. Qed.

Lemma analysis_effect_hit (env : environment) (params_id : param)
    (id : jsstring) (cache : cache_object) (net : network) (mounted : bool)
    (v : jsval) (s : AnalysisPage.state) (b : browser) :
  route_id params_id = Some id ->
  usable v ->
  cached_entry (FD_CACHE b) id = Some v ->
  run (AnalysisPage.effect env params_id cache net mounted) s b
  = (fst (run (AnalysisPage.useCached v) s b), b).
Proof.
  intros Hid Hu Hv. unfold AnalysisPage.effect, run. rewrite Hid.
  unfold bind at 1.
  rewrite (tryUseCache_hit id cache v s b Hu (or_introl Hv)).
  destruct (useCached_run v s b Hu) as [s' ->]. reflexivity.
Qed.

(** An ok answer with an array of sections on the mounted analysis
    page: the sections are shown and stored in both caches under the
    id, with one request sent; and every later run of the effect for
    this id in the same tab takes the sections from [window.__FD_CACHE__]
    and sends nothing, whatever the network and the context's cache. *)
Theorem analysis_loaded_then_cached (env : environment) (params_id : param)
    (id : jsstring) (cache : cache_object) (net : network) (res : response)
    (data : jsval) (xs : list jsval) (s : AnalysisPage.state) (b : browser) :
  route_id params_id = Some id ->
  cached_entry (FD_CACHE b) id = None ->
  cached_entry cache id = None ->
  net (AnalysisPage.analyzeRequest env id) = Fulfilled res ->
  ok res = true ->
  json res = inr data ->
  get data (lit "analysis_sections") = inr (JArr xs) ->
  let r := run (AnalysisPage.effect env params_id cache net true) s b in
  fst r = AnalysisPage.State (AnalysisPage.analysisText s) xs false
            (AnalysisPage.error s)
  /\ fetched (snd r) = fetched b ++ [AnalysisPage.analyzeRequest env id]
  /\ cacheEntries (snd r) = cacheEntries b ++ [(id, JArr xs)]
  /\ forall cache' net' mounted' s',
       run (AnalysisPage.effect env params_id cache' net' mounted') s' (snd r)
       = (AnalysisPage.State (AnalysisPage.analysisText s') xs false
            (AnalysisPage.error s'), snd r).
Proof.
  intros Hid Hw Hc Hnet Hok Hjson Hget. cbv zeta.
  assert (E : run (AnalysisPage.effect env params_id cache net true) s b
              = (AnalysisPage.State (AnalysisPage.analysisText s) xs false
                   (AnalysisPage.error s),
                 store_FD_CACHE id (JArr xs)
                   (setCacheEntry id (JArr xs)
                      (fetch (AnalysisPage.analyzeRequest env id) b)))).
  { unfold AnalysisPage.effect, run. rewrite Hid. unfold bind at 1.
    rewrite (tryUseCache_miss id cache s b Hw Hc).
    unfold AnalysisPage.onData, await_fetch.
    unfold finally, try_catch, bind, lift, outside, update, ret, throw.
    cbn [fst snd negb]. rewrite Hnet, Hok, Hjson. cbn [fst snd].
    rewrite Hget. reflexivity. }
  rewrite E. cbn [fst snd]. repeat split.
  intros cache' net' mounted' s'.
  rewrite (analysis_effect_hit env params_id id cache' net' mounted'
             (JArr xs) s' _ Hid I); [reflexivity|].
  apply cached_entry_insert. reflexivity.
Qed.

Lemma analysis_loaded_then_cached_witness :
  let r := run (AnalysisPage.effect same_origin (ParamString (lit "42")) None
                  analysis_server true) AnalysisPage.initial fresh_tab in
  (route_id (ParamString (lit "42")) = Some (lit "42")
   /\ cached_entry (FD_CACHE fresh_tab) (lit "42") = None)
  /\ fst r = AnalysisPage.State None
               [JStr (lit "Rating: 3/10"); JStr (lit "Salty.")] false None
  /\ run (AnalysisPage.effect same_origin (ParamString (lit "42")) None
            offline true) AnalysisPage.initial (snd r)
     = (AnalysisPage.State None
          [JStr (lit "Rating: 3/10"); JStr (lit "Salty.")] false None, snd r).
Proof.
  split; [repeat split|].
  destruct (analysis_loaded_then_cached same_origin (ParamString (lit "42"))
              (lit "42") None analysis_server
              (Response 200
                 (inr (AnalysisPage.AnalysisResponse_value
                         {| AnalysisPage.product_name := lit "Maggi Noodles";
                            AnalysisPage.analysis_sections :=
                              [lit "Rating: 3/10"; lit "Salty."] |})))
              _ [JStr (lit "Rating: 3/10"); JStr (lit "Salty.")]
              AnalysisPage.initial fresh_tab
              eq_refl eq_refl eq_refl eq_refl eq_refl eq_refl eq_refl)
    as (H1 & _ & _ & H2).
  split; [exact H1|]. exact (H2 None offline true AnalysisPage.initial).
Defined.

(** The two pages store different things under the same key.  Once the
    ingredients page has loaded a product, a JSON object without an
    array of sections (and without a property [toString] of its own,
    with which [String(cached)] would throw), the analysis page of the
    same id finds that object in [window.__FD_CACHE__]: it sends no
    request and shows the text "[object Object]" as the analysis. *)
Theorem product_entry_shown_as_analysis (env : environment)
    (params_id : param) (id : jsstring) (cache : cache_object) (net : network)
    (res : response) (fs : list (jsstring * jsval))
    (s : IngredientsPage.state) (b : browser) :
  route_id params_id = Some id ->
  cached_entry cache id = None ->
  net (IngredientsPage.productRequest env id) = Fulfilled res ->
  ok res = true ->
  json res = inr (JObj fs) ->
  isArray (field (lit "analysis_sections") fs) = false ->
  ~ has_property (JObj fs) (lit "toString") ->
  let b1 := snd (run (IngredientsPage.effect env params_id cache net true) s b) in
  forall cache' net' mounted',
    run (AnalysisPage.effect env params_id cache' net' mounted')
        AnalysisPage.initial b1
    = (AnalysisPage.State (Some (lit "[object Object]")) [] false None, b1)
    /\ AnalysisPage.render
         (AnalysisPage.State (Some (lit "[object Object]")) [] false None)
       = AnalysisPage.Analysis [JStr (lit "[object Object]")].
Proof.
  intros Hid Hc Hnet Hok Hjson Harr Hts. cbv zeta.
  intros cache' net' mounted'. split; [|reflexivity].
  destruct (ingredients_effect_ok env params_id id cache net res (JObj fs) s b
              Hid Hc Hnet Hok Hjson) as (_ & _ & Hfd & _).
  rewrite (analysis_effect_hit env params_id id cache' net' mounted'
             (JObj fs) AnalysisPage.initial _ Hid (or_intror Hts)).
  - f_equal. unfold AnalysisPage.useCached, run, bind, update, ret, lift.
    unfold get_opt, get. cbn [ToString].
    rewrite bool_decide_false by exact Hts.
    destruct (field (lit "analysis_sections") fs); try done.
  - rewrite Hfd. by apply cached_entry_insert.
Qed.

Lemma product_entry_shown_as_analysis_witness :
  let b1 := snd (run (IngredientsPage.effect same_origin
                        (ParamString (lit "42")) None maggi_server true)
                   IngredientsPage.initial fresh_tab) in
  (route_id (ParamString (lit "42")) = Some (lit "42")
   /\ isArray (get_opt maggi (lit "analysis_sections")) = false
   /\ ~ has_property maggi (lit "toString"))
  /\ run (AnalysisPage.effect same_origin (ParamString (lit "42")) None
            analysis_server true) AnalysisPage.initial b1
     = (AnalysisPage.State (Some (lit "[object Object]")) [] false None, b1).
Proof.
  assert (H : ~ has_property maggi (lit "toString")).
  { cbv [has_property maggi]. apply (bool_decide_unpack _). vm_compute.
    exact I. }
  split; [repeat split; exact H|].
  exact (proj1 (product_entry_shown_as_analysis same_origin
                  (ParamString (lit "42")) (lit "42") None maggi_server
                  (Response 200 (inr maggi)) _ IngredientsPage.initial fresh_tab
                  eq_refl eq_refl eq_refl eq_refl eq_refl eq_refl H
                  None analysis_server true)).
Defined.

(** ** The pages once the component is gone, and answers of no use *)

(** The component is unmounted when the promise settles: an ok answer
    changes nothing, neither the state nor a cache, on both pages; a
    failure still sets the error, and [loading] stays as it was. *)
Theorem late_answer_after_unmount (env : environment) (params_id : param)
    (id : jsstring) (cache : cache_object) (net : network)
    (sa : AnalysisPage.state) (si : IngredientsPage.state) (b : browser) :
  route_id params_id = Some id ->
  cached_entry (FD_CACHE b) id = None ->
  cached_entry cache id = None ->
  (forall res d,
      net (AnalysisPage.analyzeRequest env id) = Fulfilled res ->
      ok res = true -> json res = inr d ->
      run (AnalysisPage.effect env params_id cache net false) sa b
      = (sa, fetch (AnalysisPage.analyzeRequest env id) b))
  /\ (forall res d,
      net (IngredientsPage.productRequest env id) = Fulfilled res ->
      ok res = true -> json res = inr d ->
      run (IngredientsPage.effect env params_id cache net false) si b
      = (si, fetch (IngredientsPage.productRequest env id) b))
  /\ (network_failure (net (AnalysisPage.analyzeRequest env id)) = true ->
      run (AnalysisPage.effect env params_id cache net false) sa b
      = (AnalysisPage.setError
           (failure_message (lit "Failed to fetch analysis")
              (net (AnalysisPage.analyzeRequest env id))) sa,
         fetch (AnalysisPage.analyzeRequest env id) b))
  /\ (network_failure (net (IngredientsPage.productRequest env id)) = true ->
      run (IngredientsPage.effect env params_id cache net false) si b
      = (IngredientsPage.setError
           (failure_message (lit "Failed to fetch ingredients")
              (net (IngredientsPage.productRequest env id))) si,
         fetch (IngredientsPage.productRequest env id) b)).
Proof.
  intros Hid Hw Hc.
  assert (Ea : forall m : handler (S := AnalysisPage.state) unit,
             run (do used <- AnalysisPage.tryUseCache id cache;
                  if (used : bool) then ret tt else m) sa b
             = run m sa b).
  { intros m. unfold run. unfold bind at 1.
    by rewrite (tryUseCache_miss id cache sa b Hw Hc). }
  repeat split.
  - intros res d Hnet Hok Hjson.
    unfold AnalysisPage.effect. rewrite Hid, Ea.
    unfold run, AnalysisPage.onData, await_fetch.
    unfold finally, try_catch, bind, lift, outside, update, ret, throw.
    cbn [fst snd negb]. by rewrite Hnet, Hok, Hjson.
  - intros res d Hnet Hok Hjson.
    unfold IngredientsPage.effect, run. rewrite Hid, Hc.
    unfold IngredientsPage.onData, await_fetch.
    unfold finally, try_catch, bind, lift, outside, update, ret, throw.
    cbn [fst snd negb]. by rewrite Hnet, Hok, Hjson.
  - intros Hf. unfold AnalysisPage.effect. rewrite Hid, Ea.
    unfold run, AnalysisPage.onData, await_fetch.
    unfold finally, try_catch, bind, lift, outside, update, ret, throw.
    cbn [fst snd negb].
    destruct (net (AnalysisPage.analyzeRequest env id)) as [e|res];
      simpl in Hf |- *; [done|].
    apply negb_true_iff in Hf. by rewrite Hf.
  - intros Hf. unfold IngredientsPage.effect, run. rewrite Hid, Hc.
    unfold IngredientsPage.onData, await_fetch.
    unfold finally, try_catch, bind, lift, outside, update, ret, throw.
    cbn [fst snd negb].
    destruct (net (IngredientsPage.productRequest env id)) as [e|res];
      simpl in Hf |- *; [done|].
    apply negb_true_iff in Hf. by rewrite Hf.
Qed.

Lemma late_answer_after_unmount_witness :
  (route_id (ParamString (lit "42")) = Some (lit "42")
   /\ cached_entry (FD_CACHE fresh_tab) (lit "42") = None
   /\ cached_entry None (lit "42") = None)
  /\ run (AnalysisPage.effect same_origin (ParamString (lit "42")) None
            analysis_server false) AnalysisPage.initial fresh_tab
     = (AnalysisPage.initial,
        fetch (AnalysisPage.analyzeRequest same_origin (lit "42")) fresh_tab)
  /\ run (IngredientsPage.effect same_origin (ParamString (lit "42")) None
            offline false) IngredientsPage.initial fresh_tab
     = (IngredientsPage.State JNull true (Some (lit "Failed to fetch")),
        fetch (IngredientsPage.productRequest same_origin (lit "42")) fresh_tab).
Proof.
  split; [repeat split|]. split.
  - destruct (late_answer_after_unmount same_origin (ParamString (lit "42"))
                (lit "42") None analysis_server AnalysisPage.initial
                IngredientsPage.initial fresh_tab eq_refl eq_refl eq_refl)
      as (H & _).
    exact (H _ _ eq_refl eq_refl eq_refl).
  - destruct (late_answer_after_unmount same_origin (ParamString (lit "42"))
                (lit "42") None offline AnalysisPage.initial
                IngredientsPage.initial fresh_tab eq_refl eq_refl eq_refl)
      as (_ & _ & _ & H).
    exact (H eq_refl).
Defined.

Lemma analysis_effect_loaded (env : environment) (params_id : param)
    (id : jsstring) (cache : cache_object) (net : network) (res : response)
    (data : jsval) (xs : list jsval) (s : AnalysisPage.state) (b : browser) :
  route_id params_id = Some id ->
  cached_entry (FD_CACHE b) id = None ->
  cached_entry cache id = None ->
  net (AnalysisPage.analyzeRequest env id) = Fulfilled res ->
  ok res = true ->
  json res = inr data ->
  get data (lit "analysis_sections") = inr (JArr xs) ->
  run (AnalysisPage.effect env params_id cache net true) s b
  = (AnalysisPage.State (AnalysisPage.analysisText s) xs false
       (AnalysisPage.error s),
     store_FD_CACHE id (JArr xs)
       (setCacheEntry id (JArr xs)
          (fetch (AnalysisPage.analyzeRequest env id) b))).
Proof.
  intros Hid Hw Hc Hnet Hok Hjson Hget.
  unfold AnalysisPage.effect, run. rewrite Hid. unfold bind at 1.
  rewrite (tryUseCache_miss id cache s b Hw Hc).
  unfold AnalysisPage.onData, await_fetch.
  unfold finally, try_catch, bind, lift, outside, update, ret, throw.
  cbn [fst snd negb]. rewrite Hnet, Hok, Hjson. cbn [fst snd].
  rewrite Hget. reflexivity.
Qed.

(** An ok answer whose array of sections is empty is stored like any
    other: the page shows "Could not retrieve analysis data. Please
    try again.", and every later visit of this id in the same tab
    shows it again from [window.__FD_CACHE__], without a request. *)
Theorem empty_analysis_cached (env : environment) (params_id : param)
    (id : jsstring) (cache : cache_object) (net : network) (res : response)
    (data : jsval) (b : browser) :
  route_id params_id = Some id ->
  cached_entry (FD_CACHE b) id = None ->
  cached_entry cache id = None ->
  net (AnalysisPage.analyzeRequest env id) = Fulfilled res ->
  ok res = true ->
  json res = inr data ->
  get data (lit "analysis_sections") = inr (JArr []) ->
  let failed := AnalysisPage.AnalysisFailed
                  (lit "Could not retrieve analysis data. Please try again.") in
  let r := run (AnalysisPage.effect env params_id cache net true)
               AnalysisPage.initial b in
  AnalysisPage.render (fst r) = failed
  /\ forall cache' net' mounted',
       let r' := run (AnalysisPage.effect env params_id cache' net' mounted')
                     AnalysisPage.initial (snd r) in
       AnalysisPage.render (fst r') = failed
       /\ fetched (snd r') = fetched (snd r).
Proof.
  intros Hid Hw Hc Hnet Hok Hjson Hget. cbv zeta.
  rewrite (analysis_effect_loaded env params_id id cache net res data []
             AnalysisPage.initial b Hid Hw Hc Hnet Hok Hjson Hget).
  cbn [fst snd]. split; [reflexivity|].
  intros cache' net' mounted'.
  rewrite (analysis_effect_hit env params_id id cache' net' mounted'
             (JArr []) AnalysisPage.initial _ Hid I); [by split|].
  by apply cached_entry_insert.
Qed.

Lemma empty_analysis_cached_witness :
  let empty : network :=
    fun _ => Fulfilled (Response 200
               (inr (JObj [(lit "analysis_sections", JArr [])]))) in
  let r := run (AnalysisPage.effect same_origin (ParamString (lit "42")) None
                  empty true) AnalysisPage.initial fresh_tab in
  (route_id (ParamString (lit "42")) = Some (lit "42")
   /\ cached_entry (FD_CACHE fresh_tab) (lit "42") = None)
  /\ AnalysisPage.render (fst r)
     = AnalysisPage.AnalysisFailed
         (lit "Could not retrieve analysis data. Please try again.").
Proof.
  cbv zeta. split; [repeat split|].
  exact (proj1 (empty_analysis_cached same_origin (ParamString (lit "42"))
                  (lit "42") None
                  (fun _ => Fulfilled (Response 200
                     (inr (JObj [(lit "analysis_sections", JArr [])]))))
                  _ _ fresh_tab
                  eq_refl eq_refl eq_refl eq_refl eq_refl eq_refl eq_refl)).
Defined.

(** An ok answer that is neither a string nor a value with an array
    [analysis_sections] (and not [null], on which reading the property
    throws): nothing is shown and nothing is stored, no error is set,
    and the page that was loading ends in "Could not retrieve analysis
    data. Please try again.". *)
Theorem analysis_unusable_answer (env : environment) (params_id : param)
    (id : jsstring) (cache : cache_object) (net : network) (res : response)
    (data v : jsval) (s : AnalysisPage.state) (b : browser) :
  route_id params_id = Some id ->
  cached_entry (FD_CACHE b) id = None ->
  cached_entry cache id = None ->
  net (AnalysisPage.analyzeRequest env id) = Fulfilled res ->
  ok res = true ->
  json res = inr data ->
  get data (lit "analysis_sections") = inr v ->
  isArray v = false ->
  (forall t, data <> JStr t) ->
  run (AnalysisPage.effect env params_id cache net true) s b
  = (AnalysisPage.setLoading false s,
     fetch (AnalysisPage.analyzeRequest env id) b)
  /\ AnalysisPage.render
       (fst (run (AnalysisPage.effect env params_id cache net true)
               AnalysisPage.initial b))
     = AnalysisPage.AnalysisFailed
         (lit "Could not retrieve analysis data. Please try again.").
Proof.
  intros Hid Hw Hc Hnet Hok Hjson Hget Harr Hstr.
  assert (E : forall s0,
             run (AnalysisPage.effect env params_id cache net true) s0 b
             = (AnalysisPage.setLoading false s0,
                fetch (AnalysisPage.analyzeRequest env id) b)).
  { intros s0. unfold AnalysisPage.effect, run. rewrite Hid.
    unfold bind at 1.
    assert (Hw0 : cached_entry (FD_CACHE (snd (s0, b))) id = None) by done.
    rewrite (tryUseCache_miss id cache s0 b Hw Hc).
    unfold AnalysisPage.onData, await_fetch.
    unfold finally, try_catch, bind, lift, outside, update, ret, throw.
    cbn [fst snd negb]. rewrite Hnet, Hok, Hjson. cbn [fst snd].
    rewrite Hget.
    destruct v; try discriminate Harr;
      destruct data; try reflexivity; by edestruct Hstr. }
  split; [apply E|]. by rewrite E.
Qed.

Lemma analysis_unusable_answer_witness :
  (route_id (ParamString (lit "42")) = Some (lit "42")
   /\ isArray (get_opt maggi (lit "analysis_sections")) = false)
  /\ run (AnalysisPage.effect same_origin (ParamString (lit "42")) None
            maggi_server true) AnalysisPage.initial fresh_tab
     = (AnalysisPage.State None [] false None,
        fetch (AnalysisPage.analyzeRequest same_origin (lit "42")) fresh_tab).
Proof.
  split; [repeat split|].
  refine (proj1 (analysis_unusable_answer same_origin (ParamString (lit "42"))
                   (lit "42") None maggi_server (Response 200 (inr maggi))
                   maggi JUndefined AnalysisPage.initial fresh_tab
                   eq_refl eq_refl eq_refl eq_refl eq_refl eq_refl eq_refl
                   eq_refl _)).
  intros t. discriminate.
Defined.

(** ** The home page: searches *)

(** A search for a query that is not blank.  The handler ends with
    [loading] cleared, [hasSearched] set and the search type "text",
    and leaves the query field and [window.__FD_CACHE__] alone.  When
    the query can be encoded, exactly one request is sent, for the
    search endpoint with the encoded query; the list shown is
    [data.products || []] of an ok answer whose body parses and is not
    null, which is also stored under "lastSearchResults"; on any
    failure the list shown is empty and nothing is stored.  A query
    with a lone surrogate sends no request at all. *)
Theorem handleSearch_outcome (env : environment) (net : network)
    (query : jsstring) (s : Home.state) (b : browser) :
  trim query <> [] ->
  let r := run (Home.handleSearch env net query) s b in
  Home.loading (fst r) = false
  /\ Home.hasSearched (fst r) = true
  /\ Home.lastSearchType (fst r) = Home.text
  /\ Home.searchQuery (fst r) = Home.searchQuery s
  /\ FD_CACHE (snd r) = FD_CACHE b
  /\ match encodeURIComponent query with
     | inl _ =>
         fetched (snd r) = fetched b
         /\ Home.searchResults (fst r) = JArr []
         /\ cacheEntries (snd r) = cacheEntries b
     | inr q =>
         fetched (snd r) = fetched b ++ [Home.searchRequest env q]
         /\ match search_products (net (Home.searchRequest env q)) with
            | Some products =>
                Home.searchResults (fst r) = products
                /\ cacheEntries (snd r)
                   = cacheEntries b ++ [(lit "lastSearchResults", products)]
            | None =>
                Home.searchResults (fst r) = JArr []
                /\ cacheEntries (snd r) = cacheEntries b
            end
     end.
Proof.
  intros Hq. cbv zeta. unfold Home.handleSearch.
  destruct (nonempty (trim query)) eqn:E.
  2:{ exfalso. apply Hq. by apply nonempty_false. }
  cbn [negb]. unfold run, await_fetch.
  unfold finally, try_catch, bind, update, outside, lift, ret, throw.
  cbn [fst snd].
  destruct (encodeURIComponent query) as [e|q]; cbn [fst snd]; [done|].
  unfold search_products.
  destruct (net (Home.searchRequest env q)) as [e|res]; cbn [fst snd]; [done|].
  destruct (ok res); cbn [fst snd]; [|done].
  destruct (json res) as [e|data]; cbn [fst snd]; [done|].
  destruct (get data (lit "products")) as [e|products]; cbn [fst snd]; done.
Qed.

Lemma handleSearch_outcome_witness :
  let r := run (Home.handleSearch same_origin search_server (lit "maggi"))
               Home.initial fresh_tab in
  trim (lit "maggi") <> []
  /\ fetched (snd r) = [Request (lit "/api/v1/search?q=maggi") GET]
  /\ Home.searchResults (fst r) = JArr [maggi]
  /\ cacheEntries (snd r) = [(lit "lastSearchResults", JArr [maggi])].
Proof.
  assert (H : trim (lit "maggi") <> []) by (by vm_compute).
  split; [exact H|].
  destruct (handleSearch_outcome same_origin search_server (lit "maggi")
              Home.initial fresh_tab H) as (_ & _ & _ & _ & _ & H1 & H2 & H3).
  split; [exact H1|]. split; [exact H2|exact H3].
Defined.

(** A barcode look-up sends exactly one request, also when the timer
    fires first: for the barcode endpoint followed by "/" and the code
    as it was given, not encoded.  The code becomes the text of the
    query field, the search type is "barcode", and no cache is
    written. *)
Theorem handleBarcodeSearch_request (env : environment) (net : network)
    (code : jsstring) (timer_first : bool) (s : Home.state) (b : browser) :
  let r := run (Home.handleBarcodeSearch env net code timer_first) s b in
  fetched (snd r)
  = fetched b ++ [Request (getBaseUrl env ++ lit "/api/v1/barcode/" ++ code) GET]
  /\ Home.searchQuery (fst r) = code
  /\ Home.hasSearched (fst r) = true
  /\ Home.lastSearchType (fst r) = Home.barcode
  /\ cacheEntries (snd r) = cacheEntries b
  /\ FD_CACHE (snd r) = FD_CACHE b.
Proof.
  cbv zeta.
  assert (Hreq : Home.barcodeRequest env code
                 = Request (getBaseUrl env ++ lit "/api/v1/barcode/" ++ code)
                     GET).
  { unfold Home.barcodeRequest, getApiUrl. cbv zeta. f_equal.
    rewrite <- !app_assoc. reflexivity. }
  rewrite <- Hreq. clear Hreq.
  unfold Home.handleBarcodeSearch, Home.race_fetch, run.
  unfold finally, try_catch, bind, update, outside, lift, ret, throw.
  destruct timer_first; cbn [fst snd]; [done|].
  destruct (net (Home.barcodeRequest env code)) as [e|res];
    cbn [fst snd]; [done|].
  destruct (ok res); cbn [fst snd]; [|done].
  destruct (json res) as [e|data]; cbn [fst snd]; [done|].
  destruct (get data (lit "product_name")) as [e|name]; cbn [fst snd]; [done|].
  destruct (get data (lit "id")) as [e|ident]; cbn [fst snd]; [done|].
  destruct (truthy name && truthy ident); cbn [fst snd]; [|done].
  destruct (get data (lit "brand")) as [e|brand0]; cbn [fst snd]; [done|].
  destruct (get data (lit "image_url")) as [e|image0]; cbn [fst snd]; done.
Qed.

Lemma hex_digit_unreserved (n : N) :
  (n < 16)%N -> uri_unreserved (hex_digit n) = true.
Proof.
  intros H. rewrite <- (N2Nat.id n).
  assert (Hk : N.to_nat n < 16) by lia.
  generalize dependent (N.to_nat n). clear. intros k Hk.
  do 16 (destruct k as [|k]; [by vm_compute|]). lia.
Qed.

Lemma percent_url_safe (byte : N) :
  (byte < 256)%N -> Forall (fun c => url_safe c = true) (percent byte).
Proof.
  intros H. unfold percent, url_safe. repeat constructor.
  - rewrite hex_digit_unreserved; [done|].
    apply N.Div0.div_lt_upper_bound. lia.
  - rewrite hex_digit_unreserved; [done|].
    apply N.mod_lt. lia.
Qed.

Lemma utf8_bytes (cp : N) :
  (cp < 1114112)%N -> Forall (fun byte => (byte < 256)%N) (utf8 cp).
Proof.
  intros H. unfold utf8.
  pose proof (N.mod_lt cp 64 ltac:(lia)).
  pose proof (N.mod_lt (cp / 64) 64 ltac:(lia)).
  pose proof (N.mod_lt (cp / 4096) 64 ltac:(lia)).
  destruct (cp <? 128)%N eqn:E1; [apply N.ltb_lt in E1|].
  { repeat constructor. lia. }
  destruct (cp <? 2048)%N eqn:E2; [apply N.ltb_lt in E2|].
  { assert (cp / 64 < 32)%N by (apply N.Div0.div_lt_upper_bound; lia).
    repeat constructor; lia. }
  destruct (cp <? 65536)%N eqn:E3; [apply N.ltb_lt in E3|].
  { assert (cp / 4096 < 16)%N by (apply N.Div0.div_lt_upper_bound; lia).
    repeat constructor; lia. }
  assert (cp / 262144 < 5)%N by (apply N.Div0.div_lt_upper_bound; lia).
  repeat constructor; lia.
Qed.

Lemma escape_url_safe (cp : N) (r : exn + jsstring) (q : jsstring) :
  (cp < 1114112)%N ->
  (forall t, r = inr t -> Forall (fun c => url_safe c = true) t) ->
  escape cp r = inr q -> Forall (fun c => url_safe c = true) q.
Proof.
  intros Hcp Hr. destruct r as [e|t]; simpl; [done|]. intros [= <-].
  apply Forall_app. split; [|by apply Hr].
  apply Forall_concat, Forall_fmap.
  eapply Forall_impl; [by apply utf8_bytes|].
  intros byte Hb. by apply percent_url_safe.
Qed.

Lemma encodeURIComponent_url_safe (s : jsstring) :
  well_formed s ->
  forall q, encodeURIComponent s = inr q ->
            Forall (fun c => url_safe c = true) q.
Proof.
  assert (H : forall n s, length s <= n -> well_formed s ->
              forall q, encodeURIComponent s = inr q ->
                        Forall (fun c => url_safe c = true) q).
  2:{ intros Hs. by apply (H (length s)). }
  clear s. intros n. induction n as [|n IH]; intros s Hn Hs q.
  { destruct s; [|simpl in Hn; lia]. simpl. by intros [= <-]. }
  destruct s as [|c s]; simpl. { by intros [= <-]. }
  simpl in Hn. apply Forall_cons in Hs as [Hc Hs].
  destruct (uri_unreserved c) eqn:U.
  { destruct (encodeURIComponent s) as [e|t] eqn:E; [done|]. intros [= <-].
    constructor.
    - unfold url_safe. by rewrite U.
    - apply (IH s); [lia|done|done]. }
  destruct (is_low_surrogate c); [done|].
  destruct (is_high_surrogate c) eqn:Hh.
  - destruct s as [|c2 s]; [done|].
    destruct (is_low_surrogate c2) eqn:Hl; [|done].
    apply Forall_cons in Hs as [Hc2 Hs]. simpl in Hn.
    apply escape_url_safe.
    + unfold is_high_surrogate in Hh. unfold is_low_surrogate in Hl.
      apply andb_true_iff in Hh as [H1 H2]. apply andb_true_iff in Hl as [H3 H4].
      apply N.leb_le in H1, H2, H3, H4. lia.
    + intros t. apply (IH s); [lia|done].
  - apply escape_url_safe; [lia|]. intros t. apply (IH s); [lia|done].
Qed.

(** What a search sends after "?q=" holds unreserved characters and
    percent escapes only, whatever the query: every request that
    [handleSearch] adds is for the search endpoint with such a query. *)
Theorem handleSearch_url_safe (env : environment) (net : network)
    (query : jsstring) (s : Home.state) (b : browser) :
  well_formed query ->
  forall req,
    req ∈ fetched (snd (run (Home.handleSearch env net query) s b)) ->
    req ∈ fetched b
    \/ exists q, req = Request (getBaseUrl env ++ lit "/api/v1/search?q=" ++ q)
                         GET
                 /\ Forall (fun c => url_safe c = true) q.
Proof.
  intros Hwf req. unfold Home.handleSearch.
  destruct (negb (nonempty (trim query))); [by left|].
  unfold run, await_fetch.
  unfold finally, try_catch, bind, update, outside, lift, ret, throw.
  cbn [fst snd].
  destruct (encodeURIComponent query) as [e|q] eqn:E; cbn [fst snd];
    [by left|].
  assert (Hreq : req ∈ fetched b ++ [Home.searchRequest env q] ->
            req ∈ fetched b
            \/ exists q, req = Request (getBaseUrl env
                                        ++ lit "/api/v1/search?q=" ++ q) GET
                         /\ Forall (fun c => url_safe c = true) q).
  { intros [H|H]%elem_of_app; [by left|]. right.
    apply list_elem_of_singleton in H. subst req. exists q. split.
    - unfold Home.searchRequest, getApiUrl. cbv zeta. f_equal.
      rewrite <- !app_assoc. reflexivity.
    - by apply encodeURIComponent_url_safe with query. }
  destruct (net (Home.searchRequest env q)) as [e|res]; cbn [fst snd];
    [done|].
  destruct (ok res); cbn [fst snd]; [|done].
  destruct (json res) as [e|data]; cbn [fst snd]; [done|].
  destruct (get data (lit "products")) as [e|products]; cbn [fst snd]; done.
Qed.

Lemma handleSearch_url_safe_witness :
  let req := Request (lit "/api/v1/search?q=a%26b") GET in
  well_formed (lit "a&b")
  /\ req ∈ fetched (snd (run (Home.handleSearch same_origin offline (lit "a&b"))
                            Home.initial fresh_tab))
  /\ exists q, req = Request (lit "/api/v1/search?q=" ++ q) GET
               /\ Forall (fun c => url_safe c = true) q.
Proof.
  cbv zeta.
  assert (Hwf : well_formed (lit "a&b")).
  { unfold well_formed. vm_compute. repeat constructor. }
  assert (Hin : Request (lit "/api/v1/search?q=a%26b") GET
                ∈ fetched (snd (run (Home.handleSearch same_origin offline
                                       (lit "a&b"))
                                  Home.initial fresh_tab))).
  { apply list_elem_of_here. }
  split; [exact Hwf|]. split; [exact Hin|].
  destruct (handleSearch_url_safe same_origin offline (lit "a&b")
              Home.initial fresh_tab Hwf _ Hin) as [H|H].
  - exfalso. by apply elem_of_nil in H.
  - exact H.
Defined.

(** ** The configuration *)

(** In a browser without [NEXT_PUBLIC_API_URL] (unset or empty) every
    URL that [getApiUrl] builds is a path of the same origin under
    "/api/v1/"; on the server side it then goes to
    "http://127.0.0.1:8000". *)
Theorem getApiUrl_same_origin (env : environment) (e : endpoint)
    (path : option jsstring) :
  default [] (NEXT_PUBLIC_API_URL env) = [] ->
  lit (if in_browser env then "/api/v1/" else "http://127.0.0.1:8000/api/v1/")
    `prefix_of` getApiUrl env e path.
Proof.
  intros Hurl.
  assert (Hbase : getBaseUrl env
                  = if in_browser env then [] else lit "http://127.0.0.1:8000").
  { unfold getBaseUrl.
    destruct (in_browser env), (NEXT_PUBLIC_API_URL env) as [u|];
      simpl in Hurl; subst; reflexivity. }
  assert (Hend : exists k, ENDPOINTS e = lit "/api/v1/" ++ k).
  { destruct e; eexists; reflexivity. }
  destruct Hend as [k Hk].
  unfold getApiUrl. cbv zeta. rewrite Hbase, Hk.
  destruct (in_browser env).
  - destruct path as [p|]; [destruct (nonempty p)|];
      rewrite app_nil_l, <- ?app_assoc; by eexists.
  - change (lit "http://127.0.0.1:8000/api/v1/")
      with (lit "http://127.0.0.1:8000" ++ lit "/api/v1/").
    destruct path as [p|]; [destruct (nonempty p)|];
      rewrite <- ?app_assoc; by eexists.
Qed.

Lemma getApiUrl_same_origin_witness :
  default [] (NEXT_PUBLIC_API_URL same_origin) = []
  /\ lit "/api/v1/" `prefix_of` getApiUrl same_origin PRODUCT (Some (lit "42")).
Proof.
  split; [reflexivity|].
  exact (getApiUrl_same_origin same_origin PRODUCT (Some (lit "42")) eq_refl).
Defined.

(** ** The loading animation *)

Import LoadingAnimation.

Lemma after_snoc (ts : list timer) (t : timer) :
  after (ts ++ [t]) = tick t (after ts).
Proof. unfold after. by rewrite fold_left_app. Qed.

Lemma fired_snoc (t t' : timer) (ts : list timer) :
  fired t (ts ++ [t']) = fired t ts + (if is_timer t t' then 1 else 0).
Proof. induction ts as [|a ts IH]; simpl; [done|]. rewrite IH. lia. Qed.

(** Whatever the order in which the timers fire: the index of the fact
    cycles through the 15 facts, the stage advances one by one and
    stops at the last of the six stages, and the progress grows by
    0.3125 with each tick until it is 100, which it is from the 320th
    tick on.  So the fact and the stage shown always exist and the
    progress is never above 100. *)
Theorem timers_in_range (ts : list timer) :
  let s := after ts in
  currentFact s = fired factInterval ts mod 15
  /\ currentStage s = Nat.min (fired stageInterval ts) 5
  /\ (progress s
      == inject_Z (Z.of_nat (Nat.min (fired progressInterval ts) 320))
         * (100 / 320))%Q
  /\ currentFact s < healthFacts_length
  /\ currentStage s < length analysisStages
  /\ (0 <= progress s <= 100)%Q.
Proof.
  cbv zeta.
  assert (Hstep : (100 / 320 == 5 # 16)%Q) by reflexivity.
  assert (H : currentFact (after ts) = fired factInterval ts mod 15
              /\ currentStage (after ts) = Nat.min (fired stageInterval ts) 5
              /\ (progress (after ts)
                  == inject_Z (Z.of_nat
                                 (Nat.min (fired progressInterval ts) 320))
                     * (100 / 320))%Q).
  { induction ts as [|t ts IH] using rev_ind.
    - repeat split.
    - destruct IH as (IHf & IHs & IHp).
      rewrite after_snoc, !fired_snoc.
      destruct t; cbn [tick is_timer currentFact currentStage progress].
      + rewrite !Nat.add_0_r. repeat split; [|done|done].
        rewrite IHf. unfold healthFacts_length.
        by rewrite Nat.Div0.add_mod_idemp_l.
      + rewrite !Nat.add_0_r. repeat split; [done|done|].
        set (k := fired progressInterval ts) in *.
        destruct (Qle_bool 100 (progress (after ts))) eqn:E.
        * apply Qle_bool_iff in E. rewrite IHp, Hstep in E.
          destruct (le_lt_dec 320 k) as [L|L].
          { rewrite (Nat.min_r (k + 1) 320) by lia. by vm_compute. }
          exfalso. rewrite Nat.min_l in E by lia.
          assert (inject_Z (Z.of_nat k) <= inject_Z 319)%Q
            by (rewrite <- Zle_Qle; lia).
          revert E H. generalize (inject_Z (Z.of_nat k)). intros q E H.
          change (inject_Z 319) with 319%Q in H. lra.
        * assert (E' : ~ (100 <= progress (after ts))%Q).
          { intros H. apply Qle_bool_iff in H. congruence. }
          rewrite IHp, Hstep in E'. rewrite IHp, Hstep.
          destruct (le_lt_dec 320 k) as [L|L].
          { exfalso. apply E'. rewrite Nat.min_r by lia. by vm_compute. }
          rewrite Nat.min_l by lia. rewrite Nat.min_l by lia.
          rewrite Nat2Z.inj_add, inject_Z_plus.
          change (inject_Z (Z.of_nat 1)) with 1%Q. ring.
      + rewrite !Nat.add_0_r. repeat split; [done| |done].
        rewrite IHs. change (length analysisStages - 1) with 5.
        destruct (5 <=? Nat.min (fired stageInterval ts) 5) eqn:E.
        * apply Nat.leb_le in E. lia.
        * apply Nat.leb_gt in E. lia. }
  destruct H as (Hf & Hs & Hp). repeat split; try done.
  - rewrite Hf. unfold healthFacts_length. apply Nat.mod_upper_bound. lia.
  - rewrite Hs. change (length analysisStages) with 6. lia.
  - rewrite Hp, Hstep.
    assert (0 <= inject_Z (Z.of_nat (Nat.min (fired progressInterval ts) 320)))%Q
      by (change 0%Q with (inject_Z 0); rewrite <- Zle_Qle; lia).
    revert H. generalize (inject_Z (Z.of_nat
                            (Nat.min (fired progressInterval ts) 320))).
    intros q H. lra.
  - rewrite Hp, Hstep.
    assert (inject_Z (Z.of_nat (Nat.min (fired progressInterval ts) 320))
            <= inject_Z 320)%Q by (rewrite <- Zle_Qle; lia).
    revert H. generalize (inject_Z (Z.of_nat
                            (Nat.min (fired progressInterval ts) 320))).
    intros q H. change (inject_Z 320) with 320%Q in H. lra.
Qed.

(** ** Network failures on the two pages *)

(** C4 as stated fails on the ingredients page, which sends a second
    request, for the image of a product that has none: when Open Food
    Facts cannot be reached, the rejection is swallowed and the page
    shows the ingredients without any error. *)
Lemma image_failure_counterexample :
  let image := Request (OPEN_FOOD_FACTS_PRODUCT (lit "42")) GET in
  let r := run (IngredientsPage.effect same_origin (ParamString (lit "42"))
                  None image_down true) IngredientsPage.initial fresh_tab in
  fetched (snd r)
  = [IngredientsPage.productRequest same_origin (lit "42"); image]
  /\ network_failure (image_down image) = true
  /\ IngredientsPage.error (fst r) = None
  /\ IngredientsPage.render (fst r)
     = IngredientsPage.Ingredients
         (JStr (lit "Maggi Noodles")) (JStr (lit "Nestle"))
         (JStr (lit "Wheat flour, palm oil, salt")).
Proof. cbv zeta. repeat split; by vm_compute. Qed.

(** C4, amended: a failure of the request that a page sends to the
    backend, a rejected [fetch] or a response that is not ok, on the
    mounted page without a cached entry: the request was sent once and
    never again, the caches are untouched, [loading] is cleared, and
    all that is kept of the failure is a message, the reason of the
    rejection or one fixed text for every response that is not ok.
    The page then shows its error panel, "Analysis Failed" or "Error
    Loading Ingredients", with the message when that is not empty,
    and with the panel's own text when the page was in its initial
    state.  The second request of the ingredients page, for an image,
    is another matter: whatever becomes of it, no error is set and
    the ingredients are shown. *)
Theorem network_failure_error_panels (env : environment) (params_id : param)
    (id : jsstring) (cache : cache_object) (net : network) :
  route_id params_id = Some id ->
  cached_entry cache id = None ->
  (forall s b,
     cached_entry (FD_CACHE b) id = None ->
     network_failure (net (AnalysisPage.analyzeRequest env id)) = true ->
     let a := run (AnalysisPage.effect env params_id cache net true) s b in
     let ma := failure_message (lit "Failed to fetch analysis")
                 (net (AnalysisPage.analyzeRequest env id)) in
     fst a = AnalysisPage.State (AnalysisPage.analysisText s)
               (AnalysisPage.analysisSections s) false (Some ma)
     /\ snd a = fetch (AnalysisPage.analyzeRequest env id) b
     /\ (ma <> [] ->
         AnalysisPage.render (fst a) = AnalysisPage.AnalysisFailed ma)
     /\ (s = AnalysisPage.initial ->
         AnalysisPage.render (fst a)
         = AnalysisPage.AnalysisFailed
             (if nonempty ma then ma
              else lit "Could not retrieve analysis data. Please try again.")))
  /\ (forall s b,
        network_failure (net (IngredientsPage.productRequest env id)) = true ->
        let i := run (IngredientsPage.effect env params_id cache net true) s b in
        let mi := failure_message (lit "Failed to fetch ingredients")
                    (net (IngredientsPage.productRequest env id)) in
        fst i = IngredientsPage.State (IngredientsPage.data s) false (Some mi)
        /\ snd i = fetch (IngredientsPage.productRequest env id) b
        /\ (mi <> [] ->
            IngredientsPage.render (fst i)
            = IngredientsPage.ErrorLoadingIngredients mi)
        /\ (s = IngredientsPage.initial ->
            IngredientsPage.render (fst i)
            = IngredientsPage.ErrorLoadingIngredients
                (if nonempty mi then mi else lit "No data found")))
  /\ (forall s b res d,
        net (IngredientsPage.productRequest env id) = Fulfilled res ->
        ok res = true ->
        json res = inr d ->
        needs_image d id = true ->
        let i := run (IngredientsPage.effect env params_id cache net true) s b in
        fetched (snd i)
        = fetched b ++ [IngredientsPage.productRequest env id;
                        Request (OPEN_FOOD_FACTS_PRODUCT id) GET]
        /\ IngredientsPage.loading (fst i) = false
        /\ IngredientsPage.error (fst i) = IngredientsPage.error s
        /\ (IngredientsPage.error s = None -> truthy d = true ->
            exists n br t,
              IngredientsPage.render (fst i)
              = IngredientsPage.Ingredients n br t)).
Proof.
  intros Hid Hc. split; [|split].
  - intros s b Hw Hf. cbv zeta.
    assert (E : run (AnalysisPage.effect env params_id cache net true) s b
                = (AnalysisPage.State (AnalysisPage.analysisText s)
                     (AnalysisPage.analysisSections s) false
                     (Some (failure_message (lit "Failed to fetch analysis")
                              (net (AnalysisPage.analyzeRequest env id)))),
                   fetch (AnalysisPage.analyzeRequest env id) b)).
    { unfold AnalysisPage.effect, run. rewrite Hid. unfold bind at 1.
      rewrite (tryUseCache_miss id cache s b Hw Hc).
      unfold finally, try_catch, bind, update, outside, lift, await_fetch,
        ret, throw.
      cbn [fst snd].
      destruct (net (AnalysisPage.analyzeRequest env id)) as [e|res];
        simpl in Hf |- *; [done|].
      apply negb_true_iff in Hf. by rewrite Hf. }
    rewrite E. cbn [fst snd]. split; [done|]. split; [done|].
    unfold AnalysisPage.render. cbn [AnalysisPage.loading AnalysisPage.error
      AnalysisPage.analysisText AnalysisPage.analysisSections default].
    split.
    + intros Hm.
      destruct (failure_message (lit "Failed to fetch analysis")
                  (net (AnalysisPage.analyzeRequest env id))); done.
    + intros ->. cbn.
      destruct (nonempty (failure_message (lit "Failed to fetch analysis")
                            (net (AnalysisPage.analyzeRequest env id)))); done.
  - intros s b Hf. cbv zeta.
    assert (E : run (IngredientsPage.effect env params_id cache net true) s b
                = (IngredientsPage.State (IngredientsPage.data s) false
                     (Some (failure_message (lit "Failed to fetch ingredients")
                              (net (IngredientsPage.productRequest env id)))),
                   fetch (IngredientsPage.productRequest env id) b)).
    { unfold IngredientsPage.effect, run. rewrite Hid, Hc.
      unfold finally, try_catch, bind, update, outside, lift, await_fetch,
        ret, throw.
      cbn [fst snd].
      destruct (net (IngredientsPage.productRequest env id)) as [e|res];
        simpl in Hf |- *; [done|].
      apply negb_true_iff in Hf. by rewrite Hf. }
    rewrite E. cbn [fst snd]. split; [done|]. split; [done|].
    unfold IngredientsPage.render. cbn [IngredientsPage.loading
      IngredientsPage.error IngredientsPage.data default].
    split.
    + intros Hm.
      destruct (failure_message (lit "Failed to fetch ingredients")
                  (net (IngredientsPage.productRequest env id))); done.
    + intros ->. cbn.
      destruct (nonempty (failure_message (lit "Failed to fetch ingredients")
                            (net (IngredientsPage.productRequest env id))));
        done.
  - intros s b res d Hnet Hok Hjson Himg. cbv zeta.
    destruct (ingredients_effect_ok env params_id id cache net res d s b
                Hid Hc Hnet Hok Hjson) as (Hl & He & _ & _ & Hf & Hd).
    rewrite Himg in Hf. split; [exact Hf|]. split; [exact Hl|].
    split; [exact He|]. intros Hs Ht.
    unfold IngredientsPage.render. rewrite Hl, He, Hs. cbn [default nonempty].
    destruct Hd as [-> | (img & _ & _ & ->)].
    + rewrite Ht. cbn. eauto.
    + cbn. eauto.
Qed.

Lemma network_failure_error_panels_witness :
  let a := run (AnalysisPage.effect same_origin (ParamString (lit "42")) None
                  offline true) AnalysisPage.initial fresh_tab in
  let i := run (IngredientsPage.effect same_origin (ParamString (lit "42")) None
                  not_found true) IngredientsPage.initial fresh_tab in
  let p := run (IngredientsPage.effect same_origin (ParamString (lit "42")) None
                  image_down true) IngredientsPage.initial fresh_tab in
  (route_id (ParamString (lit "42")) = Some (lit "42")
   /\ cached_entry None (lit "42") = None
   /\ cached_entry (FD_CACHE fresh_tab) (lit "42") = None
   /\ network_failure (offline (AnalysisPage.analyzeRequest same_origin (lit "42")))
      = true
   /\ network_failure (not_found (IngredientsPage.productRequest same_origin
                                    (lit "42"))) = true
   /\ needs_image unpictured (lit "42") = true)
  /\ AnalysisPage.render (fst a) = AnalysisPage.AnalysisFailed (lit "Failed to fetch")
  /\ IngredientsPage.render (fst i)
     = IngredientsPage.ErrorLoadingIngredients (lit "Failed to fetch ingredients")
  /\ length (fetched (snd a)) = 1
  /\ length (fetched (snd i)) = 1
  /\ IngredientsPage.error (fst p) = None.
Proof.
  split; [repeat split|].
  destruct (network_failure_error_panels same_origin (ParamString (lit "42"))
              (lit "42") None offline eq_refl eq_refl) as (Ha & _ & _).
  destruct (network_failure_error_panels same_origin (ParamString (lit "42"))
              (lit "42") None not_found eq_refl eq_refl) as (_ & Hi & _).
  destruct (network_failure_error_panels same_origin (ParamString (lit "42"))
              (lit "42") None image_down eq_refl eq_refl) as (_ & _ & Hp).
  destruct (Ha AnalysisPage.initial fresh_tab eq_refl eq_refl)
    as (_ & Ha2 & _ & Ha4).
  destruct (Hi IngredientsPage.initial fresh_tab eq_refl)
    as (_ & Hi2 & _ & Hi4).
  destruct (Hp IngredientsPage.initial fresh_tab
              (Response 200 (inr unpictured)) unpictured
              eq_refl eq_refl eq_refl eq_refl) as (_ & _ & Hp3 & _).
  cbv zeta. split; [exact (Ha4 eq_refl)|]. split; [exact (Hi4 eq_refl)|].
  split; [by rewrite Ha2|]. split; [by rewrite Hi2|]. exact Hp3.
Defined.

(** ** The data model *)



